(** * go-astits: MPEG-TS packet and descriptor codec

    A shallow embedding of the packet codec ([packet.go]), the bit writer
    and CRC writer file ([crc32.go]) and the descriptor codec
    ([descriptor.go]) of the Go package [astits], together with the
    properties of the specification that were checked against them.

    Conventions
    - a Go [byte]/[uint8] is a [Z] in [0, 256); narrowing conversions such
      as [uint8(x)] are written [u8 x]; a Go [int] is an unbounded [Z]
      (no length in this package comes near 2^63);
    - the fields of a Go struct [T] are named [T_Field], with a short
      prefix for long type names;
    - a [*T] that may be nil is an [option T];
    - a [[]byte] that the code only measures and copies is the list of its
      elements; a [[]byte] that the code re-slices ([x[:3]]) is a [slice],
      which also carries the part of its backing array beyond its length;
    - a Go run-time panic is the outcome [Panic]. *)

From Stdlib Require Import ZArith List String Bool Lia.
Import ListNotations.

Local Open Scope string_scope.
Local Open Scope list_scope.
Local Open Scope Z_scope.

Set Implicit Arguments.

(** ** Bytes and integers *)

Definition byte := Z.
Definition bytes := list byte.

Definition u8 (x : Z) : Z := x mod 256.
Definition u16 (x : Z) : Z := x mod 65536.

Definition is_u8 (x : Z) : Prop := 0 <= x < 256.
Definition is_u16 (x : Z) : Prop := 0 <= x < 65536.
Definition is_u32 (x : Z) : Prop := 0 <= x < 4294967296.

Definition len {A} (l : list A) : Z := Z.of_nat (List.length l).

(** A Go slice of bytes seen through one slice header: [elems] are the
    [len] elements, [spare] the elements of the backing array between
    [len] and [cap].  Nothing in this package writes through a slice after
    it was made, so the backing array is immutable here. *)
Record slice := mkSlice { elems : bytes; spare : bytes }.

Definition slice_of (bs : bytes) : slice := mkSlice bs [].
Definition slice_cap (s : slice) : Z := len (elems s) + len (spare s).

(** ** Errors and outcomes *)

Inductive error : Type :=
| ErrPacketMustStartWithASyncByte
| errSkippedPacket
| ErrInvalidOffset (sliceLen offset : Z)
    (* astikit: slice length is %d, offset %d is invalid *)
| ErrPayloadTooBig (payload available : Z)
    (* writePacket: can't write %d bytes of payload: only %d is available *)
| ErrSink (code : Z)
    (* an error returned by the underlying io.Writer *)
| ErrWrap (context : string) (e : error).
    (* fmt.Errorf("<context>: %w", e) *)

Inductive panic : Type :=
| IndexOutOfRange
| NilDereference
| NegativeShift
| NegativeLen
| OutOfFuel.  (* artefact of the fuel of a modelled loop, shown unreachable *)

Inductive result (A : Type) : Type :=
| Ok (a : A)
| Err (e : error)
| Panic (p : panic).

Arguments Ok {A} a.
Arguments Err {A} e.
Arguments Panic {A} p.

(** [s[:n]]: legal up to the capacity, and then shows what the backing
    array holds. *)
Definition reslice_to (s : slice) (n : Z) : result slice :=
  if (n <? 0) || (slice_cap s <? n) then Panic IndexOutOfRange
  else
    let all := elems s ++ spare s in
    Ok (mkSlice (firstn (Z.to_nat n) all) (skipn (Z.to_nat n) all)).

(** ** The byte iterator of astikit

    [astikit.BytesIterator] is imported, not part of the package: this is
    its contract (a cursor over a caller-owned buffer; a read past the end
    is an error and leaves the cursor where it was). *)
Module astikit.

Record BytesIterator := mkIter { bs : bytes; offset : Z }.

Definition NewBytesIterator (b : bytes) : BytesIterator := mkIter b 0.

Definition M (A : Type) : Type := BytesIterator -> result A * BytesIterator.

Definition ret {A} (a : A) : M A := fun i => (Ok a, i).
Definition fail {A} (e : error) : M A := fun i => (Err e, i).

Definition bind {A B} (m : M A) (k : A -> M B) : M B :=
  fun i =>
    match m i with
    | (Ok a, i') => k a i'
    | (Err e, i') => (Err e, i')
    | (Panic p, i') => (Panic p, i')
    end.

(** [if x, err = m; err != nil { err = fmt.Errorf("ctx: %w", err); return }] *)
Definition wrap {A} (context : string) (m : M A) : M A :=
  fun i =>
    match m i with
    | (Err e, i') => (Err (ErrWrap context e), i')
    | r => r
    end.

Definition Len (i : BytesIterator) : Z := len (bs i).
Definition Offset (i : BytesIterator) : Z := offset i.

(** [i.bs[lo:hi]] on the buffer. *)
Definition sub (b : bytes) (lo n : Z) : bytes :=
  firstn (Z.to_nat n) (skipn (Z.to_nat lo) b).

Definition NextByte : M byte :=
  fun i =>
    if len (bs i) <? offset i + 1 then (Err (ErrInvalidOffset (len (bs i)) (offset i)), i)
    else if offset i <? 0 then (Panic IndexOutOfRange, i)
    else (Ok (nth (Z.to_nat (offset i)) (bs i) 0), mkIter (bs i) (offset i + 1)).

(** [NextBytes] copies: the result is a fresh slice of capacity [n]. *)
Definition NextBytes (n : Z) : M bytes :=
  fun i =>
    if len (bs i) <? offset i + n then (Err (ErrInvalidOffset (len (bs i)) (offset i + n)), i)
    else if n <? 0 then (Panic NegativeLen, i)
    else if offset i <? 0 then (Panic IndexOutOfRange, i)
    else (Ok (sub (bs i) (offset i) n), mkIter (bs i) (offset i + n)).

Definition NextBytesNoCopy (n : Z) : M bytes :=
  fun i =>
    if len (bs i) <? offset i + n then (Err (ErrInvalidOffset (len (bs i)) (offset i + n)), i)
    else if (offset i <? 0) || (n <? 0) then (Panic IndexOutOfRange, i)
    else (Ok (sub (bs i) (offset i) n), mkIter (bs i) (offset i + n)).

Definition Seek (n : Z) : M unit := fun i => (Ok tt, mkIter (bs i) n).
Definition Skip (n : Z) : M unit := fun i => (Ok tt, mkIter (bs i) (offset i + n)).
Definition GetOffset : M Z := fun i => (Ok (offset i), i).
Definition GetLen : M Z := fun i => (Ok (len (bs i)), i).

Definition HasBytesLeft (i : BytesIterator) : bool := offset i <? len (bs i).

Definition Dump : M bytes :=
  fun i =>
    if HasBytesLeft i then
      if offset i <? 0 then (Panic IndexOutOfRange, i)
      else (Ok (skipn (Z.to_nat (offset i)) (bs i)), mkIter (bs i) (len (bs i)))
    else (Ok [], i).

(** [for i.Offset() < offsetEnd { acc = body(acc) }].  Every body in the
    package moves the cursor forward or fails, so [offsetEnd - offset]
    bounds the number of turns; [for_offset] starts with that much fuel. *)
Fixpoint loop {A} (fuel : nat) (offsetEnd : Z) (body : A -> M A) (acc : A) : M A :=
  fun i =>
    if offset i <? offsetEnd then
      match fuel with
      | O => (Panic OutOfFuel, i)
      | S fuel' => bind (body acc) (loop fuel' offsetEnd body) i
      end
    else (Ok acc, i).

Definition for_offset {A} (offsetEnd : Z) (body : A -> M A) (acc : A) : M A :=
  fun i => loop (Z.to_nat (offsetEnd - offset i)) offsetEnd body acc i.

End astikit.

Import astikit.

Declare Scope iter_scope.
Delimit Scope iter_scope with iter.
Notation "x <- m ;; k" := (bind m (fun x => k))
  (at level 61, m at next level, right associativity) : iter_scope.
Notation "m ;;; k" := (bind m (fun _ => k))
  (at level 61, right associativity) : iter_scope.
Notation "m 'orwrap' s" := (wrap s m) (at level 60, only parsing) : iter_scope.

(** ** The bit writer ([lightweightBitsWriter], crc32.go)

    The sink is any [io.Writer]; the writer never looks at the byte count
    a [Write] returns, only at its error. *)

Class IoWriter (S : Type) := io_Write : S -> bytes -> S * option error.

(** The outcome of code that writes: it returns, or the program panics. *)
Inductive outcome (A : Type) : Type :=
| Done (a : A)
| Abort (p : panic).

Arguments Done {A} a.
Arguments Abort {A} p.

Section BitsWriter.

Context {Sink : Type} {SW : IoWriter Sink}.

Record lightweightBitsWriter := mkWriter {
  w_w : Sink;
  w_cache : byte;
  w_cacheLen : byte;
  w_bsCache : byte;   (* the one-byte scratch slice [bsCache] *)
  w_err : option error
}.

Definition newLightweightBitsWriter (s : Sink) : lightweightBitsWriter :=
  mkWriter s 0 0 0 None.

Definition Err_ (w : lightweightBitsWriter) : option error := w_err w.

Definition flushBsCache (w : lightweightBitsWriter) : lightweightBitsWriter :=
  match w_err w with
  | None =>
      let '(s', e) := io_Write (w_w w) [w_bsCache w] in
      mkWriter s' (w_cache w) (w_cacheLen w) (w_bsCache w) e
  | Some _ => w
  end.

(** The tail shared by [WriteBit] and [WriteBits]:
    [if w.cacheLen == 8 { w.bsCache[0] = w.cache; w.flushBsCache();
    w.cacheLen = 0; w.cache = 0 }]. *)
Definition flushIfFull (w : lightweightBitsWriter) : lightweightBitsWriter :=
  if w_cacheLen w =? 8 then
    let w1 := flushBsCache (mkWriter (w_w w) (w_cache w) (w_cacheLen w) (w_cache w) (w_err w)) in
    mkWriter (w_w w1) 0 0 (w_bsCache w1) (w_err w1)
  else w.

Definition WriteBit (bit : bool) (w : lightweightBitsWriter) : lightweightBitsWriter :=
  let cache1 :=
    if bit then Z.lor (w_cache w) (u8 (Z.shiftl 1 (u8 (7 - w_cacheLen w))))
    else w_cache w in
  flushIfFull (mkWriter (w_w w) cache1 (u8 (w_cacheLen w + 1)) (w_bsCache w) (w_err w)).

(** One turn of the loop of [WriteBits], for [n > 0]. *)
Definition WriteBits_step (toWrite n : Z) (w : lightweightBitsWriter)
  : Z * lightweightBitsWriter :=
  if w_cacheLen w =? 0 then
    if n >=? 8 then
      let n1 := n - 8 in
      (n1, flushBsCache (mkWriter (w_w w) (w_cache w) (w_cacheLen w)
                           (u8 (Z.shiftr toWrite n1)) (w_err w)))
    else
      let cl := u8 n in
      (0, mkWriter (w_w w) (u8 (Z.shiftl toWrite (u8 (8 - cl)))) cl (w_bsCache w) (w_err w))
  else
    let free := u8 (8 - w_cacheLen w) in
    let m := if n >=? free then free else n in
    let cache1 :=
      if n <=? free then Z.lor (w_cache w) (u8 (Z.shiftl toWrite (free - m)))
      else Z.lor (w_cache w) (u8 (Z.shiftr toWrite (n - m))) in
    (n - m,
     flushIfFull (mkWriter (w_w w) cache1 (u8 (w_cacheLen w + u8 m)) (w_bsCache w) (w_err w))).

Fixpoint WriteBits_loop (fuel : nat) (toWrite n : Z) (w : lightweightBitsWriter)
  : outcome lightweightBitsWriter :=
  if n >? 0 then
    match fuel with
    | O => Abort OutOfFuel
    | S fuel' =>
        let '(n1, w1) := WriteBits_step toWrite n w in
        WriteBits_loop fuel' toWrite n1 w1
    end
  else Done w.

(** [toWrite &= ^uint64(0) >> (64 - n)] panics on a negative shift count
    when [n > 64] and leaves nothing to write when [n <= 0].  Each turn
    of the loop lowers [n], except one turn that may only empty a full
    cache, hence the fuel. *)
Definition WriteBits (toWrite n : Z) (w : lightweightBitsWriter)
  : outcome lightweightBitsWriter :=
  if 64 <? n then Abort NegativeShift
  else
    let mask := Z.shiftr (2 ^ 64 - 1) (64 - n) in
    WriteBits_loop (S (Z.to_nat n)) (Z.land toWrite mask) n w.

Definition WriteByte (b : byte) (w : lightweightBitsWriter) : lightweightBitsWriter :=
  if w_cacheLen w =? 0 then
    flushBsCache (mkWriter (w_w w) (w_cache w) (w_cacheLen w) b (w_err w))
  else
    flushBsCache
      (mkWriter (w_w w)
         (u8 (Z.shiftl b (u8 (8 - w_cacheLen w))))
         (w_cacheLen w)
         (Z.lor (w_cache w) (Z.shiftr b (w_cacheLen w)))
         (w_err w)).

Definition WriteUint16 (v : Z) := WriteBits v 16.
Definition WriteUint32 (v : Z) := WriteBits v 32.

Definition WriteSlice (inp : bytes) (w : lightweightBitsWriter) : lightweightBitsWriter :=
  match inp with
  | [] => w
  | _ =>
      if negb (w_cacheLen w =? 0) then fold_left (fun w b => WriteByte b w) inp w
      else
        match w_err w with
        | None =>
            let '(s', e) := io_Write (w_w w) inp in
            mkWriter s' (w_cache w) (w_cacheLen w) (w_bsCache w) e
        | Some _ => w
        end
  end.

(** The monad of the functions that write: a state monad over the
    writer in which the program may panic. *)
Definition Wr (A : Type) : Type :=
  lightweightBitsWriter -> outcome (A * lightweightBitsWriter).

Definition wret {A} (a : A) : Wr A := fun w => Done (a, w).
Definition wpanic {A} (p : panic) : Wr A := fun _ => Abort p.

Definition wbind {A B} (m : Wr A) (k : A -> Wr B) : Wr B :=
  fun w =>
    match m w with
    | Done (a, w') => k a w'
    | Abort p => Abort p
    end.

Definition wdo (f : lightweightBitsWriter -> lightweightBitsWriter) : Wr unit :=
  fun w => Done (tt, f w).

Definition wbits (toWrite n : Z) : Wr unit :=
  fun w =>
    match WriteBits toWrite n w with
    | Done w' => Done (tt, w')
    | Abort p => Abort p
    end.

Definition werr : Wr (option error) := fun w => Done (w_err w, w).

(** [for _, x := range xs { body(x) }] *)
Fixpoint wfor {A} (xs : list A) (body : A -> Wr unit) : Wr unit :=
  match xs with
  | [] => wret tt
  | x :: xs' => wbind (body x) (fun _ => wfor xs' body)
  end.

(** [for k := 0; k < n; k++ { body }] *)
Fixpoint wtimes (n : nat) (body : Wr unit) : Wr unit :=
  match n with
  | O => wret tt
  | S n' => wbind body (fun _ => wtimes n' body)
  end.

End BitsWriter.

Arguments lightweightBitsWriter Sink : clear implicits.
Arguments Wr Sink A : clear implicits.

Declare Scope wr_scope.
Delimit Scope wr_scope with wr.
Notation "x <- m ;; k" := (wbind m (fun x => k))
  (at level 61, m at next level, right associativity) : wr_scope.
Notation "m ;;; k" := (wbind m (fun _ => k))
  (at level 61, right associativity) : wr_scope.

(** Two sinks: a [bytes.Buffer], which never fails, and a sink of bounded
    room, which rejects a write that does not fit. *)
Definition BufferSink := bytes.

#[export] Instance BufferSink_IoWriter : IoWriter BufferSink :=
  fun s p => (s ++ p, None).

Record BoundedSink := mkBounded { bounded_data : bytes; bounded_room : Z }.

#[export] Instance BoundedSink_IoWriter : IoWriter BoundedSink :=
  fun s p =>
    if len p <=? bounded_room s
    then (mkBounded (bounded_data s ++ p) (bounded_room s - len p), None)
    else (s, Some (ErrSink 28)).

(** ** Declarations the three files use from the rest of the package *)

(** Modelled from the spec: the sync byte constant [syncByte], declared
    outside the files at hand; a packet starts with 0x47. *)
Definition syncByte : byte := 71.

(** Modelled from the spec: [ClockReference] and [newClockReference],
    declared outside the files at hand; a pair of a 33-bit base and a
    9-bit extension. *)
Record ClockReference := mkClockReference { CR_Base : Z; CR_Extension : Z }.

Definition newClockReference (base extension : Z) : ClockReference :=
  mkClockReference base extension.

(** Modelled from the spec: [ptsOrDTSByteLength], the 40 bits of a PTS or
    DTS field. *)
Definition ptsOrDTSByteLength : Z := 5.

Definition idx (b : bytes) (k : nat) : byte := nth k b 0.

(** Modelled from the spec: [parsePTSOrDTS], declared outside the files at
    hand.  Five bytes: a 4-bit prefix, then 3 bits, a marker bit, 15 bits,
    a marker bit, 15 bits and a marker bit, 33 data bits in all. *)
Definition parsePTSOrDTS : M ClockReference :=
  (b <- NextBytesNoCopy 5 orwrap "astits: fetching next bytes failed";;
   ret (newClockReference
          (Z.lor (Z.shiftl (Z.land (Z.shiftr (idx b 0) 1) 7) 30)
             (Z.lor (Z.shiftl (idx b 1) 22)
                (Z.lor (Z.shiftl (Z.land (Z.shiftr (idx b 2) 1) 127) 15)
                   (Z.lor (Z.shiftl (idx b 3) 7)
                      (Z.land (Z.shiftr (idx b 4) 1) 127)))))
          0))%iter.

(** ** Packets (packet.go) *)

Definition ScramblingControlNotScrambled : Z := 0.
Definition ScramblingControlReservedForFutureUse : Z := 1.
Definition ScramblingControlScrambledWithEvenKey : Z := 2.
Definition ScramblingControlScrambledWithOddKey : Z := 3.

Definition MpegTsPacketSize : Z := 188.
Definition mpegTsPacketHeaderSize : Z := 3.
Definition pcrBytesSize : Z := 6.

Record PacketHeader := mkPacketHeader {
  PH_ContinuityCounter : Z;
  PH_HasAdaptationField : bool;
  PH_HasPayload : bool;
  PH_PayloadUnitStartIndicator : bool;
  PH_PID : Z;
  PH_TransportErrorIndicator : bool;
  PH_TransportPriority : bool;
  PH_TransportScramblingControl : Z
}.

Record PacketAdaptationExtensionField := mkPacketAdaptationExtensionField {
  AEF_DTSNextAccessUnit : option ClockReference;
  AEF_HasLegalTimeWindow : bool;
  AEF_HasPiecewiseRate : bool;
  AEF_HasSeamlessSplice : bool;
  AEF_LegalTimeWindowIsValid : bool;
  AEF_LegalTimeWindowOffset : Z;
  AEF_Length : Z;
  AEF_PiecewiseRate : Z;
  AEF_SpliceType : Z
}.

Record PacketAdaptationField := mkPacketAdaptationField {
  AF_AdaptationExtensionField : option PacketAdaptationExtensionField;
  AF_OPCR : option ClockReference;
  AF_PCR : option ClockReference;
  AF_TransportPrivateData : bytes;
  AF_TransportPrivateDataLength : Z;
  AF_Length : Z;
  AF_StuffingLength : Z;
  AF_SpliceCountdown : Z;
  AF_IsOneByteStuffing : bool;
  AF_RandomAccessIndicator : bool;
  AF_DiscontinuityIndicator : bool;
  AF_ElementaryStreamPriorityIndicator : bool;
  AF_HasAdaptationExtensionField : bool;
  AF_HasOPCR : bool;
  AF_HasPCR : bool;
  AF_HasTransportPrivateData : bool;
  AF_HasSplicingCountdown : bool
}.

Record Packet := mkPacket {
  P_AdaptationField : option PacketAdaptationField;
  P_Header : PacketHeader;
  P_Payload : bytes
}.

Definition PacketSkipper := Packet -> bool.

(** The zero values [&PacketAdaptationField{}] and
    [&PacketAdaptationExtensionField{}]. *)
Definition zeroAdaptationExtensionField : PacketAdaptationExtensionField :=
  mkPacketAdaptationExtensionField None false false false false 0 0 0 0.

Definition zeroAdaptationField : PacketAdaptationField :=
  mkPacketAdaptationField None None None [] 0 0 0 0
    false false false false false false false false false.

Definition set_AF_Length (v : Z) (a : PacketAdaptationField) : PacketAdaptationField :=
  mkPacketAdaptationField
    (AF_AdaptationExtensionField a) (AF_OPCR a) (AF_PCR a) (AF_TransportPrivateData a)
    (AF_TransportPrivateDataLength a) v (AF_StuffingLength a) (AF_SpliceCountdown a)
    (AF_IsOneByteStuffing a) (AF_RandomAccessIndicator a) (AF_DiscontinuityIndicator a)
    (AF_ElementaryStreamPriorityIndicator a) (AF_HasAdaptationExtensionField a)
    (AF_HasOPCR a) (AF_HasPCR a) (AF_HasTransportPrivateData a) (AF_HasSplicingCountdown a).

Definition set_AF_StuffingLength (v : Z) (a : PacketAdaptationField) : PacketAdaptationField :=
  mkPacketAdaptationField
    (AF_AdaptationExtensionField a) (AF_OPCR a) (AF_PCR a) (AF_TransportPrivateData a)
    (AF_TransportPrivateDataLength a) (AF_Length a) v (AF_SpliceCountdown a)
    (AF_IsOneByteStuffing a) (AF_RandomAccessIndicator a) (AF_DiscontinuityIndicator a)
    (AF_ElementaryStreamPriorityIndicator a) (AF_HasAdaptationExtensionField a)
    (AF_HasOPCR a) (AF_HasPCR a) (AF_HasTransportPrivateData a) (AF_HasSplicingCountdown a).

(** [b&mask > 0] *)
Definition bit_set (b mask : Z) : bool := Z.land b mask >? 0.

(** A function that dereferences a pointer handed to it. *)
Definition deref {A B} (p : option A) (k : A -> M B) : M B :=
  match p with
  | Some a => k a
  | None => fun i => (Panic NilDereference, i)
  end.

Definition payloadOffset (offsetStart : Z) (h : PacketHeader)
  (a : option PacketAdaptationField) : M Z :=
  if PH_HasAdaptationField h
  then deref a (fun af => ret (offsetStart + 3 + (1 + AF_Length af)))
  else ret (offsetStart + 3).

Definition parsePacketHeader : M PacketHeader :=
  (b <- NextBytesNoCopy 3 orwrap "astits: fetching next bytes failed";;
   ret (mkPacketHeader
          (Z.land (idx b 2) 15)
          (bit_set (idx b 2) 32)
          (bit_set (idx b 2) 16)
          (bit_set (idx b 0) 64)
          (Z.lor (Z.shiftl (Z.land (idx b 0) 31) 8) (idx b 1))
          (bit_set (idx b 0) 128)
          (bit_set (idx b 0) 32)
          (Z.land (Z.shiftr (idx b 2) 6) 3)))%iter.

(** Program clock reference: 33 bits base, 6 bits reserved, 9 bits
    extension. *)
Definition parsePCR : M ClockReference :=
  (b <- NextBytesNoCopy 6 orwrap "astits: fetching next bytes failed";;
   let pcr :=
     Z.lor (Z.shiftl (idx b 0) 40)
       (Z.lor (Z.shiftl (idx b 1) 32)
          (Z.lor (Z.shiftl (idx b 2) 24)
             (Z.lor (Z.shiftl (idx b 3) 16)
                (Z.lor (Z.shiftl (idx b 4) 8) (idx b 5))))) in
   ret (newClockReference (Z.shiftr pcr 15) (Z.land pcr 511)))%iter.

(** [if cond { x, err = m }]: the field keeps its zero value otherwise. *)
Definition when {A} (cond : bool) (zero : A) (m : M A) : M A :=
  if cond then m else ret zero.

Definition some {A} (m : M A) : M (option A) := bind m (fun a => ret (Some a)).

Definition parsePacketAdaptationExtensionField : M PacketAdaptationExtensionField :=
  (b <- NextByte orwrap "astits: fetching next byte failed";;
   let length := b in
   if length >? 0 then
     b <- NextByte orwrap "astits: fetching next byte failed";;
     let hasLTW := bit_set b 128 in
     let hasPR := bit_set b 64 in
     let hasSS := bit_set b 32 in
     ltw <- when hasLTW (false, 0)
              (b <- NextBytesNoCopy 2 orwrap "astits: fetching next bytes failed";;
               ret (bit_set (idx b 0) 128,
                    Z.lor (Z.shiftl (Z.land (idx b 0) 127) 8) (idx b 1)));;
     pr <- when hasPR 0
              (b <- NextBytesNoCopy 3 orwrap "astits: fetching next bytes failed";;
               ret (Z.lor (Z.shiftl (Z.land (idx b 0) 63) 16)
                      (Z.lor (Z.shiftl (idx b 1) 8) (idx b 2))));;
     ss <- when hasSS (0, None)
              (b <- NextByte orwrap "astits: fetching next byte failed";;
               let spliceType := Z.shiftr (Z.land b 240) 4 in
               Skip (-1);;;
               dts <- parsePTSOrDTS orwrap "astits: parsing DTS failed";;
               ret (spliceType, Some dts));;
     ret (mkPacketAdaptationExtensionField
            (snd ss) hasLTW hasPR hasSS (fst ltw) (snd ltw) length pr (fst ss))
   else
     ret (mkPacketAdaptationExtensionField None false false false false 0 length 0 0))%iter.

Definition parsePacketAdaptationField : M PacketAdaptationField :=
  (b <- NextByte orwrap "astits: fetching next byte failed";;
   let length := b in
   afStartOffset <- GetOffset;;
   a <- (if length >? 0 then
           b <- NextByte orwrap "astits: fetching next byte failed";;
           let hasPCR := bit_set b 16 in
           let hasOPCR := bit_set b 8 in
           let hasSC := bit_set b 4 in
           let hasTPD := bit_set b 2 in
           let hasAEF := bit_set b 1 in
           pcr <- when hasPCR None (some (parsePCR orwrap "astits: parsing PCR failed"));;
           opcr <- when hasOPCR None (some (parsePCR orwrap "astits: parsing PCR failed"));;
           sc <- when hasSC 0 (NextByte orwrap "astits: fetching next byte failed");;
           tpd <- when hasTPD (0, [])
                    (l <- NextByte orwrap "astits: fetching next byte failed";;
                     d <- when (l >? 0) []
                            (NextBytes l orwrap "astits: fetching next bytes failed");;
                     ret (l, d));;
           aef <- when hasAEF None (some parsePacketAdaptationExtensionField);;
           ret (mkPacketAdaptationField aef opcr pcr (snd tpd) (fst tpd) length 0 sc
                  false (bit_set b 64) (bit_set b 128) (bit_set b 32)
                  hasAEF hasOPCR hasPCR hasTPD hasSC)
         else ret (set_AF_Length length zeroAdaptationField));;
   off <- GetOffset;;
   ret (set_AF_StuffingLength (AF_Length a - (off - afStartOffset)) a))%iter.

Definition parsePacket (s : option PacketSkipper) : M Packet :=
  (b <- NextByte orwrap "astits: getting next byte failed";;
   if negb (b =? syncByte) then fail ErrPacketMustStartWithASyncByte
   else
     l <- GetLen;;
     Seek (l - MpegTsPacketSize + 1);;;
     offsetStart <- GetOffset;;
     h <- parsePacketHeader orwrap "astits: parsing packet header failed";;
     af <- when (PH_HasAdaptationField h) None
             (some (parsePacketAdaptationField
                      orwrap "astits: parsing packet adaptation field failed"));;
     let p := mkPacket af h [] in
     if match s with Some skip => skip p | None => false end
     then fail errSkippedPacket
     else if PH_HasPayload h then
       o <- payloadOffset offsetStart h af;;
       Seek o;;;
       payload <- Dump;;
       ret (mkPacket af h payload)
     else ret p)%iter.

Section PacketWriter.

Context {Sink : Type} {SW : IoWriter Sink}.

Local Open Scope wr_scope.

(** A function that dereferences a pointer handed to it. *)
Definition wderef {A B} (p : option A) (k : A -> Wr Sink B) : Wr Sink B :=
  match p with
  | Some a => k a
  | None => wpanic NilDereference
  end.

(** Modelled from the spec: [writePTSOrDTS], declared outside the files at
    hand; the 4-bit prefix and the 33 bits of the clock base interleaved
    with three marker bits, 40 bits in all. *)
Definition writePTSOrDTS (flag : Z) (cr : option ClockReference)
  : Wr Sink (Z * option error) :=
  wderef cr (fun c =>
    wbits flag 4;;;
    wbits (Z.shiftr (CR_Base c) 30) 3;;;
    wdo (WriteBit true);;;
    wbits (Z.shiftr (CR_Base c) 15) 15;;;
    wdo (WriteBit true);;;
    wbits (CR_Base c) 15;;;
    wdo (WriteBit true);;;
    e <- werr;;
    wret (ptsOrDTSByteLength, e)).

Definition writePacketHeader (h : PacketHeader) : Wr Sink (Z * option error) :=
  wdo (WriteBit (PH_TransportErrorIndicator h));;;
  wdo (WriteBit (PH_PayloadUnitStartIndicator h));;;
  wdo (WriteBit (PH_TransportPriority h));;;
  wbits (PH_PID h) 13;;;
  wbits (PH_TransportScramblingControl h) 2;;;
  wdo (WriteBit (PH_HasAdaptationField h));;;
  wdo (WriteBit (PH_HasPayload h));;;
  wbits (PH_ContinuityCounter h) 4;;;
  e <- werr;;
  wret (mpegTsPacketHeaderSize, e).

Definition writePCR (cr : option ClockReference) : Wr Sink (Z * option error) :=
  wderef cr (fun c =>
    wbits (CR_Base c) 33;;;
    wbits 255 6;;;
    wbits (CR_Extension c) 9;;;
    e <- werr;;
    wret (pcrBytesSize, e)).

Definition calcPacketAdaptationFieldExtensionLength
  (afe : option PacketAdaptationExtensionField) : outcome Z :=
  match afe with
  | None => Abort NilDereference
  | Some x =>
      Done (u8 (1 + (if AEF_HasLegalTimeWindow x then 2 else 0)
                  + (if AEF_HasPiecewiseRate x then 3 else 0)
                  + (if AEF_HasSeamlessSplice x then ptsOrDTSByteLength else 0)))
  end.

Definition calcPacketAdaptationFieldLength (af : PacketAdaptationField) : outcome Z :=
  let base :=
    1 + (if AF_HasPCR af then pcrBytesSize else 0)
      + (if AF_HasOPCR af then pcrBytesSize else 0)
      + (if AF_HasSplicingCountdown af then 1 else 0)
      + (if AF_HasTransportPrivateData af
         then 1 + u8 (len (AF_TransportPrivateData af)) else 0) in
  if AF_HasAdaptationExtensionField af then
    match calcPacketAdaptationFieldExtensionLength (AF_AdaptationExtensionField af) with
    | Done l => Done (u8 (base + (1 + l) + u8 (AF_StuffingLength af)))
    | Abort p => Abort p
    end
  else Done (u8 (base + u8 (AF_StuffingLength af))).

Definition wcalc {A} (o : outcome A) : Wr Sink A :=
  fun w => match o with Done a => Done (a, w) | Abort p => Abort p end.

Definition writePacketAdaptationFieldExtension
  (afe : option PacketAdaptationExtensionField) : Wr Sink (Z * option error) :=
  length <- wcalc (calcPacketAdaptationFieldExtensionLength afe);;
  wderef afe (fun x =>
    wdo (WriteByte length);;;
    wdo (WriteBit (AEF_HasLegalTimeWindow x));;;
    wdo (WriteBit (AEF_HasPiecewiseRate x));;;
    wdo (WriteBit (AEF_HasSeamlessSplice x));;;
    wbits 255 5;;;
    (if AEF_HasLegalTimeWindow x then
       wdo (WriteBit (AEF_LegalTimeWindowIsValid x));;;
       wbits (AEF_LegalTimeWindowOffset x) 15
     else wret tt);;;
    (if AEF_HasPiecewiseRate x then
       wbits 255 2;;;
       wbits (AEF_PiecewiseRate x) 22
     else wret tt);;;
    let written :=
      2 + (if AEF_HasLegalTimeWindow x then 2 else 0)
        + (if AEF_HasPiecewiseRate x then 3 else 0) in
    if AEF_HasSeamlessSplice x then
      r <- writePTSOrDTS (AEF_SpliceType x) (AEF_DTSNextAccessUnit x);;
      match snd r with
      | Some e => wret (0, Some e)
      | None => e <- werr;; wret (written + fst r, e)
      end
    else e <- werr;; wret (written, e)).

(** The body of [writePacketAdaptationField] from the OPCR on, given the
    bytes counted so far. *)
Definition writePacketAdaptationFieldTail (af : PacketAdaptationField) (written : Z)
  : Wr Sink (Z * option error) :=
  (if AF_HasSplicingCountdown af
   then wdo (WriteByte (u8 (AF_SpliceCountdown af)))
   else wret tt);;;
  (if AF_HasTransportPrivateData af then
     wdo (WriteByte (u8 (AF_TransportPrivateDataLength af)));;;
     (if AF_TransportPrivateDataLength af >? 0
      then wdo (WriteSlice (AF_TransportPrivateData af))
      else wret tt)
   else wret tt);;;
  let written :=
    written + (if AF_HasSplicingCountdown af then 1 else 0)
      + (if AF_HasTransportPrivateData af
         then 1 + len (AF_TransportPrivateData af) else 0) in
  r <- (if AF_HasAdaptationExtensionField af
        then writePacketAdaptationFieldExtension (AF_AdaptationExtensionField af)
        else wret (0, None));;
  match snd r with
  | Some e => wret (0, Some e)
  | None =>
      wtimes (Z.to_nat (AF_StuffingLength af)) (wdo (WriteByte 255));;;
      e <- werr;;
      wret (written + fst r + Z.max 0 (AF_StuffingLength af), e)
  end.

Definition writePacketAdaptationField (p : option PacketAdaptationField)
  : Wr Sink (Z * option error) :=
  wderef p (fun af =>
    if AF_IsOneByteStuffing af then
      wdo (WriteByte 0);;;
      wret (1, None)
    else
      length <- wcalc (calcPacketAdaptationFieldLength af);;
      wdo (WriteByte length);;;
      wdo (WriteBit (AF_DiscontinuityIndicator af));;;
      wdo (WriteBit (AF_RandomAccessIndicator af));;;
      wdo (WriteBit (AF_ElementaryStreamPriorityIndicator af));;;
      wdo (WriteBit (AF_HasPCR af));;;
      wdo (WriteBit (AF_HasOPCR af));;;
      wdo (WriteBit (AF_HasSplicingCountdown af));;;
      wdo (WriteBit (AF_HasTransportPrivateData af));;;
      wdo (WriteBit (AF_HasAdaptationExtensionField af));;;
      r1 <- (if AF_HasPCR af then writePCR (AF_PCR af) else wret (0, None));;
      match snd r1 with
      | Some e => wret (0, Some e)
      | None =>
          r2 <- (if AF_HasOPCR af then writePCR (AF_OPCR af) else wret (0, None));;
          match snd r2 with
          | Some e => wret (0, Some e)
          | None => writePacketAdaptationFieldTail af (2 + fst r1 + fst r2)
          end
      end).

Definition writePacket (p : Packet) (targetPacketSize : Z) : Wr Sink (Z * option error) :=
  wdo (WriteByte syncByte);;;
  r <- writePacketHeader (P_Header p);;
  match snd r with
  | Some e => wret (1, Some e)
  | None =>
      let written := 1 + fst r in
      r <- (if PH_HasAdaptationField (P_Header p)
            then writePacketAdaptationField (P_AdaptationField p)
            else wret (0, None));;
      match snd r with
      | Some e => wret (written, Some e)
      | None =>
          let written := written + fst r in
          if targetPacketSize - written <? len (P_Payload p) then
            wret (0, Some (ErrPayloadTooBig (len (P_Payload p)) (targetPacketSize - written)))
          else
            (if PH_HasPayload (P_Header p)
             then wdo (WriteSlice (P_Payload p))
             else wret tt);;;
            let written :=
              if PH_HasPayload (P_Header p) then written + len (P_Payload p) else written in
            wtimes (Z.to_nat (targetPacketSize - written)) (wdo (WriteByte 255));;;
            e <- werr;;
            wret (Z.max written targetPacketSize, e)
      end
  end.

Definition newStuffingAdaptationField (bytesToStuff : Z) : PacketAdaptationField :=
  if bytesToStuff =? 1 then
    mkPacketAdaptationField None None None [] 0 0 0 0
      true false false false false false false false false
  else
    set_AF_StuffingLength (bytesToStuff - 2) zeroAdaptationField.

End PacketWriter.

(** ** DVB durations and times used by the local time offset descriptor *)

(** Modelled from the spec: the DVB time and duration codecs
    ([parseDVBDurationMinutes], [parseDVBTime], [writeDVBDurationMinutes],
    [writeDVBTime]) are declared outside the files at hand.  A duration is
    two BCD bytes HH MM, kept here as a number of minutes; a time is two
    bytes of modified Julian date and three BCD bytes HH MM SS, kept here
    as those four numbers. *)
Record DVBTime := mkDVBTime { T_MJD : Z; T_Hour : Z; T_Minute : Z; T_Second : Z }.

Definition fromBCD (b : byte) : Z := Z.shiftr b 4 * 10 + Z.land b 15.
Definition toBCD (v : Z) : byte := u8 (Z.lor (Z.shiftl (v / 10) 4) (v mod 10)).

Definition parseDVBDurationMinutes : M Z :=
  (b <- NextBytesNoCopy 2 orwrap "astits: fetching next bytes failed";;
   ret (fromBCD (idx b 0) * 60 + fromBCD (idx b 1)))%iter.

Definition parseDVBTime : M DVBTime :=
  (b <- NextBytesNoCopy 5 orwrap "astits: fetching next bytes failed";;
   ret (mkDVBTime (Z.lor (Z.shiftl (idx b 0) 8) (idx b 1))
          (fromBCD (idx b 2)) (fromBCD (idx b 3)) (fromBCD (idx b 4))))%iter.

(** ** Descriptors (descriptor.go): data *)

Definition AudioTypeCleanEffects : Z := 1.
Definition AudioTypeHearingImpaired : Z := 2.
Definition AudioTypeVisualImpairedCommentary : Z := 3.

Definition DescriptorTagAC3 : Z := 106.
Definition DescriptorTagAVCVideo : Z := 40.
Definition DescriptorTagComponent : Z := 80.
Definition DescriptorTagContent : Z := 84.
Definition DescriptorTagDataStreamAlignment : Z := 6.
Definition DescriptorTagEnhancedAC3 : Z := 122.
Definition DescriptorTagExtendedEvent : Z := 78.
Definition DescriptorTagExtension : Z := 127.
Definition DescriptorTagISO639LanguageAndAudioType : Z := 10.
Definition DescriptorTagLocalTimeOffset : Z := 88.
Definition DescriptorTagMaximumBitrate : Z := 14.
Definition DescriptorTagNetworkName : Z := 64.
Definition DescriptorTagParentalRating : Z := 85.
Definition DescriptorTagPrivateDataIndicator : Z := 15.
Definition DescriptorTagPrivateDataSpecifier : Z := 95.
Definition DescriptorTagRegistration : Z := 5.
Definition DescriptorTagService : Z := 72.
Definition DescriptorTagShortEvent : Z := 77.
Definition DescriptorTagStreamIdentifier : Z := 82.
Definition DescriptorTagSubtitling : Z := 89.
Definition DescriptorTagTeletext : Z := 86.
Definition DescriptorTagVBIData : Z := 69.
Definition DescriptorTagVBITeletext : Z := 70.

Definition DescriptorTagExtensionSupplementaryAudio : Z := 6.

Definition VBIDataServiceIDClosedCaptioning : Z := 6.
Definition VBIDataServiceIDEBUTeletext : Z := 1.
Definition VBIDataServiceIDInvertedTeletext : Z := 2.
Definition VBIDataServiceIDMonochrome442Samples : Z := 7.
Definition VBIDataServiceIDVPS : Z := 4.
Definition VBIDataServiceIDWSS : Z := 5.

Record DescriptorAC3 := mkDescriptorAC3 {
  AC3_AdditionalInfo : bytes;
  AC3_ASVC : Z;
  AC3_BSID : Z;
  AC3_ComponentType : Z;
  AC3_HasASVC : bool;
  AC3_HasBSID : bool;
  AC3_HasComponentType : bool;
  AC3_HasMainID : bool;
  AC3_MainID : Z
}.

Record DescriptorAVCVideo := mkDescriptorAVCVideo {
  AVC_AVC24HourPictureFlag : bool;
  AVC_AVCStillPresent : bool;
  AVC_CompatibleFlags : Z;
  AVC_ConstraintSet0Flag : bool;
  AVC_ConstraintSet1Flag : bool;
  AVC_ConstraintSet2Flag : bool;
  AVC_LevelIDC : Z;
  AVC_ProfileIDC : Z
}.

Record DescriptorComponent := mkDescriptorComponent {
  Comp_ComponentTag : Z;
  Comp_ComponentType : Z;
  Comp_ISO639LanguageCode : slice;
  Comp_StreamContent : Z;
  Comp_StreamContentExt : Z;
  Comp_Text : bytes
}.

Record DescriptorContentItem := mkDescriptorContentItem {
  CI_ContentNibbleLevel1 : Z;
  CI_ContentNibbleLevel2 : Z;
  CI_UserByte : Z
}.

Record DescriptorContent := mkDescriptorContent {
  Content_Items : list DescriptorContentItem
}.

Record DescriptorDataStreamAlignment := mkDescriptorDataStreamAlignment {
  DSA_Type : Z
}.

Record DescriptorEnhancedAC3 := mkDescriptorEnhancedAC3 {
  EAC3_AdditionalInfo : bytes;
  EAC3_ASVC : Z;
  EAC3_BSID : Z;
  EAC3_ComponentType : Z;
  EAC3_HasASVC : bool;
  EAC3_HasBSID : bool;
  EAC3_HasComponentType : bool;
  EAC3_HasMainID : bool;
  EAC3_HasSubStream1 : bool;
  EAC3_HasSubStream2 : bool;
  EAC3_HasSubStream3 : bool;
  EAC3_MainID : Z;
  EAC3_MixInfoExists : bool;
  EAC3_SubStream1 : Z;
  EAC3_SubStream2 : Z;
  EAC3_SubStream3 : Z
}.

Record DescriptorExtendedEventItem := mkDescriptorExtendedEventItem {
  EEI_Content : bytes;
  EEI_Description : bytes
}.

Record DescriptorExtendedEvent := mkDescriptorExtendedEvent {
  EE_ISO639LanguageCode : slice;
  EE_Items : list DescriptorExtendedEventItem;
  EE_LastDescriptorNumber : Z;
  EE_Number : Z;
  EE_Text : bytes
}.

Record DescriptorExtensionSupplementaryAudio := mkDescriptorExtensionSupplementaryAudio {
  SA_EditorialClassification : Z;
  SA_HasLanguageCode : bool;
  SA_LanguageCode : slice;
  SA_MixType : bool;
  SA_PrivateData : bytes
}.

Record DescriptorExtension := mkDescriptorExtension {
  Ext_SupplementaryAudio : option DescriptorExtensionSupplementaryAudio;
  Ext_Tag : Z;
  Ext_Unknown : option bytes
}.

Record DescriptorISO639LanguageAndAudioType := mkDescriptorISO639LanguageAndAudioType {
  ISO639_Language : slice;
  ISO639_Type : Z
}.

Record DescriptorLocalTimeOffsetItem := mkDescriptorLocalTimeOffsetItem {
  LTOI_CountryCode : slice;
  LTOI_CountryRegionID : Z;
  LTOI_LocalTimeOffset : Z;
  LTOI_LocalTimeOffsetPolarity : bool;
  LTOI_NextTimeOffset : Z;
  LTOI_TimeOfChange : DVBTime
}.

Record DescriptorLocalTimeOffset := mkDescriptorLocalTimeOffset {
  LTO_Items : list DescriptorLocalTimeOffsetItem
}.

Record DescriptorMaximumBitrate := mkDescriptorMaximumBitrate {
  MB_Bitrate : Z
}.

Record DescriptorNetworkName := mkDescriptorNetworkName {
  NN_Name : bytes
}.

Record DescriptorParentalRatingItem := mkDescriptorParentalRatingItem {
  PRI_CountryCode : slice;
  PRI_Rating : Z
}.

Record DescriptorParentalRating := mkDescriptorParentalRating {
  PR_Items : list DescriptorParentalRatingItem
}.

Record DescriptorPrivateDataIndicator := mkDescriptorPrivateDataIndicator {
  PDI_Indicator : Z
}.

Record DescriptorPrivateDataSpecifier := mkDescriptorPrivateDataSpecifier {
  PDS_Specifier : Z
}.

Record DescriptorRegistration := mkDescriptorRegistration {
  Reg_AdditionalIdentificationInfo : bytes;
  Reg_FormatIdentifier : Z
}.

Record DescriptorService := mkDescriptorService {
  Svc_Name : bytes;
  Svc_Provider : bytes;
  Svc_Type : Z
}.

Record DescriptorShortEvent := mkDescriptorShortEvent {
  SE_EventName : bytes;
  SE_Language : slice;
  SE_Text : bytes
}.

Record DescriptorStreamIdentifier := mkDescriptorStreamIdentifier {
  SI_ComponentTag : Z
}.

Record DescriptorSubtitlingItem := mkDescriptorSubtitlingItem {
  SubI_AncillaryPageID : Z;
  SubI_CompositionPageID : Z;
  SubI_Language : slice;
  SubI_Type : Z
}.

Record DescriptorSubtitling := mkDescriptorSubtitling {
  Sub_Items : list DescriptorSubtitlingItem
}.

Record DescriptorTeletextItem := mkDescriptorTeletextItem {
  TI_Language : slice;
  TI_Magazine : Z;
  TI_Page : Z;
  TI_Type : Z
}.

Record DescriptorTeletext := mkDescriptorTeletext {
  TT_Items : list DescriptorTeletextItem
}.

Record DescriptorUnknown := mkDescriptorUnknown {
  Unk_Content : bytes;
  Unk_Tag : Z
}.

Record DescriptorVBIDataDescriptor := mkDescriptorVBIDataDescriptor {
  VBID_FieldParity : bool;
  VBID_LineOffset : Z
}.

Record DescriptorVBIDataService := mkDescriptorVBIDataService {
  VBIS_DataServiceID : Z;
  VBIS_Descriptors : list DescriptorVBIDataDescriptor
}.

Record DescriptorVBIData := mkDescriptorVBIData {
  VBI_Services : list DescriptorVBIDataService
}.

Record Descriptor := mkDescriptor {
  D_AC3 : option DescriptorAC3;
  D_AVCVideo : option DescriptorAVCVideo;
  D_Component : option DescriptorComponent;
  D_Content : option DescriptorContent;
  D_DataStreamAlignment : option DescriptorDataStreamAlignment;
  D_EnhancedAC3 : option DescriptorEnhancedAC3;
  D_ExtendedEvent : option DescriptorExtendedEvent;
  D_Extension : option DescriptorExtension;
  D_ISO639LanguageAndAudioType : option DescriptorISO639LanguageAndAudioType;
  D_Length : Z;
  D_LocalTimeOffset : option DescriptorLocalTimeOffset;
  D_MaximumBitrate : option DescriptorMaximumBitrate;
  D_NetworkName : option DescriptorNetworkName;
  D_ParentalRating : option DescriptorParentalRating;
  D_PrivateDataIndicator : option DescriptorPrivateDataIndicator;
  D_PrivateDataSpecifier : option DescriptorPrivateDataSpecifier;
  D_Registration : option DescriptorRegistration;
  D_Service : option DescriptorService;
  D_ShortEvent : option DescriptorShortEvent;
  D_StreamIdentifier : option DescriptorStreamIdentifier;
  D_Subtitling : option DescriptorSubtitling;
  D_Tag : Z;
  D_Teletext : option DescriptorTeletext;
  D_Unknown : option DescriptorUnknown;
  D_UserDefined : bytes;
  D_VBIData : option DescriptorVBIData;
  D_VBITeletext : option DescriptorTeletext
}.

(** [&Descriptor{Length: length, Tag: tag}] *)
Definition newDescriptor (tag length : Z) : Descriptor :=
  mkDescriptor None None None None None None None None None length
    None None None None None None None None None None None tag
    None None [] None None.

(** The assignments [d.X = x] of [parseDescriptors]. *)
Definition set_D_AC3 (x : DescriptorAC3) (d : Descriptor) : Descriptor :=
  mkDescriptor (Some x) (D_AVCVideo d) (D_Component d) (D_Content d)
    (D_DataStreamAlignment d) (D_EnhancedAC3 d) (D_ExtendedEvent d) (D_Extension d)
    (D_ISO639LanguageAndAudioType d) (D_Length d) (D_LocalTimeOffset d)
    (D_MaximumBitrate d) (D_NetworkName d) (D_ParentalRating d)
    (D_PrivateDataIndicator d) (D_PrivateDataSpecifier d) (D_Registration d)
    (D_Service d) (D_ShortEvent d) (D_StreamIdentifier d) (D_Subtitling d) (D_Tag d)
    (D_Teletext d) (D_Unknown d) (D_UserDefined d) (D_VBIData d) (D_VBITeletext d).

Definition set_D_AVCVideo (x : DescriptorAVCVideo) (d : Descriptor) : Descriptor :=
  mkDescriptor (D_AC3 d) (Some x) (D_Component d) (D_Content d)
    (D_DataStreamAlignment d) (D_EnhancedAC3 d) (D_ExtendedEvent d) (D_Extension d)
    (D_ISO639LanguageAndAudioType d) (D_Length d) (D_LocalTimeOffset d)
    (D_MaximumBitrate d) (D_NetworkName d) (D_ParentalRating d)
    (D_PrivateDataIndicator d) (D_PrivateDataSpecifier d) (D_Registration d)
    (D_Service d) (D_ShortEvent d) (D_StreamIdentifier d) (D_Subtitling d) (D_Tag d)
    (D_Teletext d) (D_Unknown d) (D_UserDefined d) (D_VBIData d) (D_VBITeletext d).

Definition set_D_Component (x : DescriptorComponent) (d : Descriptor) : Descriptor :=
  mkDescriptor (D_AC3 d) (D_AVCVideo d) (Some x) (D_Content d) (D_DataStreamAlignment d)
    (D_EnhancedAC3 d) (D_ExtendedEvent d) (D_Extension d)
    (D_ISO639LanguageAndAudioType d) (D_Length d) (D_LocalTimeOffset d)
    (D_MaximumBitrate d) (D_NetworkName d) (D_ParentalRating d)
    (D_PrivateDataIndicator d) (D_PrivateDataSpecifier d) (D_Registration d)
    (D_Service d) (D_ShortEvent d) (D_StreamIdentifier d) (D_Subtitling d) (D_Tag d)
    (D_Teletext d) (D_Unknown d) (D_UserDefined d) (D_VBIData d) (D_VBITeletext d).

Definition set_D_Content (x : DescriptorContent) (d : Descriptor) : Descriptor :=
  mkDescriptor (D_AC3 d) (D_AVCVideo d) (D_Component d) (Some x)
    (D_DataStreamAlignment d) (D_EnhancedAC3 d) (D_ExtendedEvent d) (D_Extension d)
    (D_ISO639LanguageAndAudioType d) (D_Length d) (D_LocalTimeOffset d)
    (D_MaximumBitrate d) (D_NetworkName d) (D_ParentalRating d)
    (D_PrivateDataIndicator d) (D_PrivateDataSpecifier d) (D_Registration d)
    (D_Service d) (D_ShortEvent d) (D_StreamIdentifier d) (D_Subtitling d) (D_Tag d)
    (D_Teletext d) (D_Unknown d) (D_UserDefined d) (D_VBIData d) (D_VBITeletext d).

Definition set_D_DataStreamAlignment (x : DescriptorDataStreamAlignment) (d : Descriptor) : Descriptor :=
  mkDescriptor (D_AC3 d) (D_AVCVideo d) (D_Component d) (D_Content d) (Some x)
    (D_EnhancedAC3 d) (D_ExtendedEvent d) (D_Extension d)
    (D_ISO639LanguageAndAudioType d) (D_Length d) (D_LocalTimeOffset d)
    (D_MaximumBitrate d) (D_NetworkName d) (D_ParentalRating d)
    (D_PrivateDataIndicator d) (D_PrivateDataSpecifier d) (D_Registration d)
    (D_Service d) (D_ShortEvent d) (D_StreamIdentifier d) (D_Subtitling d) (D_Tag d)
    (D_Teletext d) (D_Unknown d) (D_UserDefined d) (D_VBIData d) (D_VBITeletext d).

Definition set_D_EnhancedAC3 (x : DescriptorEnhancedAC3) (d : Descriptor) : Descriptor :=
  mkDescriptor (D_AC3 d) (D_AVCVideo d) (D_Component d) (D_Content d)
    (D_DataStreamAlignment d) (Some x) (D_ExtendedEvent d) (D_Extension d)
    (D_ISO639LanguageAndAudioType d) (D_Length d) (D_LocalTimeOffset d)
    (D_MaximumBitrate d) (D_NetworkName d) (D_ParentalRating d)
    (D_PrivateDataIndicator d) (D_PrivateDataSpecifier d) (D_Registration d)
    (D_Service d) (D_ShortEvent d) (D_StreamIdentifier d) (D_Subtitling d) (D_Tag d)
    (D_Teletext d) (D_Unknown d) (D_UserDefined d) (D_VBIData d) (D_VBITeletext d).

Definition set_D_ExtendedEvent (x : DescriptorExtendedEvent) (d : Descriptor) : Descriptor :=
  mkDescriptor (D_AC3 d) (D_AVCVideo d) (D_Component d) (D_Content d)
    (D_DataStreamAlignment d) (D_EnhancedAC3 d) (Some x) (D_Extension d)
    (D_ISO639LanguageAndAudioType d) (D_Length d) (D_LocalTimeOffset d)
    (D_MaximumBitrate d) (D_NetworkName d) (D_ParentalRating d)
    (D_PrivateDataIndicator d) (D_PrivateDataSpecifier d) (D_Registration d)
    (D_Service d) (D_ShortEvent d) (D_StreamIdentifier d) (D_Subtitling d) (D_Tag d)
    (D_Teletext d) (D_Unknown d) (D_UserDefined d) (D_VBIData d) (D_VBITeletext d).

Definition set_D_Extension (x : DescriptorExtension) (d : Descriptor) : Descriptor :=
  mkDescriptor (D_AC3 d) (D_AVCVideo d) (D_Component d) (D_Content d)
    (D_DataStreamAlignment d) (D_EnhancedAC3 d) (D_ExtendedEvent d) (Some x)
    (D_ISO639LanguageAndAudioType d) (D_Length d) (D_LocalTimeOffset d)
    (D_MaximumBitrate d) (D_NetworkName d) (D_ParentalRating d)
    (D_PrivateDataIndicator d) (D_PrivateDataSpecifier d) (D_Registration d)
    (D_Service d) (D_ShortEvent d) (D_StreamIdentifier d) (D_Subtitling d) (D_Tag d)
    (D_Teletext d) (D_Unknown d) (D_UserDefined d) (D_VBIData d) (D_VBITeletext d).

Definition set_D_ISO639LanguageAndAudioType (x : DescriptorISO639LanguageAndAudioType) (d : Descriptor) : Descriptor :=
  mkDescriptor (D_AC3 d) (D_AVCVideo d) (D_Component d) (D_Content d)
    (D_DataStreamAlignment d) (D_EnhancedAC3 d) (D_ExtendedEvent d) (D_Extension d)
    (Some x) (D_Length d) (D_LocalTimeOffset d) (D_MaximumBitrate d) (D_NetworkName d)
    (D_ParentalRating d) (D_PrivateDataIndicator d) (D_PrivateDataSpecifier d)
    (D_Registration d) (D_Service d) (D_ShortEvent d) (D_StreamIdentifier d)
    (D_Subtitling d) (D_Tag d) (D_Teletext d) (D_Unknown d) (D_UserDefined d)
    (D_VBIData d) (D_VBITeletext d).

Definition set_D_LocalTimeOffset (x : DescriptorLocalTimeOffset) (d : Descriptor) : Descriptor :=
  mkDescriptor (D_AC3 d) (D_AVCVideo d) (D_Component d) (D_Content d)
    (D_DataStreamAlignment d) (D_EnhancedAC3 d) (D_ExtendedEvent d) (D_Extension d)
    (D_ISO639LanguageAndAudioType d) (D_Length d) (Some x) (D_MaximumBitrate d)
    (D_NetworkName d) (D_ParentalRating d) (D_PrivateDataIndicator d)
    (D_PrivateDataSpecifier d) (D_Registration d) (D_Service d) (D_ShortEvent d)
    (D_StreamIdentifier d) (D_Subtitling d) (D_Tag d) (D_Teletext d) (D_Unknown d)
    (D_UserDefined d) (D_VBIData d) (D_VBITeletext d).

Definition set_D_MaximumBitrate (x : DescriptorMaximumBitrate) (d : Descriptor) : Descriptor :=
  mkDescriptor (D_AC3 d) (D_AVCVideo d) (D_Component d) (D_Content d)
    (D_DataStreamAlignment d) (D_EnhancedAC3 d) (D_ExtendedEvent d) (D_Extension d)
    (D_ISO639LanguageAndAudioType d) (D_Length d) (D_LocalTimeOffset d) (Some x)
    (D_NetworkName d) (D_ParentalRating d) (D_PrivateDataIndicator d)
    (D_PrivateDataSpecifier d) (D_Registration d) (D_Service d) (D_ShortEvent d)
    (D_StreamIdentifier d) (D_Subtitling d) (D_Tag d) (D_Teletext d) (D_Unknown d)
    (D_UserDefined d) (D_VBIData d) (D_VBITeletext d).

Definition set_D_NetworkName (x : DescriptorNetworkName) (d : Descriptor) : Descriptor :=
  mkDescriptor (D_AC3 d) (D_AVCVideo d) (D_Component d) (D_Content d)
    (D_DataStreamAlignment d) (D_EnhancedAC3 d) (D_ExtendedEvent d) (D_Extension d)
    (D_ISO639LanguageAndAudioType d) (D_Length d) (D_LocalTimeOffset d)
    (D_MaximumBitrate d) (Some x) (D_ParentalRating d) (D_PrivateDataIndicator d)
    (D_PrivateDataSpecifier d) (D_Registration d) (D_Service d) (D_ShortEvent d)
    (D_StreamIdentifier d) (D_Subtitling d) (D_Tag d) (D_Teletext d) (D_Unknown d)
    (D_UserDefined d) (D_VBIData d) (D_VBITeletext d).

Definition set_D_ParentalRating (x : DescriptorParentalRating) (d : Descriptor) : Descriptor :=
  mkDescriptor (D_AC3 d) (D_AVCVideo d) (D_Component d) (D_Content d)
    (D_DataStreamAlignment d) (D_EnhancedAC3 d) (D_ExtendedEvent d) (D_Extension d)
    (D_ISO639LanguageAndAudioType d) (D_Length d) (D_LocalTimeOffset d)
    (D_MaximumBitrate d) (D_NetworkName d) (Some x) (D_PrivateDataIndicator d)
    (D_PrivateDataSpecifier d) (D_Registration d) (D_Service d) (D_ShortEvent d)
    (D_StreamIdentifier d) (D_Subtitling d) (D_Tag d) (D_Teletext d) (D_Unknown d)
    (D_UserDefined d) (D_VBIData d) (D_VBITeletext d).

Definition set_D_PrivateDataIndicator (x : DescriptorPrivateDataIndicator) (d : Descriptor) : Descriptor :=
  mkDescriptor (D_AC3 d) (D_AVCVideo d) (D_Component d) (D_Content d)
    (D_DataStreamAlignment d) (D_EnhancedAC3 d) (D_ExtendedEvent d) (D_Extension d)
    (D_ISO639LanguageAndAudioType d) (D_Length d) (D_LocalTimeOffset d)
    (D_MaximumBitrate d) (D_NetworkName d) (D_ParentalRating d) (Some x)
    (D_PrivateDataSpecifier d) (D_Registration d) (D_Service d) (D_ShortEvent d)
    (D_StreamIdentifier d) (D_Subtitling d) (D_Tag d) (D_Teletext d) (D_Unknown d)
    (D_UserDefined d) (D_VBIData d) (D_VBITeletext d).

Definition set_D_PrivateDataSpecifier (x : DescriptorPrivateDataSpecifier) (d : Descriptor) : Descriptor :=
  mkDescriptor (D_AC3 d) (D_AVCVideo d) (D_Component d) (D_Content d)
    (D_DataStreamAlignment d) (D_EnhancedAC3 d) (D_ExtendedEvent d) (D_Extension d)
    (D_ISO639LanguageAndAudioType d) (D_Length d) (D_LocalTimeOffset d)
    (D_MaximumBitrate d) (D_NetworkName d) (D_ParentalRating d)
    (D_PrivateDataIndicator d) (Some x) (D_Registration d) (D_Service d)
    (D_ShortEvent d) (D_StreamIdentifier d) (D_Subtitling d) (D_Tag d) (D_Teletext d)
    (D_Unknown d) (D_UserDefined d) (D_VBIData d) (D_VBITeletext d).

Definition set_D_Registration (x : DescriptorRegistration) (d : Descriptor) : Descriptor :=
  mkDescriptor (D_AC3 d) (D_AVCVideo d) (D_Component d) (D_Content d)
    (D_DataStreamAlignment d) (D_EnhancedAC3 d) (D_ExtendedEvent d) (D_Extension d)
    (D_ISO639LanguageAndAudioType d) (D_Length d) (D_LocalTimeOffset d)
    (D_MaximumBitrate d) (D_NetworkName d) (D_ParentalRating d)
    (D_PrivateDataIndicator d) (D_PrivateDataSpecifier d) (Some x) (D_Service d)
    (D_ShortEvent d) (D_StreamIdentifier d) (D_Subtitling d) (D_Tag d) (D_Teletext d)
    (D_Unknown d) (D_UserDefined d) (D_VBIData d) (D_VBITeletext d).

Definition set_D_Service (x : DescriptorService) (d : Descriptor) : Descriptor :=
  mkDescriptor (D_AC3 d) (D_AVCVideo d) (D_Component d) (D_Content d)
    (D_DataStreamAlignment d) (D_EnhancedAC3 d) (D_ExtendedEvent d) (D_Extension d)
    (D_ISO639LanguageAndAudioType d) (D_Length d) (D_LocalTimeOffset d)
    (D_MaximumBitrate d) (D_NetworkName d) (D_ParentalRating d)
    (D_PrivateDataIndicator d) (D_PrivateDataSpecifier d) (D_Registration d) (Some x)
    (D_ShortEvent d) (D_StreamIdentifier d) (D_Subtitling d) (D_Tag d) (D_Teletext d)
    (D_Unknown d) (D_UserDefined d) (D_VBIData d) (D_VBITeletext d).

Definition set_D_ShortEvent (x : DescriptorShortEvent) (d : Descriptor) : Descriptor :=
  mkDescriptor (D_AC3 d) (D_AVCVideo d) (D_Component d) (D_Content d)
    (D_DataStreamAlignment d) (D_EnhancedAC3 d) (D_ExtendedEvent d) (D_Extension d)
    (D_ISO639LanguageAndAudioType d) (D_Length d) (D_LocalTimeOffset d)
    (D_MaximumBitrate d) (D_NetworkName d) (D_ParentalRating d)
    (D_PrivateDataIndicator d) (D_PrivateDataSpecifier d) (D_Registration d)
    (D_Service d) (Some x) (D_StreamIdentifier d) (D_Subtitling d) (D_Tag d)
    (D_Teletext d) (D_Unknown d) (D_UserDefined d) (D_VBIData d) (D_VBITeletext d).

Definition set_D_StreamIdentifier (x : DescriptorStreamIdentifier) (d : Descriptor) : Descriptor :=
  mkDescriptor (D_AC3 d) (D_AVCVideo d) (D_Component d) (D_Content d)
    (D_DataStreamAlignment d) (D_EnhancedAC3 d) (D_ExtendedEvent d) (D_Extension d)
    (D_ISO639LanguageAndAudioType d) (D_Length d) (D_LocalTimeOffset d)
    (D_MaximumBitrate d) (D_NetworkName d) (D_ParentalRating d)
    (D_PrivateDataIndicator d) (D_PrivateDataSpecifier d) (D_Registration d)
    (D_Service d) (D_ShortEvent d) (Some x) (D_Subtitling d) (D_Tag d) (D_Teletext d)
    (D_Unknown d) (D_UserDefined d) (D_VBIData d) (D_VBITeletext d).

Definition set_D_Subtitling (x : DescriptorSubtitling) (d : Descriptor) : Descriptor :=
  mkDescriptor (D_AC3 d) (D_AVCVideo d) (D_Component d) (D_Content d)
    (D_DataStreamAlignment d) (D_EnhancedAC3 d) (D_ExtendedEvent d) (D_Extension d)
    (D_ISO639LanguageAndAudioType d) (D_Length d) (D_LocalTimeOffset d)
    (D_MaximumBitrate d) (D_NetworkName d) (D_ParentalRating d)
    (D_PrivateDataIndicator d) (D_PrivateDataSpecifier d) (D_Registration d)
    (D_Service d) (D_ShortEvent d) (D_StreamIdentifier d) (Some x) (D_Tag d)
    (D_Teletext d) (D_Unknown d) (D_UserDefined d) (D_VBIData d) (D_VBITeletext d).

Definition set_D_Teletext (x : DescriptorTeletext) (d : Descriptor) : Descriptor :=
  mkDescriptor (D_AC3 d) (D_AVCVideo d) (D_Component d) (D_Content d)
    (D_DataStreamAlignment d) (D_EnhancedAC3 d) (D_ExtendedEvent d) (D_Extension d)
    (D_ISO639LanguageAndAudioType d) (D_Length d) (D_LocalTimeOffset d)
    (D_MaximumBitrate d) (D_NetworkName d) (D_ParentalRating d)
    (D_PrivateDataIndicator d) (D_PrivateDataSpecifier d) (D_Registration d)
    (D_Service d) (D_ShortEvent d) (D_StreamIdentifier d) (D_Subtitling d) (D_Tag d)
    (Some x) (D_Unknown d) (D_UserDefined d) (D_VBIData d) (D_VBITeletext d).

Definition set_D_Unknown (x : DescriptorUnknown) (d : Descriptor) : Descriptor :=
  mkDescriptor (D_AC3 d) (D_AVCVideo d) (D_Component d) (D_Content d)
    (D_DataStreamAlignment d) (D_EnhancedAC3 d) (D_ExtendedEvent d) (D_Extension d)
    (D_ISO639LanguageAndAudioType d) (D_Length d) (D_LocalTimeOffset d)
    (D_MaximumBitrate d) (D_NetworkName d) (D_ParentalRating d)
    (D_PrivateDataIndicator d) (D_PrivateDataSpecifier d) (D_Registration d)
    (D_Service d) (D_ShortEvent d) (D_StreamIdentifier d) (D_Subtitling d) (D_Tag d)
    (D_Teletext d) (Some x) (D_UserDefined d) (D_VBIData d) (D_VBITeletext d).

Definition set_D_UserDefined (x : bytes) (d : Descriptor) : Descriptor :=
  mkDescriptor (D_AC3 d) (D_AVCVideo d) (D_Component d) (D_Content d)
    (D_DataStreamAlignment d) (D_EnhancedAC3 d) (D_ExtendedEvent d) (D_Extension d)
    (D_ISO639LanguageAndAudioType d) (D_Length d) (D_LocalTimeOffset d)
    (D_MaximumBitrate d) (D_NetworkName d) (D_ParentalRating d)
    (D_PrivateDataIndicator d) (D_PrivateDataSpecifier d) (D_Registration d)
    (D_Service d) (D_ShortEvent d) (D_StreamIdentifier d) (D_Subtitling d) (D_Tag d)
    (D_Teletext d) (D_Unknown d) x (D_VBIData d) (D_VBITeletext d).

Definition set_D_VBIData (x : DescriptorVBIData) (d : Descriptor) : Descriptor :=
  mkDescriptor (D_AC3 d) (D_AVCVideo d) (D_Component d) (D_Content d)
    (D_DataStreamAlignment d) (D_EnhancedAC3 d) (D_ExtendedEvent d) (D_Extension d)
    (D_ISO639LanguageAndAudioType d) (D_Length d) (D_LocalTimeOffset d)
    (D_MaximumBitrate d) (D_NetworkName d) (D_ParentalRating d)
    (D_PrivateDataIndicator d) (D_PrivateDataSpecifier d) (D_Registration d)
    (D_Service d) (D_ShortEvent d) (D_StreamIdentifier d) (D_Subtitling d) (D_Tag d)
    (D_Teletext d) (D_Unknown d) (D_UserDefined d) (Some x) (D_VBITeletext d).

Definition set_D_VBITeletext (x : DescriptorTeletext) (d : Descriptor) : Descriptor :=
  mkDescriptor (D_AC3 d) (D_AVCVideo d) (D_Component d) (D_Content d)
    (D_DataStreamAlignment d) (D_EnhancedAC3 d) (D_ExtendedEvent d) (D_Extension d)
    (D_ISO639LanguageAndAudioType d) (D_Length d) (D_LocalTimeOffset d)
    (D_MaximumBitrate d) (D_NetworkName d) (D_ParentalRating d)
    (D_PrivateDataIndicator d) (D_PrivateDataSpecifier d) (D_Registration d)
    (D_Service d) (D_ShortEvent d) (D_StreamIdentifier d) (D_Subtitling d) (D_Tag d)
    (D_Teletext d) (D_Unknown d) (D_UserDefined d) (D_VBIData d) (Some x).

(** ** Descriptors: parsing *)

(** The three reads that every parser wraps with the same message. *)
Definition nextByte : M byte :=
  wrap "astits: fetching next byte failed" NextByte.
Definition nextBytes (n : Z) : M bytes :=
  wrap "astits: fetching next bytes failed" (NextBytes n).
Definition nextBytesNoCopy (n : Z) : M bytes :=
  wrap "astits: fetching next bytes failed" (NextBytesNoCopy n).

(** [i.NextBytes(offsetEnd - i.Offset())] *)
Definition nextBytesUntil (offsetEnd : Z) : M bytes :=
  (o <- GetOffset;; nextBytes (offsetEnd - o))%iter.

(** [if i.Offset() < offsetEnd { x, err = i.NextBytes(offsetEnd - i.Offset()) }] *)
Definition restUntil (offsetEnd : Z) : M bytes :=
  (o <- GetOffset;; if o <? offsetEnd then nextBytes (offsetEnd - o) else ret [])%iter.

Definition newDescriptorAC3 (offsetEnd : Z) : M DescriptorAC3 :=
  (b <- nextByte;;
   let hasASVC := bit_set b 16 in
   let hasBSID := bit_set b 64 in
   let hasComponentType := bit_set b 128 in
   let hasMainID := bit_set b 32 in
   componentType <- when hasComponentType 0 nextByte;;
   bsid <- when hasBSID 0 nextByte;;
   mainID <- when hasMainID 0 nextByte;;
   asvc <- when hasASVC 0 nextByte;;
   info <- restUntil offsetEnd;;
   ret (mkDescriptorAC3 info asvc bsid componentType
          hasASVC hasBSID hasComponentType hasMainID mainID))%iter.

Definition newDescriptorAVCVideo : M DescriptorAVCVideo :=
  (profileIDC <- nextByte;;
   b <- nextByte;;
   levelIDC <- nextByte;;
   c <- nextByte;;
   ret (mkDescriptorAVCVideo (bit_set c 64) (bit_set c 128) (Z.land b 31)
          (bit_set b 128) (bit_set b 64) (bit_set b 32) levelIDC profileIDC))%iter.

Definition newDescriptorComponent (offsetEnd : Z) : M DescriptorComponent :=
  (b <- nextByte;;
   componentType <- nextByte;;
   componentTag <- nextByte;;
   code <- nextBytes 3;;
   text <- restUntil offsetEnd;;
   ret (mkDescriptorComponent componentTag componentType (slice_of code)
          (Z.land b 15) (Z.shiftr b 4) text))%iter.

Definition newDescriptorContent (offsetEnd : Z) : M DescriptorContent :=
  (items <- for_offset offsetEnd
              (fun items =>
                 b <- nextBytesNoCopy 2;;
                 ret (items ++ [mkDescriptorContentItem
                                  (Z.shiftr (idx b 0) 4) (Z.land (idx b 0) 15) (idx b 1)]))
              [];;
   ret (mkDescriptorContent items))%iter.

Definition newDescriptorDataStreamAlignment : M DescriptorDataStreamAlignment :=
  (b <- nextByte;; ret (mkDescriptorDataStreamAlignment b))%iter.

Definition newDescriptorEnhancedAC3 (offsetEnd : Z) : M DescriptorEnhancedAC3 :=
  (b <- nextByte;;
   let hasASVC := bit_set b 16 in
   let hasBSID := bit_set b 64 in
   let hasComponentType := bit_set b 128 in
   let hasMainID := bit_set b 32 in
   let hasSubStream1 := bit_set b 4 in
   let hasSubStream2 := bit_set b 2 in
   let hasSubStream3 := bit_set b 1 in
   let mixInfoExists := bit_set b 8 in
   componentType <- when hasComponentType 0 nextByte;;
   bsid <- when hasBSID 0 nextByte;;
   mainID <- when hasMainID 0 nextByte;;
   asvc <- when hasASVC 0 nextByte;;
   subStream1 <- when hasSubStream1 0 nextByte;;
   subStream2 <- when hasSubStream2 0 nextByte;;
   subStream3 <- when hasSubStream3 0 nextByte;;
   info <- restUntil offsetEnd;;
   ret (mkDescriptorEnhancedAC3 info asvc bsid componentType
          hasASVC hasBSID hasComponentType hasMainID
          hasSubStream1 hasSubStream2 hasSubStream3 mainID mixInfoExists
          subStream1 subStream2 subStream3))%iter.

Definition newDescriptorExtendedEventItem : M DescriptorExtendedEventItem :=
  (descriptionLength <- nextByte;;
   description <- nextBytes descriptionLength;;
   contentLength <- nextByte;;
   content <- nextBytes contentLength;;
   ret (mkDescriptorExtendedEventItem content description))%iter.

Definition newDescriptorExtendedEvent : M DescriptorExtendedEvent :=
  (b <- nextByte;;
   code <- nextBytes 3;;
   itemsLength <- nextByte;;
   o <- GetOffset;;
   items <- for_offset (o + itemsLength)
              (fun items =>
                 item <- wrap "astits: creating extended event item failed"
                           newDescriptorExtendedEventItem;;
                 ret (items ++ [item]))
              [];;
   textLength <- nextByte;;
   text <- nextBytes textLength;;
   ret (mkDescriptorExtendedEvent (slice_of code) items (Z.land b 15) (Z.shiftr b 4) text))%iter.

Definition newDescriptorExtensionSupplementaryAudio (offsetEnd : Z)
  : M DescriptorExtensionSupplementaryAudio :=
  (b <- nextByte;;
   let hasLanguageCode := bit_set b 1 in
   code <- when hasLanguageCode [] (nextBytes 3);;
   privateData <- restUntil offsetEnd;;
   ret (mkDescriptorExtensionSupplementaryAudio
          (Z.land (Z.shiftr b 2) 31) hasLanguageCode (slice_of code)
          (bit_set b 128) privateData))%iter.

Definition newDescriptorExtension (offsetEnd : Z) : M DescriptorExtension :=
  (tag <- nextByte;;
   if tag =? DescriptorTagExtensionSupplementaryAudio then
     sa <- wrap "astits: parsing extension supplementary audio descriptor failed"
             (newDescriptorExtensionSupplementaryAudio offsetEnd);;
     ret (mkDescriptorExtension (Some sa) tag None)
   else
     b <- nextBytesUntil offsetEnd;;
     ret (mkDescriptorExtension None tag (Some b)))%iter.

(** In some actual cases, the length is 3 and the language is described in
    only 2 bytes.  The language [bs[0 : len(bs)-1]] shares the array of
    [bs], whose last element is the type. *)
Definition newDescriptorISO639LanguageAndAudioType (offsetEnd : Z)
  : M DescriptorISO639LanguageAndAudioType :=
  (b <- nextBytesUntil offsetEnd;;
   match b with
   | [] => fun i => (Panic IndexOutOfRange, i)
   | _ =>
       let n := (List.length b - 1)%nat in
       ret (mkDescriptorISO639LanguageAndAudioType
              (mkSlice (firstn n b) (skipn n b)) (idx b n))
   end)%iter.

Definition newDescriptorLocalTimeOffset (offsetEnd : Z) : M DescriptorLocalTimeOffset :=
  (items <- for_offset offsetEnd
              (fun items =>
                 code <- nextBytes 3;;
                 b <- nextByte;;
                 lto <- wrap "astits: parsing DVB durationminutes failed"
                          parseDVBDurationMinutes;;
                 toc <- wrap "astits: parsing DVB time failed" parseDVBTime;;
                 nto <- wrap "astits: parsing DVB duration minutes failed"
                          parseDVBDurationMinutes;;
                 ret (items ++ [mkDescriptorLocalTimeOffsetItem (slice_of code)
                                  (Z.shiftr b 2) lto (bit_set b 1) nto toc]))
              [];;
   ret (mkDescriptorLocalTimeOffset items))%iter.

Definition newDescriptorMaximumBitrate : M DescriptorMaximumBitrate :=
  (b <- nextBytesNoCopy 3;;
   ret (mkDescriptorMaximumBitrate
          (Z.lor (Z.shiftl (Z.land (idx b 0) 63) 16)
             (Z.lor (Z.shiftl (idx b 1) 8) (idx b 2)) * 50)))%iter.

Definition newDescriptorNetworkName (offsetEnd : Z) : M DescriptorNetworkName :=
  (name <- nextBytesUntil offsetEnd;; ret (mkDescriptorNetworkName name))%iter.

Definition MinimumAge (d : DescriptorParentalRatingItem) : Z :=
  if (PRI_Rating d =? 0) || (PRI_Rating d >? 16) then 0 else PRI_Rating d + 3.

(** The country code [bs[:3]] shares the array of the four bytes read. *)
Definition newDescriptorParentalRating (offsetEnd : Z) : M DescriptorParentalRating :=
  (items <- for_offset offsetEnd
              (fun items =>
                 b <- nextBytes 4;;
                 ret (items ++ [mkDescriptorParentalRatingItem
                                  (mkSlice (firstn 3 b) (skipn 3 b)) (idx b 3)]))
              [];;
   ret (mkDescriptorParentalRating items))%iter.

Definition be32 (b : bytes) : Z :=
  Z.lor (Z.shiftl (idx b 0) 24)
    (Z.lor (Z.shiftl (idx b 1) 16) (Z.lor (Z.shiftl (idx b 2) 8) (idx b 3))).

Definition be16 (b : bytes) : Z := Z.lor (Z.shiftl (idx b 0) 8) (idx b 1).

Definition newDescriptorPrivateDataIndicator : M DescriptorPrivateDataIndicator :=
  (b <- nextBytesNoCopy 4;; ret (mkDescriptorPrivateDataIndicator (be32 b)))%iter.

Definition newDescriptorPrivateDataSpecifier : M DescriptorPrivateDataSpecifier :=
  (b <- nextBytesNoCopy 4;; ret (mkDescriptorPrivateDataSpecifier (be32 b)))%iter.

Definition newDescriptorRegistration (offsetEnd : Z) : M DescriptorRegistration :=
  (b <- nextBytesNoCopy 4;;
   info <- restUntil offsetEnd;;
   ret (mkDescriptorRegistration info (be32 b)))%iter.

Definition newDescriptorService : M DescriptorService :=
  (type <- nextByte;;
   providerLength <- nextByte;;
   provider <- nextBytes providerLength;;
   nameLength <- nextByte;;
   name <- nextBytes nameLength;;
   ret (mkDescriptorService name provider type))%iter.

Definition newDescriptorShortEvent : M DescriptorShortEvent :=
  (language <- nextBytes 3;;
   eventLength <- nextByte;;
   eventName <- nextBytes eventLength;;
   textLength <- nextByte;;
   text <- nextBytes textLength;;
   ret (mkDescriptorShortEvent eventName (slice_of language) text))%iter.

Definition newDescriptorStreamIdentifier : M DescriptorStreamIdentifier :=
  (b <- nextByte;; ret (mkDescriptorStreamIdentifier b))%iter.

Definition newDescriptorSubtitling (offsetEnd : Z) : M DescriptorSubtitling :=
  (items <- for_offset offsetEnd
              (fun items =>
                 language <- nextBytes 3;;
                 type <- nextByte;;
                 c <- nextBytesNoCopy 2;;
                 a <- nextBytesNoCopy 2;;
                 ret (items ++ [mkDescriptorSubtitlingItem (be16 a) (be16 c)
                                  (slice_of language) type]))
              [];;
   ret (mkDescriptorSubtitling items))%iter.

Definition newDescriptorTeletext (offsetEnd : Z) : M DescriptorTeletext :=
  (items <- for_offset offsetEnd
              (fun items =>
                 language <- nextBytes 3;;
                 b <- nextByte;;
                 p <- nextByte;;
                 ret (items ++ [mkDescriptorTeletextItem (slice_of language)
                                  (Z.land b 7)
                                  (u8 (u8 (Z.shiftr p 4 * 10) + Z.land p 15))
                                  (Z.shiftr b 3)]))
              [];;
   ret (mkDescriptorTeletext items))%iter.

Definition newDescriptorUnknown (tag length : Z) : M DescriptorUnknown :=
  (content <- nextBytes length;; ret (mkDescriptorUnknown content tag))%iter.

Definition knownVBIDataServiceID (id : Z) : bool :=
  (id =? VBIDataServiceIDClosedCaptioning)
  || (id =? VBIDataServiceIDEBUTeletext)
  || (id =? VBIDataServiceIDInvertedTeletext)
  || (id =? VBIDataServiceIDMonochrome442Samples)
  || (id =? VBIDataServiceIDVPS)
  || (id =? VBIDataServiceIDWSS).

Definition newDescriptorVBIData (offsetEnd : Z) : M DescriptorVBIData :=
  (services <- for_offset offsetEnd
                 (fun services =>
                    id <- nextByte;;
                    dataServiceDescriptorLength <- nextByte;;
                    o <- GetOffset;;
                    descriptors <- for_offset (o + dataServiceDescriptorLength)
                                     (fun descriptors =>
                                        b <- nextByte;;
                                        if knownVBIDataServiceID id then
                                          ret (descriptors
                                               ++ [mkDescriptorVBIDataDescriptor
                                                     (bit_set b 32) (Z.land b 31)])
                                        else ret descriptors)
                                     [];;
                    ret (services ++ [mkDescriptorVBIDataService id descriptors]))
                 [];;
   ret (mkDescriptorVBIData services))%iter.

(** The switch on the tag of [parseDescriptors], for a tag outside the
    user defined range. *)
Definition parseDescriptorSwitch (d : Descriptor) (offsetDescriptorEnd : Z) : M Descriptor :=
  let tag := D_Tag d in
  (if tag =? DescriptorTagAC3 then
     x <- wrap "astits: parsing AC3 descriptor failed"
            (newDescriptorAC3 offsetDescriptorEnd);;
     ret (set_D_AC3 x d)
   else if tag =? DescriptorTagAVCVideo then
     x <- wrap "astits: parsing AVC Video descriptor failed" newDescriptorAVCVideo;;
     ret (set_D_AVCVideo x d)
   else if tag =? DescriptorTagComponent then
     x <- wrap "astits: parsing Component descriptor failed"
            (newDescriptorComponent offsetDescriptorEnd);;
     ret (set_D_Component x d)
   else if tag =? DescriptorTagContent then
     x <- wrap "astits: parsing Content descriptor failed"
            (newDescriptorContent offsetDescriptorEnd);;
     ret (set_D_Content x d)
   else if tag =? DescriptorTagDataStreamAlignment then
     x <- wrap "astits: parsing Data Stream Alignment descriptor failed"
            newDescriptorDataStreamAlignment;;
     ret (set_D_DataStreamAlignment x d)
   else if tag =? DescriptorTagEnhancedAC3 then
     x <- wrap "astits: parsing Enhanced AC3 descriptor failed"
            (newDescriptorEnhancedAC3 offsetDescriptorEnd);;
     ret (set_D_EnhancedAC3 x d)
   else if tag =? DescriptorTagExtendedEvent then
     x <- wrap "astits: parsing Extended event descriptor failed"
            newDescriptorExtendedEvent;;
     ret (set_D_ExtendedEvent x d)
   else if tag =? DescriptorTagExtension then
     x <- wrap "astits: parsing Extension descriptor failed"
            (newDescriptorExtension offsetDescriptorEnd);;
     ret (set_D_Extension x d)
   else if tag =? DescriptorTagISO639LanguageAndAudioType then
     x <- wrap "astits: parsing ISO639 Language and Audio Type descriptor failed"
            (newDescriptorISO639LanguageAndAudioType offsetDescriptorEnd);;
     ret (set_D_ISO639LanguageAndAudioType x d)
   else if tag =? DescriptorTagLocalTimeOffset then
     x <- wrap "astits: parsing Local Time Offset descriptor failed"
            (newDescriptorLocalTimeOffset offsetDescriptorEnd);;
     ret (set_D_LocalTimeOffset x d)
   else if tag =? DescriptorTagMaximumBitrate then
     x <- wrap "astits: parsing Maximum Bitrate descriptor failed"
            newDescriptorMaximumBitrate;;
     ret (set_D_MaximumBitrate x d)
   else if tag =? DescriptorTagNetworkName then
     x <- wrap "astits: parsing Network Name descriptor failed"
            (newDescriptorNetworkName offsetDescriptorEnd);;
     ret (set_D_NetworkName x d)
   else if tag =? DescriptorTagParentalRating then
     x <- wrap "astits: parsing Parental Rating descriptor failed"
            (newDescriptorParentalRating offsetDescriptorEnd);;
     ret (set_D_ParentalRating x d)
   else if tag =? DescriptorTagPrivateDataIndicator then
     x <- wrap "astits: parsing Private Data Indicator descriptor failed"
            newDescriptorPrivateDataIndicator;;
     ret (set_D_PrivateDataIndicator x d)
   else if tag =? DescriptorTagPrivateDataSpecifier then
     x <- wrap "astits: parsing Private Data Specifier descriptor failed"
            newDescriptorPrivateDataSpecifier;;
     ret (set_D_PrivateDataSpecifier x d)
   else if tag =? DescriptorTagRegistration then
     x <- wrap "astits: parsing Registration descriptor failed"
            (newDescriptorRegistration offsetDescriptorEnd);;
     ret (set_D_Registration x d)
   else if tag =? DescriptorTagService then
     x <- wrap "astits: parsing Service descriptor failed" newDescriptorService;;
     ret (set_D_Service x d)
   else if tag =? DescriptorTagShortEvent then
     x <- wrap "astits: parsing Short Event descriptor failed" newDescriptorShortEvent;;
     ret (set_D_ShortEvent x d)
   else if tag =? DescriptorTagStreamIdentifier then
     x <- wrap "astits: parsing Stream Identifier descriptor failed"
            newDescriptorStreamIdentifier;;
     ret (set_D_StreamIdentifier x d)
   else if tag =? DescriptorTagSubtitling then
     x <- wrap "astits: parsing Subtitling descriptor failed"
            (newDescriptorSubtitling offsetDescriptorEnd);;
     ret (set_D_Subtitling x d)
   else if tag =? DescriptorTagTeletext then
     x <- wrap "astits: parsing Teletext descriptor failed"
            (newDescriptorTeletext offsetDescriptorEnd);;
     ret (set_D_Teletext x d)
   else if tag =? DescriptorTagVBIData then
     x <- wrap "astits: parsing VBI Date descriptor failed"
            (newDescriptorVBIData offsetDescriptorEnd);;
     ret (set_D_VBIData x d)
   else if tag =? DescriptorTagVBITeletext then
     x <- wrap "astits: parsing VBI Teletext descriptor failed"
            (newDescriptorTeletext offsetDescriptorEnd);;
     ret (set_D_VBITeletext x d)
   else
     x <- wrap "astits: parsing unknown descriptor failed"
            (newDescriptorUnknown (D_Tag d) (D_Length d));;
     ret (set_D_Unknown x d))%iter.

Definition isUserDefinedTag (tag : Z) : bool := (tag >=? 128) && (tag <=? 254).

(** What [parseDescriptors] does with the payload of an entry of
    non-zero length, up to the final seek. *)
Definition parseDescriptorData (d : Descriptor) (offsetDescriptorEnd : Z) : M Descriptor :=
  (if isUserDefinedTag (D_Tag d) then
     x <- nextBytes (D_Length d);;
     ret (set_D_UserDefined x d)
   else parseDescriptorSwitch d offsetDescriptorEnd)%iter.

(** One turn of the loop of [parseDescriptors]; the descriptor is
    appended to the list by the caller. *)
Definition parseDescriptor : M Descriptor :=
  (b <- nextBytesNoCopy 2;;
   let d := newDescriptor (idx b 0) (idx b 1) in
   if D_Length d >? 0 then
     o <- GetOffset;;
     let offsetDescriptorEnd := o + D_Length d in
     d' <- parseDescriptorData d offsetDescriptorEnd;;
     Seek offsetDescriptorEnd;;;
     ret d'
   else ret d)%iter.

(** [o = append(o, d)] at the end of a turn. *)
Definition parseDescriptorsTurn (os : list Descriptor) : M (list Descriptor) :=
  (d <- parseDescriptor;; ret (os ++ [d]))%iter.

Definition parseDescriptors : M (list Descriptor) :=
  (b <- nextBytesNoCopy 2;;
   let length := Z.lor (Z.shiftl (Z.land (idx b 0) 15) 8) (idx b 1) in
   if length >? 0 then
     o <- GetOffset;;
     for_offset (o + length) parseDescriptorsTurn []
   else ret [])%iter.

(** ** Descriptors: lengths *)

(** A function that dereferences a pointer handed to it and computes. *)
Definition oderef {A B} (p : option A) (k : A -> B) : outcome B :=
  match p with
  | Some a => Done (k a)
  | None => Abort NilDereference
  end.

Definition b2z (b : bool) : Z := if b then 1 else 0.

Definition calcDescriptorUserDefinedLength (d : bytes) : Z := u8 (len d).

Definition calcDescriptorAC3Length (d : option DescriptorAC3) : outcome Z :=
  oderef d (fun d =>
    u8 (1 + b2z (AC3_HasComponentType d) + b2z (AC3_HasBSID d) + b2z (AC3_HasMainID d)
          + b2z (AC3_HasASVC d) + len (AC3_AdditionalInfo d))).

Definition calcDescriptorAVCVideoLength (d : option DescriptorAVCVideo) : outcome Z :=
  Done 4.

Definition calcDescriptorComponentLength (d : option DescriptorComponent) : outcome Z :=
  oderef d (fun d => u8 (6 + len (Comp_Text d))).

Definition calcDescriptorContentLength (d : option DescriptorContent) : outcome Z :=
  oderef d (fun d => u8 (2 * len (Content_Items d))).

Definition calcDescriptorDataStreamAlignmentLength
  (d : option DescriptorDataStreamAlignment) : outcome Z :=
  Done 1.

Definition calcDescriptorEnhancedAC3Length (d : option DescriptorEnhancedAC3) : outcome Z :=
  oderef d (fun d =>
    u8 (1 + b2z (EAC3_HasComponentType d) + b2z (EAC3_HasBSID d) + b2z (EAC3_HasMainID d)
          + b2z (EAC3_HasASVC d) + b2z (EAC3_HasSubStream1 d) + b2z (EAC3_HasSubStream2 d)
          + b2z (EAC3_HasSubStream3 d) + len (EAC3_AdditionalInfo d))).

Definition extendedEventItemsLength (items : list DescriptorExtendedEventItem) : Z :=
  fold_left
    (fun acc item => acc + 1 + len (EEI_Description item) + 1 + len (EEI_Content item))
    items 0.

(** Returns [(descriptorLength, lengthOfItems)]. *)
Definition calcDescriptorExtendedEventLength (d : option DescriptorExtendedEvent)
  : outcome (Z * Z) :=
  oderef d (fun d =>
    let itemsRet := extendedEventItemsLength (EE_Items d) in
    (u8 (1 + 3 + 1 + itemsRet + 1 + len (EE_Text d)), u8 itemsRet)).

Definition calcDescriptorExtensionSupplementaryAudioLength
  (d : option DescriptorExtensionSupplementaryAudio) : outcome Z :=
  oderef d (fun d =>
    1 + (if SA_HasLanguageCode d then 3 else 0) + len (SA_PrivateData d)).

Definition calcDescriptorExtensionLength (d : option DescriptorExtension) : outcome Z :=
  match d with
  | None => Abort NilDereference
  | Some d =>
      if Ext_Tag d =? DescriptorTagExtensionSupplementaryAudio then
        match calcDescriptorExtensionSupplementaryAudioLength (Ext_SupplementaryAudio d) with
        | Done l => Done (u8 (1 + l))
        | Abort p => Abort p
        end
      else
        match Ext_Unknown d with
        | Some u => Done (u8 (1 + len u))
        | None => Done 1
        end
  end.

Definition calcDescriptorISO639LanguageAndAudioTypeLength
  (d : option DescriptorISO639LanguageAndAudioType) : outcome Z :=
  Done (3 + 1).

Definition calcDescriptorLocalTimeOffsetLength (d : option DescriptorLocalTimeOffset)
  : outcome Z :=
  oderef d (fun d => u8 (13 * len (LTO_Items d))).

Definition calcDescriptorMaximumBitrateLength (d : option DescriptorMaximumBitrate)
  : outcome Z :=
  Done 3.

Definition calcDescriptorNetworkNameLength (d : option DescriptorNetworkName) : outcome Z :=
  oderef d (fun d => u8 (len (NN_Name d))).

Definition calcDescriptorParentalRatingLength (d : option DescriptorParentalRating)
  : outcome Z :=
  oderef d (fun d => u8 (4 * len (PR_Items d))).

Definition calcDescriptorPrivateDataIndicatorLength
  (d : option DescriptorPrivateDataIndicator) : outcome Z :=
  Done 4.

Definition calcDescriptorPrivateDataSpecifierLength
  (d : option DescriptorPrivateDataSpecifier) : outcome Z :=
  Done 4.

Definition calcDescriptorRegistrationLength (d : option DescriptorRegistration) : outcome Z :=
  oderef d (fun d => u8 (4 + len (Reg_AdditionalIdentificationInfo d))).

Definition calcDescriptorServiceLength (d : option DescriptorService) : outcome Z :=
  oderef d (fun d => u8 (3 + len (Svc_Name d) + len (Svc_Provider d))).

Definition calcDescriptorShortEventLength (d : option DescriptorShortEvent) : outcome Z :=
  oderef d (fun d => u8 (3 + 1 + 1 + len (SE_EventName d) + len (SE_Text d))).

Definition calcDescriptorStreamIdentifierLength (d : option DescriptorStreamIdentifier)
  : outcome Z :=
  Done 1.

Definition calcDescriptorSubtitlingLength (d : option DescriptorSubtitling) : outcome Z :=
  oderef d (fun d => u8 (8 * len (Sub_Items d))).

Definition calcDescriptorTeletextLength (d : option DescriptorTeletext) : outcome Z :=
  oderef d (fun d => u8 (5 * len (TT_Items d))).

Definition calcDescriptorVBIDataLength (d : option DescriptorVBIData) : outcome Z :=
  oderef d (fun d => u8 (3 * len (VBI_Services d))).

Definition calcDescriptorUnknownLength (d : option DescriptorUnknown) : outcome Z :=
  oderef d (fun d => u8 (len (Unk_Content d))).

Definition omap {A B} (f : A -> B) (o : outcome A) : outcome B :=
  match o with
  | Done a => Done (f a)
  | Abort p => Abort p
  end.

Definition calcDescriptorLength (d : Descriptor) : outcome Z :=
  let tag := D_Tag d in
  if isUserDefinedTag tag then Done (calcDescriptorUserDefinedLength (D_UserDefined d))
  else if tag =? DescriptorTagAC3 then calcDescriptorAC3Length (D_AC3 d)
  else if tag =? DescriptorTagAVCVideo then calcDescriptorAVCVideoLength (D_AVCVideo d)
  else if tag =? DescriptorTagComponent then calcDescriptorComponentLength (D_Component d)
  else if tag =? DescriptorTagContent then calcDescriptorContentLength (D_Content d)
  else if tag =? DescriptorTagDataStreamAlignment
  then calcDescriptorDataStreamAlignmentLength (D_DataStreamAlignment d)
  else if tag =? DescriptorTagEnhancedAC3
  then calcDescriptorEnhancedAC3Length (D_EnhancedAC3 d)
  else if tag =? DescriptorTagExtendedEvent
  then omap fst (calcDescriptorExtendedEventLength (D_ExtendedEvent d))
  else if tag =? DescriptorTagExtension then calcDescriptorExtensionLength (D_Extension d)
  else if tag =? DescriptorTagISO639LanguageAndAudioType
  then calcDescriptorISO639LanguageAndAudioTypeLength (D_ISO639LanguageAndAudioType d)
  else if tag =? DescriptorTagLocalTimeOffset
  then calcDescriptorLocalTimeOffsetLength (D_LocalTimeOffset d)
  else if tag =? DescriptorTagMaximumBitrate
  then calcDescriptorMaximumBitrateLength (D_MaximumBitrate d)
  else if tag =? DescriptorTagNetworkName
  then calcDescriptorNetworkNameLength (D_NetworkName d)
  else if tag =? DescriptorTagParentalRating
  then calcDescriptorParentalRatingLength (D_ParentalRating d)
  else if tag =? DescriptorTagPrivateDataIndicator
  then calcDescriptorPrivateDataIndicatorLength (D_PrivateDataIndicator d)
  else if tag =? DescriptorTagPrivateDataSpecifier
  then calcDescriptorPrivateDataSpecifierLength (D_PrivateDataSpecifier d)
  else if tag =? DescriptorTagRegistration
  then calcDescriptorRegistrationLength (D_Registration d)
  else if tag =? DescriptorTagService then calcDescriptorServiceLength (D_Service d)
  else if tag =? DescriptorTagShortEvent
  then calcDescriptorShortEventLength (D_ShortEvent d)
  else if tag =? DescriptorTagStreamIdentifier
  then calcDescriptorStreamIdentifierLength (D_StreamIdentifier d)
  else if tag =? DescriptorTagSubtitling
  then calcDescriptorSubtitlingLength (D_Subtitling d)
  else if tag =? DescriptorTagTeletext then calcDescriptorTeletextLength (D_Teletext d)
  else if tag =? DescriptorTagVBIData then calcDescriptorVBIDataLength (D_VBIData d)
  else if tag =? DescriptorTagVBITeletext
  then calcDescriptorTeletextLength (D_VBITeletext d)
  else calcDescriptorUnknownLength (D_Unknown d).

Fixpoint calcDescriptorsLength_from (length : Z) (ds : list Descriptor) : outcome Z :=
  match ds with
  | [] => Done length
  | d :: ds' =>
      match calcDescriptorLength d with
      | Done l => calcDescriptorsLength_from (u16 (u16 (length + 2) + l)) ds'
      | Abort p => Abort p
      end
  end.

Definition calcDescriptorsLength (ds : list Descriptor) : outcome Z :=
  calcDescriptorsLength_from 0 ds.

(** ** Descriptors: writing *)

Section DescriptorWriter.

Context {Sink : Type} {SW : IoWriter Sink}.

Local Open Scope wr_scope.

Definition wbyte (b : byte) : Wr Sink unit := wdo (WriteByte b).
Definition wbit (b : bool) : Wr Sink unit := wdo (WriteBit b).
Definition wslice (b : bytes) : Wr Sink unit := wdo (WriteSlice b).

(** [w.WriteSlice(x[:3])] *)
Definition wslice3 (x : slice) : Wr Sink unit :=
  match reslice_to x 3 with
  | Ok s => wslice (elems s)
  | _ => wpanic IndexOutOfRange
  end.

Definition wwhen (cond : bool) (m : Wr Sink unit) : Wr Sink unit :=
  if cond then m else wret tt.

(** Modelled from the spec: see [parseDVBDurationMinutes]. *)
Definition writeDVBDurationMinutes (d : Z) : Wr Sink (Z * option error) :=
  wbyte (toBCD (d / 60));;;
  wbyte (toBCD (d mod 60));;;
  e <- werr;;
  wret (2, e).

(** Modelled from the spec: see [parseDVBTime]. *)
Definition writeDVBTime (t : DVBTime) : Wr Sink (Z * option error) :=
  wbits (T_MJD t) 16;;;
  wbyte (toBCD (T_Hour t));;;
  wbyte (toBCD (T_Minute t));;;
  wbyte (toBCD (T_Second t));;;
  e <- werr;;
  wret (5, e).

Definition writeDescriptorUserDefined (d : bytes) : Wr Sink (option error) :=
  wslice d;;; werr.

Definition writeDescriptorAC3 (d : option DescriptorAC3) : Wr Sink (option error) :=
  wderef d (fun d =>
    wbit (AC3_HasComponentType d);;;
    wbit (AC3_HasBSID d);;;
    wbit (AC3_HasMainID d);;;
    wbit (AC3_HasASVC d);;;
    wbits 255 4;;;
    wwhen (AC3_HasComponentType d) (wbyte (AC3_ComponentType d));;;
    wwhen (AC3_HasBSID d) (wbyte (AC3_BSID d));;;
    wwhen (AC3_HasMainID d) (wbyte (AC3_MainID d));;;
    wwhen (AC3_HasASVC d) (wbyte (AC3_ASVC d));;;
    wslice (AC3_AdditionalInfo d);;;
    werr).

Definition writeDescriptorAVCVideo (d : option DescriptorAVCVideo) : Wr Sink (option error) :=
  wderef d (fun d =>
    wbyte (AVC_ProfileIDC d);;;
    wbit (AVC_ConstraintSet0Flag d);;;
    wbit (AVC_ConstraintSet1Flag d);;;
    wbit (AVC_ConstraintSet2Flag d);;;
    wbits (AVC_CompatibleFlags d) 5;;;
    wbyte (AVC_LevelIDC d);;;
    wbit (AVC_AVCStillPresent d);;;
    wbit (AVC_AVC24HourPictureFlag d);;;
    wbits 255 6;;;
    werr).

Definition writeDescriptorComponent (d : option DescriptorComponent) : Wr Sink (option error) :=
  wderef d (fun d =>
    wbits (Comp_StreamContentExt d) 4;;;
    wbits (Comp_StreamContent d) 4;;;
    wbyte (Comp_ComponentType d);;;
    wbyte (Comp_ComponentTag d);;;
    wslice3 (Comp_ISO639LanguageCode d);;;
    wslice (Comp_Text d);;;
    werr).

Definition writeDescriptorContent (d : option DescriptorContent) : Wr Sink (option error) :=
  wderef d (fun d =>
    wfor (Content_Items d) (fun item =>
      wbits (CI_ContentNibbleLevel1 item) 4;;;
      wbits (CI_ContentNibbleLevel2 item) 4;;;
      wbyte (CI_UserByte item));;;
    werr).

Definition writeDescriptorDataStreamAlignment (d : option DescriptorDataStreamAlignment)
  : Wr Sink (option error) :=
  wderef d (fun d => wbyte (DSA_Type d);;; werr).

Definition writeDescriptorEnhancedAC3 (d : option DescriptorEnhancedAC3)
  : Wr Sink (option error) :=
  wderef d (fun d =>
    wbit (EAC3_HasComponentType d);;;
    wbit (EAC3_HasBSID d);;;
    wbit (EAC3_HasMainID d);;;
    wbit (EAC3_HasASVC d);;;
    wbit (EAC3_MixInfoExists d);;;
    wbit (EAC3_HasSubStream1 d);;;
    wbit (EAC3_HasSubStream2 d);;;
    wbit (EAC3_HasSubStream3 d);;;
    wwhen (EAC3_HasComponentType d) (wbyte (EAC3_ComponentType d));;;
    wwhen (EAC3_HasBSID d) (wbyte (EAC3_BSID d));;;
    wwhen (EAC3_HasMainID d) (wbyte (EAC3_MainID d));;;
    wwhen (EAC3_HasASVC d) (wbyte (EAC3_ASVC d));;;
    wwhen (EAC3_HasSubStream1 d) (wbyte (EAC3_SubStream1 d));;;
    wwhen (EAC3_HasSubStream2 d) (wbyte (EAC3_SubStream2 d));;;
    wwhen (EAC3_HasSubStream3 d) (wbyte (EAC3_SubStream3 d));;;
    wslice (EAC3_AdditionalInfo d);;;
    werr).

Definition writeDescriptorExtendedEvent (d : option DescriptorExtendedEvent)
  : Wr Sink (option error) :=
  l <- wcalc (calcDescriptorExtendedEventLength d);;
  wderef d (fun d =>
    wbits (EE_Number d) 4;;;
    wbits (EE_LastDescriptorNumber d) 4;;;
    wslice3 (EE_ISO639LanguageCode d);;;
    wbyte (snd l);;;
    wfor (EE_Items d) (fun item =>
      wbyte (u8 (len (EEI_Description item)));;;
      wslice (EEI_Description item);;;
      wbyte (u8 (len (EEI_Content item)));;;
      wslice (EEI_Content item));;;
    wbyte (u8 (len (EE_Text d)));;;
    wslice (EE_Text d);;;
    werr).

Definition writeDescriptorExtensionSupplementaryAudio
  (d : option DescriptorExtensionSupplementaryAudio) : Wr Sink (option error) :=
  wderef d (fun d =>
    wbit (SA_MixType d);;;
    wbits (SA_EditorialClassification d) 5;;;
    wbit true;;;
    wbit (SA_HasLanguageCode d);;;
    wwhen (SA_HasLanguageCode d) (wslice3 (SA_LanguageCode d));;;
    wslice (SA_PrivateData d);;;
    werr).

Definition writeDescriptorExtension (d : option DescriptorExtension) : Wr Sink (option error) :=
  wderef d (fun d =>
    wbyte (Ext_Tag d);;;
    if Ext_Tag d =? DescriptorTagExtensionSupplementaryAudio then
      e <- writeDescriptorExtensionSupplementaryAudio (Ext_SupplementaryAudio d);;
      match e with
      | Some e => wret (Some e)
      | None => werr
      end
    else
      match Ext_Unknown d with
      | Some u => wslice u
      | None => wret tt
      end;;;
      werr).

Definition writeDescriptorISO639LanguageAndAudioType
  (d : option DescriptorISO639LanguageAndAudioType) : Wr Sink (option error) :=
  wderef d (fun d =>
    wslice3 (ISO639_Language d);;;
    wbyte (ISO639_Type d);;;
    werr).

Fixpoint writeDescriptorLocalTimeOffsetItems (items : list DescriptorLocalTimeOffsetItem)
  : Wr Sink (option error) :=
  match items with
  | [] => werr
  | item :: rest =>
      wslice3 (LTOI_CountryCode item);;;
      wbits (LTOI_CountryRegionID item) 6;;;
      wbits 255 1;;;
      wbit (LTOI_LocalTimeOffsetPolarity item);;;
      r <- writeDVBDurationMinutes (LTOI_LocalTimeOffset item);;
      match snd r with
      | Some e => wret (Some e)
      | None =>
          r <- writeDVBTime (LTOI_TimeOfChange item);;
          match snd r with
          | Some e => wret (Some e)
          | None =>
              r <- writeDVBDurationMinutes (LTOI_NextTimeOffset item);;
              match snd r with
              | Some e => wret (Some e)
              | None => writeDescriptorLocalTimeOffsetItems rest
              end
          end
      end
  end.

Definition writeDescriptorLocalTimeOffset (d : option DescriptorLocalTimeOffset)
  : Wr Sink (option error) :=
  wderef d (fun d => writeDescriptorLocalTimeOffsetItems (LTO_Items d)).

Definition writeDescriptorMaximumBitrate (d : option DescriptorMaximumBitrate)
  : Wr Sink (option error) :=
  wderef d (fun d =>
    wbits 255 2;;;
    wbits (MB_Bitrate d / 50) 22;;;
    werr).

Definition writeDescriptorNetworkName (d : option DescriptorNetworkName)
  : Wr Sink (option error) :=
  wderef d (fun d => wslice (NN_Name d);;; werr).

Definition writeDescriptorParentalRating (d : option DescriptorParentalRating)
  : Wr Sink (option error) :=
  wderef d (fun d =>
    wfor (PR_Items d) (fun item =>
      wslice3 (PRI_CountryCode item);;;
      wbyte (PRI_Rating item));;;
    werr).

Definition writeDescriptorPrivateDataIndicator (d : option DescriptorPrivateDataIndicator)
  : Wr Sink (option error) :=
  wderef d (fun d => wbits (PDI_Indicator d) 32;;; werr).

Definition writeDescriptorPrivateDataSpecifier (d : option DescriptorPrivateDataSpecifier)
  : Wr Sink (option error) :=
  wderef d (fun d => wbits (PDS_Specifier d) 32;;; werr).

Definition writeDescriptorRegistration (d : option DescriptorRegistration)
  : Wr Sink (option error) :=
  wderef d (fun d =>
    wbits (Reg_FormatIdentifier d) 32;;;
    wslice (Reg_AdditionalIdentificationInfo d);;;
    werr).

Definition writeDescriptorService (d : option DescriptorService) : Wr Sink (option error) :=
  wderef d (fun d =>
    wbyte (Svc_Type d);;;
    wbyte (u8 (len (Svc_Provider d)));;;
    wslice (Svc_Provider d);;;
    wbyte (u8 (len (Svc_Name d)));;;
    wslice (Svc_Name d);;;
    werr).

Definition writeDescriptorShortEvent (d : option DescriptorShortEvent)
  : Wr Sink (option error) :=
  wderef d (fun d =>
    wslice3 (SE_Language d);;;
    wbyte (u8 (len (SE_EventName d)));;;
    wslice (SE_EventName d);;;
    wbyte (u8 (len (SE_Text d)));;;
    wslice (SE_Text d);;;
    werr).

Definition writeDescriptorStreamIdentifier (d : option DescriptorStreamIdentifier)
  : Wr Sink (option error) :=
  wderef d (fun d => wbyte (SI_ComponentTag d);;; werr).

Definition writeDescriptorSubtitling (d : option DescriptorSubtitling)
  : Wr Sink (option error) :=
  wderef d (fun d =>
    wfor (Sub_Items d) (fun item =>
      wslice3 (SubI_Language item);;;
      wbyte (SubI_Type item);;;
      wbits (SubI_CompositionPageID item) 16;;;
      wbits (SubI_AncillaryPageID item) 16);;;
    werr).

Definition writeDescriptorTeletext (d : option DescriptorTeletext) : Wr Sink (option error) :=
  wderef d (fun d =>
    wfor (TT_Items d) (fun item =>
      wslice3 (TI_Language item);;;
      wbits (TI_Type item) 5;;;
      wbits (TI_Magazine item) 3;;;
      wbits (TI_Page item / 10) 4;;;
      wbits (TI_Page item mod 10) 4);;;
    werr).

Definition writeDescriptorVBIData (d : option DescriptorVBIData) : Wr Sink (option error) :=
  wderef d (fun d =>
    wfor (VBI_Services d) (fun item =>
      wbyte (VBIS_DataServiceID item);;;
      if knownVBIDataServiceID (VBIS_DataServiceID item) then
        wbyte (u8 (len (VBIS_Descriptors item)));;;
        wfor (VBIS_Descriptors item) (fun desc =>
          wbits 255 2;;;
          wbit (VBID_FieldParity desc);;;
          wbits (VBID_LineOffset desc) 5)
      else
        wbyte 1;;;
        wbyte 255);;;
    werr).

Definition writeDescriptorUnknown (d : option DescriptorUnknown) : Wr Sink (option error) :=
  wderef d (fun d => wslice (Unk_Content d);;; werr).

(** The dispatch at the end of [writeDescriptor]. *)
Definition writeDescriptorData (d : Descriptor) : Wr Sink (option error) :=
  let tag := D_Tag d in
  if isUserDefinedTag tag then writeDescriptorUserDefined (D_UserDefined d)
  else if tag =? DescriptorTagAC3 then writeDescriptorAC3 (D_AC3 d)
  else if tag =? DescriptorTagAVCVideo then writeDescriptorAVCVideo (D_AVCVideo d)
  else if tag =? DescriptorTagComponent then writeDescriptorComponent (D_Component d)
  else if tag =? DescriptorTagContent then writeDescriptorContent (D_Content d)
  else if tag =? DescriptorTagDataStreamAlignment
  then writeDescriptorDataStreamAlignment (D_DataStreamAlignment d)
  else if tag =? DescriptorTagEnhancedAC3 then writeDescriptorEnhancedAC3 (D_EnhancedAC3 d)
  else if tag =? DescriptorTagExtendedEvent
  then writeDescriptorExtendedEvent (D_ExtendedEvent d)
  else if tag =? DescriptorTagExtension then writeDescriptorExtension (D_Extension d)
  else if tag =? DescriptorTagISO639LanguageAndAudioType
  then writeDescriptorISO639LanguageAndAudioType (D_ISO639LanguageAndAudioType d)
  else if tag =? DescriptorTagLocalTimeOffset
  then writeDescriptorLocalTimeOffset (D_LocalTimeOffset d)
  else if tag =? DescriptorTagMaximumBitrate
  then writeDescriptorMaximumBitrate (D_MaximumBitrate d)
  else if tag =? DescriptorTagNetworkName then writeDescriptorNetworkName (D_NetworkName d)
  else if tag =? DescriptorTagParentalRating
  then writeDescriptorParentalRating (D_ParentalRating d)
  else if tag =? DescriptorTagPrivateDataIndicator
  then writeDescriptorPrivateDataIndicator (D_PrivateDataIndicator d)
  else if tag =? DescriptorTagPrivateDataSpecifier
  then writeDescriptorPrivateDataSpecifier (D_PrivateDataSpecifier d)
  else if tag =? DescriptorTagRegistration
  then writeDescriptorRegistration (D_Registration d)
  else if tag =? DescriptorTagService then writeDescriptorService (D_Service d)
  else if tag =? DescriptorTagShortEvent then writeDescriptorShortEvent (D_ShortEvent d)
  else if tag =? DescriptorTagStreamIdentifier
  then writeDescriptorStreamIdentifier (D_StreamIdentifier d)
  else if tag =? DescriptorTagSubtitling then writeDescriptorSubtitling (D_Subtitling d)
  else if tag =? DescriptorTagTeletext then writeDescriptorTeletext (D_Teletext d)
  else if tag =? DescriptorTagVBIData then writeDescriptorVBIData (D_VBIData d)
  else if tag =? DescriptorTagVBITeletext then writeDescriptorTeletext (D_VBITeletext d)
  else writeDescriptorUnknown (D_Unknown d).

Definition writeDescriptor (d : Descriptor) : Wr Sink (Z * option error) :=
  length <- wcalc (calcDescriptorLength d);;
  wbyte (D_Tag d);;;
  wbyte length;;;
  e <- werr;;
  match e with
  | Some e => wret (0, Some e)
  | None =>
      let written := length + 2 in
      e <- writeDescriptorData d;;
      wret (written, e)
  end.

Fixpoint writeDescriptors_from (written : Z) (ds : list Descriptor)
  : Wr Sink (Z * option error) :=
  match ds with
  | [] => wret (written, None)
  | d :: ds' =>
      r <- writeDescriptor d;;
      match snd r with
      | Some e => wret (0, Some e)
      | None => writeDescriptors_from (written + fst r) ds'
      end
  end.

Definition writeDescriptors (ds : list Descriptor) : Wr Sink (Z * option error) :=
  writeDescriptors_from 0 ds.

Definition writeDescriptorsWithLength (ds : list Descriptor) : Wr Sink (Z * option error) :=
  length <- wcalc (calcDescriptorsLength ds);;
  wbits 255 4;;;
  wbits length 12;;;
  e <- werr;;
  match e with
  | Some e => wret (0, Some e)
  | None =>
      r <- writeDescriptors ds;;
      wret (fst r + 2, snd r)
  end.

End DescriptorWriter.

(** ** Clients of the writer *)

Section WriterCalls.

Context {Sink : Type} {SW : IoWriter Sink}.

(** The calls a client can make on a writer. *)
Inductive WriterCall : Type :=
| CallWriteBit (bit : bool)
| CallWriteBits (toWrite n : Z)
| CallWriteByte (b : byte)
| CallWriteUint16 (v : Z)
| CallWriteUint32 (v : Z)
| CallWriteSlice (inp : bytes).

Definition call (c : WriterCall) (w : lightweightBitsWriter Sink)
  : outcome (lightweightBitsWriter Sink) :=
  match c with
  | CallWriteBit bit => Done (WriteBit bit w)
  | CallWriteBits toWrite n => WriteBits toWrite n w
  | CallWriteByte b => Done (WriteByte b w)
  | CallWriteUint16 v => WriteUint16 v w
  | CallWriteUint32 v => WriteUint32 v w
  | CallWriteSlice inp => Done (WriteSlice inp w)
  end.

Fixpoint calls (cs : list WriterCall) (w : lightweightBitsWriter Sink)
  : outcome (lightweightBitsWriter Sink) :=
  match cs with
  | [] => Done w
  | c :: cs' =>
      match call c w with
      | Done w' => calls cs' w'
      | Abort p => Abort p
      end
  end.

(** [WriteBits] takes at most 64 bits. *)
Definition call_in_range (c : WriterCall) : Prop :=
  match c with
  | CallWriteBits _ n => n <= 64
  | _ => True
  end.

End WriterCalls.

(** ** Sample inputs *)

(** A writer whose sink had room for one byte and was given two. *)
Definition latched_writer : lightweightBitsWriter BoundedSink :=
  WriteByte 2 (WriteByte 1 (newLightweightBitsWriter (mkBounded [] 1))).

Definition sample_calls : list WriterCall :=
  [CallWriteBit true; CallWriteBits 5 3; CallWriteByte 7; CallWriteUint16 9;
   CallWriteUint32 10; CallWriteSlice [1; 2; 3]].

(** A window that starts with 0x48. *)
Definition unsynced_input : BytesIterator := NewBytesIterator (72 :: repeat 0 187).

(** An adaptation field of declared length 2 with a splice countdown of
    0xFF. *)
Definition splice_input : BytesIterator := NewBytesIterator [2; 4; 255].




(** A descriptor entry of declared length 0, followed by another entry. *)
Definition empty_entry_input : BytesIterator := NewBytesIterator [64; 0; 82; 1; 204].

(** A stream identifier entry that declares two bytes, of which the
    parser reads one, followed by another entry. *)
Definition overdeclared_input : BytesIterator :=
  NewBytesIterator [82; 2; 170; 187; 82; 1; 204].

Definition overdeclared_descriptor : Descriptor :=
  set_D_StreamIdentifier (mkDescriptorStreamIdentifier 170) (newDescriptor 82 2).

(** ** Counting what a healthy writer emits *)

(** A writer over a buffer that has met no error, with fewer than eight
    bits waiting in its cache. *)
Definition healthy (w : lightweightBitsWriter BufferSink) : Prop :=
  w_err w = None /\ 0 <= w_cacheLen w < 8.

(** The number of bits handed to the writer so far. *)
Definition bitpos (w : lightweightBitsWriter BufferSink) : Z :=
  8 * len (w_w w) + w_cacheLen w.

Definition extends (w w' : lightweightBitsWriter BufferSink) : Prop :=
  exists out, w_w w' = w_w w ++ out.










(** A VBI data descriptor whose only service (EBU teletext) has two
    descriptors, as parsed from [45 04 01 02 E5 C6]. *)
Definition vbi_two_lines_wire : bytes := [240; 6; 69; 4; 1; 2; 229; 198].

Definition vbi_two_lines : Descriptor :=
  set_D_VBIData
    (mkDescriptorVBIData
       [mkDescriptorVBIDataService 1
          [mkDescriptorVBIDataDescriptor true 5; mkDescriptorVBIDataDescriptor false 6]])
    (newDescriptor 69 4).

(** An ISO-639 descriptor of length 3 whose language has two bytes,
    [0A 03 66 72 01], and what the parser makes of it. *)
Definition iso639_short_wire : bytes := [240; 5; 10; 3; 102; 114; 1].

Definition iso639_short : Descriptor :=
  set_D_ISO639LanguageAndAudioType
    (mkDescriptorISO639LanguageAndAudioType (mkSlice [102; 114] [1]) 1)
    (newDescriptor 10 3).

(** The same descriptor built by hand, the language in an array of its
    own. *)
Definition iso639_short_fresh : Descriptor :=
  set_D_ISO639LanguageAndAudioType
    (mkDescriptorISO639LanguageAndAudioType (slice_of [102; 114]) 1)
    (newDescriptor 10 3).

Definition fresh_writer : lightweightBitsWriter BufferSink :=
  newLightweightBitsWriter ([] : BufferSink).

(** ** What an aligned writer emits, what a parser consumes *)

(** [m], started byte-aligned on a buffer that has met no error, returns
    [a], has appended exactly [out], and is byte-aligned again. *)
Definition Emits {A} (m : Wr BufferSink A) (a : A) (out : bytes) : Prop :=
  forall s c, exists c',
    m (mkWriter s 0 0 c None) = Done (a, mkWriter (s ++ out) 0 0 c' None).

(** The bytes that groups of bit writes put together, as the writer
    computes them: a bit ORed into the cache, the first bits of a byte,
    and further bits ORed below them. *)
Definition setbit (b : bool) (ca mask : Z) : Z := if b then Z.lor ca mask else ca.
Definition first_bits (v n : Z) : Z := u8 (Z.shiftl (Z.land v (Z.ones n)) (8 - n)).
Definition put (ca v n sh : Z) : Z := Z.lor ca (u8 (Z.shiftl (Z.land v (Z.ones n)) sh)).

Definition flags3 (a b c : bool) : Z := setbit c (setbit b (setbit a 0 128) 64) 32.
Definition flags4 (a b c d : bool) : Z := setbit d (flags3 a b c) 16.
Definition flags8 (a b c d e f g h : bool) : Z :=
  setbit h (setbit g (setbit f (setbit e (flags4 a b c d) 8) 4) 2) 1.

(** [Bit a, Bit b, Bit c, Bit d, Bits 0xff 4] *)
Definition byte_4flags (a b c d : bool) : Z := put (flags4 a b c d) 255 4 0.
(** [Bit a, Bit b, Bit c, Bits v 5] *)
Definition byte_3flags_5 (a b c : bool) (v : Z) : Z := put (flags3 a b c) v 5 0.
(** [Bit a, Bit b, Bits 0xff 6] *)
Definition byte_2flags (a b : bool) : Z := put (setbit b (setbit a 0 128) 64) 255 6 0.
(** [Bits a 4, Bits b 4] *)
Definition byte_nibbles (a b : Z) : Z := put (first_bits a 4) b 4 0.
(** [Bit m, Bits v 5, Bit true, Bit h] *)
Definition byte_supplementary (m : bool) (v : Z) (h : bool) : Z :=
  setbit h (setbit true (put (setbit m 0 128) v 5 2) 2) 1.
(** [Bits t 5, Bits m 3] *)
Definition byte_5_3 (t m : Z) : Z := put (first_bits t 5) m 3 0.
(** [Bits 0xff 2, Bit p, Bits v 5] *)
Definition byte_vbi (p : bool) (v : Z) : Z := put (setbit p (first_bits 255 2) 32) v 5 0.
(** [Bits v 16] and [Bits v 32], byte-aligned *)
Definition bytes_16 (v : Z) : bytes :=
  let x := Z.land v (Z.ones 16) in [u8 (Z.shiftr x 8); u8 (Z.shiftr x 0)].
Definition bytes_32 (v : Z) : bytes :=
  let x := Z.land v (Z.ones 32) in
  [u8 (Z.shiftr x 24); u8 (Z.shiftr x 16); u8 (Z.shiftr x 8); u8 (Z.shiftr x 0)].
(** [Bits 0xff 2, Bits v 22] *)
Definition bytes_2_22 (v : Z) : bytes :=
  let x := Z.land v (Z.ones 22) in
  [Z.lor (first_bits 255 2) (u8 (Z.shiftr x 16)); u8 (Z.shiftr x 8); u8 (Z.shiftr x 0)].
(** [Bits 0xff 4, Bits v 12] *)
Definition bytes_4_12 (v : Z) : bytes :=
  let x := Z.land v (Z.ones 12) in
  [Z.lor (first_bits 255 4) (u8 (Z.shiftr x 8)); u8 (Z.shiftr x 0)].

(** The cursor stands in front of [l]. *)
Definition Reads (i : BytesIterator) (l : bytes) : Prop :=
  0 <= offset i <= len (bs i) /\ skipn (Z.to_nat (offset i)) (bs i) = l.

(** [m], started in front of [inp], returns [a] and has moved the cursor
    over exactly [inp]. *)
Definition Consumes {A} (m : M A) (i : BytesIterator) (inp : bytes) (a : A) : Prop :=
  forall rest, Reads i (inp ++ rest) ->
    exists i', m i = (Ok a, i') /\ bs i' = bs i /\ offset i' = offset i + len inp.

(** ** A descriptor, the payload written for it, the descriptor parsed back *)

(** The bytes of one entry of a descriptor list: tag, length, payload. *)
Definition entry (tag : Z) (payload : bytes) : bytes := tag :: len payload :: payload.

(** [Coded d payload d']: the length computed for [d] is the length of
    [payload], the writer emits [payload] for [d], and the parser, placed in
    front of [payload] in an entry that carries the tag of [d], returns
    [d']. *)
Definition Coded (d : Descriptor) (payload : bytes) (d' : Descriptor) : Prop :=
  0 < len payload <= 255 /\
  calcDescriptorLength d = Done (len payload) /\
  Emits (writeDescriptorData d) None payload /\
  forall i,
    Consumes (parseDescriptorData (newDescriptor (D_Tag d) (len payload))
                (offset i + len payload)) i payload d'.

Record coded := mkCoded {
  coded_written : Descriptor;
  coded_payload : bytes;
  coded_parsed : Descriptor
}.

Definition coded_entry (x : coded) : bytes :=
  entry (D_Tag (coded_written x)) (coded_payload x).

Definition coded_ok (x : coded) : Prop :=
  Coded (coded_written x) (coded_payload x) (coded_parsed x).


(** ** Descriptors as the parser builds them, and the payloads written for them *)

Definition descriptorStreamIdentifier (x : DescriptorStreamIdentifier) : Descriptor :=
  set_D_StreamIdentifier x (newDescriptor DescriptorTagStreamIdentifier 1).
Definition descriptorDataStreamAlignment (x : DescriptorDataStreamAlignment) : Descriptor :=
  set_D_DataStreamAlignment x (newDescriptor DescriptorTagDataStreamAlignment 1).
Definition descriptorNetworkName (x : DescriptorNetworkName) : Descriptor :=
  set_D_NetworkName x (newDescriptor DescriptorTagNetworkName (len (NN_Name x))).

Definition descriptorUserDefined (tag : Z) (b : bytes) : Descriptor :=
  set_D_UserDefined b (newDescriptor tag (len b)).
Definition descriptorUnknown (x : DescriptorUnknown) : Descriptor :=
  set_D_Unknown x (newDescriptor (Unk_Tag x) (len (Unk_Content x))).
Definition descriptorPrivateDataIndicator (x : DescriptorPrivateDataIndicator) : Descriptor :=
  set_D_PrivateDataIndicator x (newDescriptor DescriptorTagPrivateDataIndicator 4).
Definition descriptorPrivateDataSpecifier (x : DescriptorPrivateDataSpecifier) : Descriptor :=
  set_D_PrivateDataSpecifier x (newDescriptor DescriptorTagPrivateDataSpecifier 4).
Definition descriptorRegistration (x : DescriptorRegistration) : Descriptor :=
  set_D_Registration x
    (newDescriptor DescriptorTagRegistration
       (4 + len (Reg_AdditionalIdentificationInfo x))).
Definition descriptorMaximumBitrate (x : DescriptorMaximumBitrate) : Descriptor :=
  set_D_MaximumBitrate x (newDescriptor DescriptorTagMaximumBitrate 3).

(** The tags that the switch of [parseDescriptors] names. *)
Definition descriptorTags : list Z :=
  [DescriptorTagAC3; DescriptorTagAVCVideo; DescriptorTagComponent; DescriptorTagContent;
   DescriptorTagDataStreamAlignment; DescriptorTagEnhancedAC3;
   DescriptorTagExtendedEvent; DescriptorTagExtension;
   DescriptorTagISO639LanguageAndAudioType; DescriptorTagLocalTimeOffset;
   DescriptorTagMaximumBitrate; DescriptorTagNetworkName; DescriptorTagParentalRating;
   DescriptorTagPrivateDataIndicator; DescriptorTagPrivateDataSpecifier;
   DescriptorTagRegistration; DescriptorTagService; DescriptorTagShortEvent;
   DescriptorTagStreamIdentifier; DescriptorTagSubtitling; DescriptorTagTeletext;
   DescriptorTagVBIData; DescriptorTagVBITeletext].

(** A three-letter code as the parsers allocate it: three bytes, followed
    in their array by [tail]. *)
Definition code3 (s : slice) (tail : bytes) : Prop :=
  len (elems s) = 3 /\ spare s = tail.

Definition descriptorService (x : DescriptorService) : Descriptor :=
  set_D_Service x
    (newDescriptor DescriptorTagService (3 + len (Svc_Name x) + len (Svc_Provider x))).
Definition descriptorShortEvent (x : DescriptorShortEvent) : Descriptor :=
  set_D_ShortEvent x
    (newDescriptor DescriptorTagShortEvent
       (5 + len (SE_EventName x) + len (SE_Text x))).
Definition descriptorAVCVideo (x : DescriptorAVCVideo) : Descriptor :=
  set_D_AVCVideo x (newDescriptor DescriptorTagAVCVideo 4).
Definition descriptorComponent (x : DescriptorComponent) : Descriptor :=
  set_D_Component x (newDescriptor DescriptorTagComponent (6 + len (Comp_Text x))).
Definition descriptorISO639LanguageAndAudioType
  (x : DescriptorISO639LanguageAndAudioType) : Descriptor :=
  set_D_ISO639LanguageAndAudioType x
    (newDescriptor DescriptorTagISO639LanguageAndAudioType 4).

Definition payloadService (x : DescriptorService) : bytes :=
  Svc_Type x :: len (Svc_Provider x) :: Svc_Provider x
  ++ len (Svc_Name x) :: Svc_Name x.
Definition payloadShortEvent (x : DescriptorShortEvent) : bytes :=
  elems (SE_Language x) ++ len (SE_EventName x) :: SE_EventName x
  ++ len (SE_Text x) :: SE_Text x.

Definition payloadAVCVideo (x : DescriptorAVCVideo) : bytes :=
  [AVC_ProfileIDC x;
   byte_3flags_5 (AVC_ConstraintSet0Flag x) (AVC_ConstraintSet1Flag x)
     (AVC_ConstraintSet2Flag x) (AVC_CompatibleFlags x);
   AVC_LevelIDC x;
   byte_2flags (AVC_AVCStillPresent x) (AVC_AVC24HourPictureFlag x)].
Definition payloadComponent (x : DescriptorComponent) : bytes :=
  byte_nibbles (Comp_StreamContentExt x) (Comp_StreamContent x)
  :: Comp_ComponentType x :: Comp_ComponentTag x
  :: elems (Comp_ISO639LanguageCode x) ++ Comp_Text x.
Definition payloadISO639LanguageAndAudioType
  (x : DescriptorISO639LanguageAndAudioType) : bytes :=
  elems (ISO639_Language x) ++ [ISO639_Type x].

Definition descriptorContent (x : DescriptorContent) : Descriptor :=
  set_D_Content x (newDescriptor DescriptorTagContent (2 * len (Content_Items x))).
Definition payloadContentItem (item : DescriptorContentItem) : bytes :=
  [byte_nibbles (CI_ContentNibbleLevel1 item) (CI_ContentNibbleLevel2 item);
   CI_UserByte item].
Definition payloadContent (x : DescriptorContent) : bytes :=
  flat_map payloadContentItem (Content_Items x).

Definition descriptorParentalRating (x : DescriptorParentalRating) : Descriptor :=
  set_D_ParentalRating x
    (newDescriptor DescriptorTagParentalRating (4 * len (PR_Items x))).
Definition payloadParentalRatingItem (item : DescriptorParentalRatingItem) : bytes :=
  elems (PRI_CountryCode item) ++ [PRI_Rating item].
Definition payloadParentalRating (x : DescriptorParentalRating) : bytes :=
  flat_map payloadParentalRatingItem (PR_Items x).

Definition descriptorSubtitling (x : DescriptorSubtitling) : Descriptor :=
  set_D_Subtitling x (newDescriptor DescriptorTagSubtitling (8 * len (Sub_Items x))).
Definition payloadSubtitlingItem (item : DescriptorSubtitlingItem) : bytes :=
  elems (SubI_Language item) ++ SubI_Type item
  :: bytes_16 (SubI_CompositionPageID item) ++ bytes_16 (SubI_AncillaryPageID item).
Definition payloadSubtitling (x : DescriptorSubtitling) : bytes :=
  flat_map payloadSubtitlingItem (Sub_Items x).

Definition descriptorTeletext (x : DescriptorTeletext) : Descriptor :=
  set_D_Teletext x (newDescriptor DescriptorTagTeletext (5 * len (TT_Items x))).
Definition descriptorVBITeletext (x : DescriptorTeletext) : Descriptor :=
  set_D_VBITeletext x (newDescriptor DescriptorTagVBITeletext (5 * len (TT_Items x))).
Definition payloadTeletextItem (item : DescriptorTeletextItem) : bytes :=
  elems (TI_Language item)
  ++ [byte_5_3 (TI_Type item) (TI_Magazine item);
      byte_nibbles (TI_Page item / 10) (TI_Page item mod 10)].
Definition payloadTeletext (x : DescriptorTeletext) : bytes :=
  flat_map payloadTeletextItem (TT_Items x).

Definition descriptorVBIData (x : DescriptorVBIData) : Descriptor :=
  set_D_VBIData x (newDescriptor DescriptorTagVBIData (3 * len (VBI_Services x))).
Definition payloadVBIDataDescriptor (d : DescriptorVBIDataDescriptor) : bytes :=
  [byte_vbi (VBID_FieldParity d) (VBID_LineOffset d)].
Definition payloadVBIDataService (s : DescriptorVBIDataService) : bytes :=
  VBIS_DataServiceID s
  :: (if knownVBIDataServiceID (VBIS_DataServiceID s)
      then len (VBIS_Descriptors s)
           :: flat_map payloadVBIDataDescriptor (VBIS_Descriptors s)
      else [1; 255]).
Definition payloadVBIData (x : DescriptorVBIData) : bytes :=
  flat_map payloadVBIDataService (VBI_Services x).
(** A service as the parser returns it from three bytes: one line of a
    known service, or no line of another one. *)
Definition vbiDataService_ok (s : DescriptorVBIDataService) : Prop :=
  if knownVBIDataServiceID (VBIS_DataServiceID s)
  then exists d, VBIS_Descriptors s = [d] /\ 0 <= VBID_LineOffset d < 32
  else VBIS_Descriptors s = [].

(** A byte that is present only under a flag. *)
Definition opt_byte (c : bool) (v : byte) : bytes := if c then [v] else [].

Definition payloadAC3 (x : DescriptorAC3) : bytes :=
  byte_4flags (AC3_HasComponentType x) (AC3_HasBSID x) (AC3_HasMainID x) (AC3_HasASVC x)
  :: opt_byte (AC3_HasComponentType x) (AC3_ComponentType x)
  ++ opt_byte (AC3_HasBSID x) (AC3_BSID x)
  ++ opt_byte (AC3_HasMainID x) (AC3_MainID x)
  ++ opt_byte (AC3_HasASVC x) (AC3_ASVC x)
  ++ AC3_AdditionalInfo x.
Definition descriptorAC3 (x : DescriptorAC3) : Descriptor :=
  set_D_AC3 x (newDescriptor DescriptorTagAC3 (len (payloadAC3 x))).
(** The parser leaves a field at zero when its flag is not set. *)
Definition ac3_ok (x : DescriptorAC3) : Prop :=
  (AC3_HasComponentType x = false -> AC3_ComponentType x = 0) /\
  (AC3_HasBSID x = false -> AC3_BSID x = 0) /\
  (AC3_HasMainID x = false -> AC3_MainID x = 0) /\
  (AC3_HasASVC x = false -> AC3_ASVC x = 0).

Definition payloadEnhancedAC3 (x : DescriptorEnhancedAC3) : bytes :=
  flags8 (EAC3_HasComponentType x) (EAC3_HasBSID x) (EAC3_HasMainID x) (EAC3_HasASVC x)
    (EAC3_MixInfoExists x) (EAC3_HasSubStream1 x) (EAC3_HasSubStream2 x)
    (EAC3_HasSubStream3 x)
  :: opt_byte (EAC3_HasComponentType x) (EAC3_ComponentType x)
  ++ opt_byte (EAC3_HasBSID x) (EAC3_BSID x)
  ++ opt_byte (EAC3_HasMainID x) (EAC3_MainID x)
  ++ opt_byte (EAC3_HasASVC x) (EAC3_ASVC x)
  ++ opt_byte (EAC3_HasSubStream1 x) (EAC3_SubStream1 x)
  ++ opt_byte (EAC3_HasSubStream2 x) (EAC3_SubStream2 x)
  ++ opt_byte (EAC3_HasSubStream3 x) (EAC3_SubStream3 x)
  ++ EAC3_AdditionalInfo x.
Definition descriptorEnhancedAC3 (x : DescriptorEnhancedAC3) : Descriptor :=
  set_D_EnhancedAC3 x (newDescriptor DescriptorTagEnhancedAC3 (len (payloadEnhancedAC3 x))).
Definition enhancedAC3_ok (x : DescriptorEnhancedAC3) : Prop :=
  (EAC3_HasComponentType x = false -> EAC3_ComponentType x = 0) /\
  (EAC3_HasBSID x = false -> EAC3_BSID x = 0) /\
  (EAC3_HasMainID x = false -> EAC3_MainID x = 0) /\
  (EAC3_HasASVC x = false -> EAC3_ASVC x = 0) /\
  (EAC3_HasSubStream1 x = false -> EAC3_SubStream1 x = 0) /\
  (EAC3_HasSubStream2 x = false -> EAC3_SubStream2 x = 0) /\
  (EAC3_HasSubStream3 x = false -> EAC3_SubStream3 x = 0).

Definition payloadExtendedEventItem (item : DescriptorExtendedEventItem) : bytes :=
  len (EEI_Description item) :: EEI_Description item
  ++ len (EEI_Content item) :: EEI_Content item.
Definition payloadExtendedEventItems (x : DescriptorExtendedEvent) : bytes :=
  flat_map payloadExtendedEventItem (EE_Items x).
Definition payloadExtendedEvent (x : DescriptorExtendedEvent) : bytes :=
  byte_nibbles (EE_Number x) (EE_LastDescriptorNumber x)
  :: elems (EE_ISO639LanguageCode x)
  ++ len (payloadExtendedEventItems x) :: payloadExtendedEventItems x
  ++ len (EE_Text x) :: EE_Text x.
Definition descriptorExtendedEvent (x : DescriptorExtendedEvent) : Descriptor :=
  set_D_ExtendedEvent x
    (newDescriptor DescriptorTagExtendedEvent (len (payloadExtendedEvent x))).

Definition payloadExtensionSupplementaryAudio
  (x : DescriptorExtensionSupplementaryAudio) : bytes :=
  byte_supplementary (SA_MixType x) (SA_EditorialClassification x) (SA_HasLanguageCode x)
  :: (if SA_HasLanguageCode x then elems (SA_LanguageCode x) else [])
  ++ SA_PrivateData x.
(** The language code is there under its flag, and empty without it. *)
Definition supplementaryAudio_ok (x : DescriptorExtensionSupplementaryAudio) : Prop :=
  0 <= SA_EditorialClassification x < 32 /\
  if SA_HasLanguageCode x then code3 (SA_LanguageCode x) []
  else SA_LanguageCode x = slice_of [].
Definition extensionSupplementaryAudio (x : DescriptorExtensionSupplementaryAudio)
  : DescriptorExtension :=
  mkDescriptorExtension (Some x) DescriptorTagExtensionSupplementaryAudio None.
Definition extensionUnknown (tag : Z) (u : bytes) : DescriptorExtension :=
  mkDescriptorExtension None tag (Some u).
Definition payloadExtension (x : DescriptorExtension) : bytes :=
  Ext_Tag x
  :: match Ext_SupplementaryAudio x, Ext_Unknown x with
     | Some sa, _ => payloadExtensionSupplementaryAudio sa
     | None, Some u => u
     | None, None => []
     end.
Definition descriptorExtension (x : DescriptorExtension) : Descriptor :=
  set_D_Extension x (newDescriptor DescriptorTagExtension (len (payloadExtension x))).

(** A teletext item within the ranges of its fields. *)
Definition teletextItem_ok (item : DescriptorTeletextItem) : Prop :=
  code3 (TI_Language item) [] /\ 0 <= TI_Type item < 32 /\
  0 <= TI_Magazine item < 8 /\ 0 <= TI_Page item < 160.

(** ** Writing a list of descriptors and parsing the bytes back *)

(** A descriptor list on the wire: four reserved bits, the length of the
    entries on twelve bits, the entries. *)
Definition descriptorsWire (entries : bytes) : bytes :=
  bytes_4_12 (len entries) ++ entries.

(** [writeDescriptorsWithLength], on a new writer over an empty buffer,
    reports [len wire] bytes and no error and leaves [wire] in the buffer;
    [parseDescriptors], on an iterator over [wire], returns [ds'] with the
    cursor at the end. *)
Definition WrittenAndParsedBack (ds : list Descriptor) (wire : bytes)
  (ds' : list Descriptor) : Prop :=
  exists w',
    writeDescriptorsWithLength ds fresh_writer = Done ((len wire, None), w') /\
    w_w w' = wire /\
    parseDescriptors (NewBytesIterator wire) = (Ok ds', mkIter wire (len wire)).

(** ** Packets on the wire *)

(** The three bytes [writePacketHeader] puts together. *)
Definition headerBytes (h : PacketHeader) : bytes :=
  let pid := Z.land (PH_PID h) (Z.ones 13) in
  [Z.lor (flags3 (PH_TransportErrorIndicator h) (PH_PayloadUnitStartIndicator h)
            (PH_TransportPriority h))
     (u8 (Z.shiftr pid 8));
   u8 (Z.shiftr pid 0);
   put (setbit (PH_HasPayload h)
          (setbit (PH_HasAdaptationField h)
             (first_bits (PH_TransportScramblingControl h) 2) 32) 16)
     (PH_ContinuityCounter h) 4 0].

(** A header whose fields fit their bit widths. *)
Definition header_ok (h : PacketHeader) : Prop :=
  0 <= PH_PID h < 8192 /\ 0 <= PH_TransportScramblingControl h < 4 /\
  0 <= PH_ContinuityCounter h < 16.

(** The six bytes [writePCR] puts together: 33 bits of base, six reserved
    bits, nine bits of extension. *)
Definition pcrBytes (c : ClockReference) : bytes :=
  let b := Z.land (CR_Base c) (Z.ones 33) in
  let e := Z.land (CR_Extension c) (Z.ones 9) in
  [u8 (Z.shiftr b 25); u8 (Z.shiftr b 17); u8 (Z.shiftr b 9); u8 (Z.shiftr b 1);
   Z.lor (Z.lor (u8 (Z.shiftl b 7)) 126) (u8 (Z.shiftr e 8));
   u8 (Z.shiftr e 0)].

Definition clockReference_ok (c : ClockReference) : Prop :=
  0 <= CR_Base c < 8589934592 /\ 0 <= CR_Extension c < 512.

(** The bytes of a clock reference that is there under its flag. *)
Definition optClock (has : bool) (cr : option ClockReference) : bytes :=
  if has then match cr with Some c => pcrBytes c | None => [] end else [].

(** What follows the length byte of an adaptation field, up to the
    stuffing. *)
Definition adaptationFieldBody (af : PacketAdaptationField) : bytes :=
  flags8 (AF_DiscontinuityIndicator af) (AF_RandomAccessIndicator af)
    (AF_ElementaryStreamPriorityIndicator af) (AF_HasPCR af) (AF_HasOPCR af)
    (AF_HasSplicingCountdown af) (AF_HasTransportPrivateData af)
    (AF_HasAdaptationExtensionField af)
  :: optClock (AF_HasPCR af) (AF_PCR af)
  ++ optClock (AF_HasOPCR af) (AF_OPCR af)
  ++ opt_byte (AF_HasSplicingCountdown af) (AF_SpliceCountdown af)
  ++ (if AF_HasTransportPrivateData af
      then len (AF_TransportPrivateData af) :: AF_TransportPrivateData af
      else []).

(** The value of the length byte: the bytes that follow it. *)
Definition adaptationFieldLength (af : PacketAdaptationField) : Z :=
  len (adaptationFieldBody af) + AF_StuffingLength af.

Definition adaptationFieldBytes (af : PacketAdaptationField) : bytes :=
  if AF_IsOneByteStuffing af then [0]
  else adaptationFieldLength af :: adaptationFieldBody af
       ++ repeat 255 (Z.to_nat (AF_StuffingLength af)).

Definition optClock_ok (has : bool) (cr : option ClockReference) : Prop :=
  if has then exists c, cr = Some c /\ clockReference_ok c else cr = None.

(** An adaptation field without extension, as the parser fills it: what
    has no flag is left at its zero value and the private data length is
    the length of the data; the bytes after the length byte fit the length
    byte. *)
Definition adaptationField_ok (af : PacketAdaptationField) : Prop :=
  AF_IsOneByteStuffing af = false /\
  AF_HasAdaptationExtensionField af = false /\ AF_AdaptationExtensionField af = None /\
  optClock_ok (AF_HasPCR af) (AF_PCR af) /\ optClock_ok (AF_HasOPCR af) (AF_OPCR af) /\
  (if AF_HasSplicingCountdown af then 0 <= AF_SpliceCountdown af <= 255
   else AF_SpliceCountdown af = 0) /\
  (if AF_HasTransportPrivateData af
   then AF_TransportPrivateDataLength af = len (AF_TransportPrivateData af)
   else AF_TransportPrivateDataLength af = 0 /\ AF_TransportPrivateData af = []) /\
  0 <= AF_StuffingLength af /\
  adaptationFieldLength af <= 255.

(** A clock reference as [parsePCR] builds it, and the adaptation field
    with its clock references so built and its length set. *)
Definition reparsedClock (cr : option ClockReference) : option ClockReference :=
  match cr with
  | Some c => Some (newClockReference (CR_Base c) (CR_Extension c))
  | None => None
  end.

Definition reparsedAdaptationField (af : PacketAdaptationField) : PacketAdaptationField :=
  mkPacketAdaptationField
    (AF_AdaptationExtensionField af) (reparsedClock (AF_OPCR af)) (reparsedClock (AF_PCR af))
    (AF_TransportPrivateData af) (AF_TransportPrivateDataLength af)
    (adaptationFieldLength af)
    (AF_StuffingLength af) (AF_SpliceCountdown af) (AF_IsOneByteStuffing af)
    (AF_RandomAccessIndicator af) (AF_DiscontinuityIndicator af)
    (AF_ElementaryStreamPriorityIndicator af) (AF_HasAdaptationExtensionField af)
    (AF_HasOPCR af) (AF_HasPCR af) (AF_HasTransportPrivateData af)
    (AF_HasSplicingCountdown af).

(** What the parser makes of an adaptation field: the field of one
    stuffing byte comes back as the zero value. *)
Definition parsedAdaptationField (af : PacketAdaptationField) : PacketAdaptationField :=
  if AF_IsOneByteStuffing af then zeroAdaptationField else reparsedAdaptationField af.

Definition packetAdaptationFieldBytes (p : Packet) : bytes :=
  if PH_HasAdaptationField (P_Header p)
  then match P_AdaptationField p with
       | Some af => adaptationFieldBytes af
       | None => []
       end
  else [].

(** Sync byte, header, adaptation field and payload; then the padding up
    to 188 bytes. *)
Definition packetContent (p : Packet) : bytes :=
  syncByte :: headerBytes (P_Header p) ++ packetAdaptationFieldBytes p ++ P_Payload p.

Definition packetPadding (p : Packet) : bytes :=
  repeat 255 (Z.to_nat (MpegTsPacketSize - len (packetContent p))).

Definition packetBytes (p : Packet) : bytes := packetContent p ++ packetPadding p.

Definition parsedPacket (p : Packet) : Packet :=
  mkPacket
    (if PH_HasAdaptationField (P_Header p)
     then match P_AdaptationField p with
          | Some af => Some (parsedAdaptationField af)
          | None => None
          end
     else None)
    (P_Header p)
    (if PH_HasPayload (P_Header p) then P_Payload p ++ packetPadding p else []).

Definition packet_ok (p : Packet) : Prop :=
  header_ok (P_Header p) /\
  (PH_HasAdaptationField (P_Header p) = true ->
   exists af, P_AdaptationField p = Some af /\
              (AF_IsOneByteStuffing af = true \/ adaptationField_ok af)) /\
  (PH_HasPayload (P_Header p) = false -> P_Payload p = []) /\
  len (packetContent p) <= MpegTsPacketSize.

(** The adaptation field of [newStuffingAdaptationField] on the wire. *)
Definition stuffingBytes (bytesToStuff : Z) : bytes :=
  if bytesToStuff =? 1 then [0]
  else bytesToStuff - 1 :: 0 :: repeat 255 (Z.to_nat (bytesToStuff - 2)).


Definition sample_stuffed_header : PacketHeader :=
  mkPacketHeader 5 true true false 4660 false true 2.

(** ** CRC-32 (crc32.go) *)

Definition u32 (x : Z) : Z := x mod 4294967296.

Definition crc32Polynomial : Z := 4294967295.

Section CRC32.

(** [tableCRC32] is declared outside the files at hand; its entries are
    left open. *)
Variable tableCRC32 : list Z.

(** [((crc32>>24)^uint32(b))&0xff] *)
Definition crc32Index (crc32 : Z) (b : byte) : Z :=
  Z.land (Z.lxor (Z.shiftr crc32 24) b) 255.

(** [crc32 = (crc32 << 8) ^ tableCRC32[...]] *)
Definition crc32Step (crc32 : Z) (b : byte) : Z :=
  Z.lxor (u32 (Z.shiftl crc32 8)) (nth (Z.to_nat (crc32Index crc32 b)) tableCRC32 0).

Definition updateCRC32 (crc32 : Z) (bs : bytes) : Z := fold_left crc32Step bs crc32.

Definition computeCRC32 (bs : bytes) : Z := updateCRC32 crc32Polynomial bs.

Context {Sink : Type} {SW : IoWriter Sink}.

Record crc32Writer := mkCRC32Writer {
  cw_w : lightweightBitsWriter Sink;
  cw_current : Z
}.

Definition newCRC32Writer (w : lightweightBitsWriter Sink) : crc32Writer :=
  mkCRC32Writer w crc32Polynomial.

(** [Write] returns [len(p)] and the error of the bit writer. *)
Definition crc32Writer_Write (p : bytes) (c : crc32Writer)
  : (Z * option error) * crc32Writer :=
  let w' := WriteSlice p (cw_w c) in
  ((len p, Err_ w'), mkCRC32Writer w' (updateCRC32 (cw_current c) p)).

Definition Sum32 (c : crc32Writer) : Z := cw_current c.

(** The writer after a sequence of calls to [Write]. *)
Definition crc32Writer_Writes (ps : list bytes) (c : crc32Writer) : crc32Writer :=
  fold_left (fun c p => snd (crc32Writer_Write p c)) ps c.

End CRC32.

(** The bits a call hands to the writer. *)
Definition callBits (c : WriterCall) : Z :=
  match c with
  | CallWriteBit _ => 1
  | CallWriteBits _ n => Z.max 0 n
  | CallWriteByte _ => 8
  | CallWriteUint16 _ => 16
  | CallWriteUint32 _ => 32
  | CallWriteSlice inp => 8 * len inp
  end.

Definition callsBits (cs : list WriterCall) : Z :=
  fold_right (fun c acc => callBits c + acc) 0 cs.

(** Sample calls on a writer: 3 + 13 + 8 + 16 bits and two bytes, 56 bits
    in all; the call of a negative width contributes none. *)
Definition sample_account_calls : list WriterCall :=
  [CallWriteBits 5 3; CallWriteBits 4660 13; CallWriteByte 7; CallWriteBits 9 (-2);
   CallWriteUint16 258; CallWriteSlice [1; 2]].


(** * Properties *)

(** ** The bit writer: termination and latching of the first error *)

Section WriterLatch.

Context {Sink : Type} {SW : IoWriter Sink}.

Implicit Types w : lightweightBitsWriter Sink.

Local Ltac wsimpl := cbn [fst snd w_w w_cache w_cacheLen w_bsCache w_err].

Lemma flushBsCache_latched w e :
  w_err w = Some e -> flushBsCache w = w.
Proof.
  intros H. unfold flushBsCache. rewrite H. reflexivity.
Qed.

Lemma flushIfFull_latched w e :
  w_err w = Some e ->
  w_w (flushIfFull w) = w_w w /\ w_err (flushIfFull w) = Some e.
Proof.
  intros H. unfold flushIfFull.
  destruct (w_cacheLen w =? 8); [|auto].
  rewrite (@flushBsCache_latched _ e) by exact H. simpl. auto.
Qed.

Lemma WriteBit_latched bit w e :
  w_err w = Some e ->
  w_w (WriteBit bit w) = w_w w /\ w_err (WriteBit bit w) = Some e.
Proof.
  intros H. unfold WriteBit.
  match goal with |- context [flushIfFull ?x] => destruct (@flushIfFull_latched x e H) end.
  auto.
Qed.

Lemma WriteByte_latched b w e :
  w_err w = Some e ->
  w_w (WriteByte b w) = w_w w /\ w_err (WriteByte b w) = Some e.
Proof.
  intros H. unfold WriteByte.
  destruct (w_cacheLen w =? 0);
    rewrite (@flushBsCache_latched _ e) by exact H; simpl; auto.
Qed.

Lemma WriteSlice_latched inp w e :
  w_err w = Some e ->
  w_w (WriteSlice inp w) = w_w w /\ w_err (WriteSlice inp w) = Some e.
Proof.
  intros H. unfold WriteSlice.
  destruct inp as [|b inp]; [auto|].
  destruct (negb (w_cacheLen w =? 0)).
  - generalize (b :: inp). intros l. revert w H.
    induction l as [|x l IH]; intros w H; simpl; [auto|].
    destruct (WriteByte_latched x w H) as [Hs He].
    destruct (IH _ He) as [Hs' He']. rewrite Hs', Hs. auto.
  - rewrite H. auto.
Qed.

Lemma WriteBits_step_latched v n w e :
  w_err w = Some e ->
  w_w (snd (WriteBits_step v n w)) = w_w w /\
  w_err (snd (WriteBits_step v n w)) = Some e.
Proof.
  intros H. unfold WriteBits_step.
  destruct (w_cacheLen w =? 0).
  - destruct (n >=? 8); simpl; [|auto].
    rewrite (@flushBsCache_latched _ e) by exact H. simpl. auto.
  - simpl.
    match goal with |- context [flushIfFull ?x] => destruct (@flushIfFull_latched x e H) end.
    auto.
Qed.

Lemma WriteBits_loop_latched fuel v n w w' e :
  w_err w = Some e ->
  WriteBits_loop fuel v n w = Done w' ->
  w_w w' = w_w w /\ w_err w' = Some e.
Proof.
  revert n w. induction fuel as [|fuel IH]; intros n w H; simpl.
  - destruct (n >? 0); [discriminate|]. intros E. inversion E. subst. auto.
  - destruct (n >? 0).
    + destruct (WriteBits_step_latched v n w H) as [Hs He].
      destruct (WriteBits_step v n w) as [n1 w1]. simpl in *.
      intros E. destruct (IH _ _ He E) as [Hs' He']. rewrite Hs', Hs. auto.
    + intros E. inversion E. subst. auto.
Qed.

(** The turn that does not lower [n] is the one that finds the cache
    full; it empties it, so it happens at most once. *)
Definition cacheFull w : Z :=
  if w_cacheLen w =? 0 then 0 else if u8 (8 - w_cacheLen w) =? 0 then 1 else 0.

Lemma flushIfFull_cacheLen w :
  w_cacheLen (flushIfFull w) = if w_cacheLen w =? 8 then 0 else w_cacheLen w.
Proof.
  unfold flushIfFull. destruct (w_cacheLen w =? 8); reflexivity.
Qed.

Lemma WriteBits_step_progress v n w :
  0 < n ->
  fst (WriteBits_step v n w) + cacheFull (snd (WriteBits_step v n w))
  <= n + cacheFull w - 1 /\ 0 <= fst (WriteBits_step v n w).
Proof.
  intros Hn. unfold WriteBits_step, cacheFull at 2.
  destruct (w_cacheLen w =? 0) eqn:E0.
  - destruct (n >=? 8) eqn:E8; wsimpl.
    + unfold cacheFull, flushBsCache. wsimpl.
      destruct (w_err w); [|destruct (io_Write _ _)]; wsimpl; rewrite E0; lia.
    + unfold cacheFull. wsimpl. unfold u8.
      rewrite (Z.mod_small n 256) by lia.
      destruct (n =? 0) eqn:En; [lia|].
      rewrite (Z.mod_small (8 - n) 256) by lia.
      destruct (8 - n =? 0) eqn:E; lia.
  - wsimpl. unfold cacheFull. rewrite flushIfFull_cacheLen. wsimpl.
    set (cl := w_cacheLen w) in *. unfold u8.
    assert (Hf : 0 <= (8 - cl) mod 256 < 256) by (apply Z.mod_pos_bound; lia).
    set (free := (8 - cl) mod 256) in *.
    destruct (free =? 0) eqn:Ef.
    + apply Z.eqb_eq in Ef.
      assert (Hm : (if n >=? free then free else n) = 0)
        by (destruct (n >=? free) eqn:E; lia).
      rewrite Hm. rewrite Z.mod_0_l by lia. rewrite Z.add_0_r.
      assert (Hc : cl mod 256 = 8).
      { subst free. clear -Ef. Z.to_euclidean_division_equations. lia. }
      rewrite Hc. rewrite Z.eqb_refl. change (0 =? 0) with true. cbv iota. lia.
    + apply Z.eqb_neq in Ef.
      assert (Hm : 1 <= (if n >=? free then free else n) <= n)
        by (destruct (n >=? free) eqn:E; lia).
      set (m := if n >=? free then free else n) in *.
      set (c1 := (cl + m mod 256) mod 256).
      assert (Hc1 : 0 <= c1 < 256) by (apply Z.mod_pos_bound; lia).
      destruct (c1 =? 8) eqn:E8.
      * change (0 =? 0) with true. cbv iota. lia.
      * apply Z.eqb_neq in E8.
        destruct (c1 =? 0); [lia|].
        destruct ((8 - c1) mod 256 =? 0) eqn:E; [|lia].
        apply Z.eqb_eq in E. exfalso. apply E8.
        clear -E Hc1. Z.to_euclidean_division_equations. lia.
Qed.

Lemma WriteBits_loop_total fuel v n w :
  n + cacheFull w <= Z.of_nat fuel ->
  exists w', WriteBits_loop fuel v n w = Done w'.
Proof.
  revert n w. induction fuel as [|fuel IH]; intros n w H; simpl.
  - destruct (n >? 0) eqn:E; [|eauto].
    unfold cacheFull in H.
    destruct (w_cacheLen w =? 0); [lia|].
    destruct (u8 (8 - w_cacheLen w) =? 0); lia.
  - destruct (n >? 0) eqn:E; [|eauto].
    destruct (@WriteBits_step_progress v n w) as [Hp Hq]; [lia|].
    destruct (WriteBits_step v n w) as [n1 w1]. simpl in *.
    apply IH. lia.
Qed.

(** [WriteBits] returns for every width up to 64, whatever the state of
    the writer. *)
Lemma WriteBits_total v n w :
  n <= 64 -> exists w', WriteBits v n w = Done w'.
Proof.
  intros Hn. unfold WriteBits.
  destruct (64 <? n) eqn:E; [lia|].
  apply WriteBits_loop_total.
  assert (cacheFull w <= 1).
  { unfold cacheFull. destruct (w_cacheLen w =? 0); [lia|].
    destruct (u8 (8 - w_cacheLen w) =? 0); lia. }
  lia.
Qed.

Lemma WriteBits_latched v n w e :
  w_err w = Some e -> n <= 64 ->
  exists w', WriteBits v n w = Done w' /\ w_w w' = w_w w /\ w_err w' = Some e.
Proof.
  intros H Hn. destruct (@WriteBits_total v n w Hn) as [w' E].
  exists w'. split; [exact E|].
  unfold WriteBits in E. destruct (64 <? n); [discriminate|].
  eapply WriteBits_loop_latched; eauto.
Qed.

Lemma call_latched c w e :
  w_err w = Some e -> call_in_range c ->
  exists w', call c w = Done w' /\ w_w w' = w_w w /\ w_err w' = Some e.
Proof.
  intros H Hc. destruct c; simpl in *.
  - eexists. split; [reflexivity|]. apply WriteBit_latched; auto.
  - apply WriteBits_latched; auto.
  - eexists. split; [reflexivity|]. apply WriteByte_latched; auto.
  - apply WriteBits_latched; auto. lia.
  - apply WriteBits_latched; auto. lia.
  - eexists. split; [reflexivity|]. apply WriteSlice_latched; auto.
Qed.

(** C7. Once the writer holds an error of its sink, every further call
    ([WriteBit], [WriteBits], [WriteByte], [WriteUint16], [WriteUint32],
    [WriteSlice], and any sequence of them) returns, leaves the sink as it
    was, and [Err] still is that first error. *)
Theorem writer_latches_first_error (cs : list WriterCall) w e :
  Err_ w = Some e ->
  Forall call_in_range cs ->
  exists w', calls cs w = Done w' /\ w_w w' = w_w w /\ Err_ w' = Some e.
Proof.
  unfold Err_. revert w. induction cs as [|c cs IH]; intros w H Hcs; simpl.
  - eauto.
  - inversion Hcs as [|? ? Hc Hcs']; subst.
    destruct (call_latched c w H Hc) as [w1 [E [Hs He]]].
    rewrite E. destruct (IH w1 He Hcs') as [w2 [E2 [Hs2 He2]]].
    exists w2. rewrite Hs2, Hs. auto.
Qed.

(** The error is latched by the write that meets it. *)
Lemma flushBsCache_records_error w s' e :
  w_err w = None ->
  io_Write (w_w w) [w_bsCache w] = (s', Some e) ->
  Err_ (flushBsCache w) = Some e.
Proof.
  intros H E. unfold flushBsCache. rewrite H, E. reflexivity.
Qed.

End WriterLatch.

Lemma writer_latches_first_error_witness :
  Err_ latched_writer = Some (ErrSink 28) /\
  exists w',
    calls sample_calls latched_writer = Done w' /\
    w_w w' = w_w latched_writer /\ Err_ w' = Some (ErrSink 28).
Proof.
  split; [reflexivity|].
  apply (@writer_latches_first_error _ _ sample_calls latched_writer (ErrSink 28));
    [reflexivity | repeat constructor; simpl; lia].
Defined.

(** ** Reading with the iterator *)




Lemma NextByte_at i :
  0 <= offset i < len (bs i) ->
  NextByte i = (Ok (nth (Z.to_nat (offset i)) (bs i) 0), mkIter (bs i) (offset i + 1)).
Proof.
  intros H. unfold NextByte.
  destruct (Z.ltb_spec (len (bs i)) (offset i + 1)); [lia|].
  destruct (Z.ltb_spec (offset i) 0); [lia|]. reflexivity.
Qed.

(** ** Packets *)

(** C8. On a window whose first byte is not 0x47, [parsePacket] fails with
    [ErrPacketMustStartWithASyncByte] and has moved the cursor by exactly
    one byte. *)
Theorem parsePacket_sync_byte_missing (s : option PacketSkipper) (i : BytesIterator) :
  0 <= offset i < len (bs i) ->
  nth (Z.to_nat (offset i)) (bs i) 0 <> syncByte ->
  parsePacket s i
  = (Err ErrPacketMustStartWithASyncByte, mkIter (bs i) (offset i + 1)).
Proof.
  intros Hi Hb. unfold parsePacket, bind, wrap.
  rewrite (NextByte_at i Hi).
  destruct (Z.eqb_spec (nth (Z.to_nat (offset i)) (bs i) 0) syncByte) as [E|E];
    [contradiction|]. reflexivity.
Qed.

Lemma parsePacket_sync_byte_missing_witness :
  parsePacket None unsynced_input
  = (Err ErrPacketMustStartWithASyncByte, mkIter (bs unsynced_input) 1).
Proof.
  apply (@parsePacket_sync_byte_missing None unsynced_input).
  - vm_compute. split; [discriminate | reflexivity].
  - vm_compute. discriminate.
Defined.

(** C6, as the code has it: the splice countdown byte is converted with
    [int(b)], so 0xFF is parsed as 255 and not as -1. *)
Theorem spliceCountdown_0xFF_is_255 :
  exists a i',
    parsePacketAdaptationField splice_input = (Ok a, i') /\
    AF_HasSplicingCountdown a = true /\ AF_SpliceCountdown a = 255.
Proof.
  eexists. eexists. split; [vm_compute; reflexivity|]. split; reflexivity.
Qed.




(** ** The descriptor envelope *)

Lemma sub_length b lo n :
  0 <= lo -> 0 <= n -> lo + n <= len b -> len (sub b lo n) = n.
Proof.
  intros Hlo Hn H. unfold sub, len in *.
  rewrite length_firstn, length_skipn. lia.
Qed.

Lemma idx_sub b lo n k :
  0 <= lo -> (k < Z.to_nat n)%nat ->
  idx (sub b lo n) k = nth (Z.to_nat lo + k) b 0.
Proof.
  intros Hlo Hk. unfold idx, sub.
  rewrite nth_firstn. destruct (Nat.ltb_spec k (Z.to_nat n)); [|lia].
  apply nth_skipn.
Qed.

Lemma NextBytesNoCopy_at n i :
  0 <= offset i -> 0 <= n -> offset i + n <= len (bs i) ->
  NextBytesNoCopy n i = (Ok (sub (bs i) (offset i) n), mkIter (bs i) (offset i + n)).
Proof.
  intros Ho Hn H. unfold NextBytesNoCopy.
  destruct (Z.ltb_spec (len (bs i)) (offset i + n)); [lia|].
  destruct (Z.ltb_spec (offset i) 0); [lia|].
  destruct (Z.ltb_spec n 0); [lia|]. reflexivity.
Qed.

Lemma NextBytes_at n i :
  0 <= offset i -> 0 <= n -> offset i + n <= len (bs i) ->
  NextBytes n i = (Ok (sub (bs i) (offset i) n), mkIter (bs i) (offset i + n)).
Proof.
  intros Ho Hn H. unfold NextBytes.
  destruct (Z.ltb_spec (len (bs i)) (offset i + n)); [lia|].
  destruct (Z.ltb_spec n 0); [lia|].
  destruct (Z.ltb_spec (offset i) 0); [lia|]. reflexivity.
Qed.

(** The two bytes of the envelope. *)
Definition entryTag (i : BytesIterator) : byte := nth (Z.to_nat (offset i)) (bs i) 0.
Definition entryLength (i : BytesIterator) : byte := nth (Z.to_nat (offset i) + 1) (bs i) 0.

Lemma parseDescriptor_envelope i :
  0 <= offset i -> offset i + 2 <= len (bs i) ->
  parseDescriptor i
  = (let d := newDescriptor (entryTag i) (entryLength i) in
     let i1 := mkIter (bs i) (offset i + 2) in
     if entryLength i >? 0 then
       bind (parseDescriptorData d (offset i + 2 + entryLength i))
         (fun d' => bind (Seek (offset i + 2 + entryLength i)) (fun _ => ret d')) i1
     else (Ok d, i1)).
Proof.
  intros Ho H. unfold parseDescriptor, nextBytesNoCopy.
  unfold bind at 1. unfold wrap. rewrite NextBytesNoCopy_at by lia.
  rewrite !idx_sub by (simpl; lia).
  rewrite Nat.add_0_r. fold (entryTag i). fold (entryLength i).
  cbn [D_Length newDescriptor].
  destruct (entryLength i >? 0); reflexivity.
Qed.

Lemma loop_turn {A} fuel offsetEnd (body : A -> M A) acc acc' i i' :
  offset i < offsetEnd ->
  body acc i = (Ok acc', i') ->
  loop (S fuel) offsetEnd body acc i = loop fuel offsetEnd body acc' i'.
Proof.
  intros H E. cbn [loop].
  destruct (Z.ltb_spec (offset i) offsetEnd); [|lia].
  unfold bind. rewrite E. reflexivity.
Qed.

(** C9. An entry whose length byte is 0 takes the two bytes of the
    envelope and nothing else: the descriptor has its tag and a zero
    length, every variant field is nil, the cursor is not moved by a seek,
    and the next turn of the loop starts at the byte that follows. *)
Theorem zero_length_entry i :
  0 <= offset i -> offset i + 2 <= len (bs i) ->
  entryLength i = 0 ->
  let d := newDescriptor (entryTag i) 0 in
  let i1 := mkIter (bs i) (offset i + 2) in
  parseDescriptor i = (Ok d, i1) /\
  (forall fuel offsetEnd os,
     offset i < offsetEnd ->
     loop (S fuel) offsetEnd parseDescriptorsTurn os i
     = loop fuel offsetEnd parseDescriptorsTurn (os ++ [d]) i1).
Proof.
  intros Ho H Hl d i1.
  assert (E : parseDescriptor i = (Ok d, i1)).
  { rewrite parseDescriptor_envelope by assumption. rewrite Hl. reflexivity. }
  split; [exact E|].
  intros fuel offsetEnd os Hlt. apply loop_turn; [exact Hlt|].
  unfold parseDescriptorsTurn, bind. rewrite E. reflexivity.
Qed.

Lemma zero_length_entry_witness :
  parseDescriptor empty_entry_input
  = (Ok (newDescriptor 64 0), mkIter (bs empty_entry_input) 2) /\
  parseDescriptors (NewBytesIterator [240; 5; 64; 0; 82; 1; 204])
  = (Ok [newDescriptor 64 0;
         set_D_StreamIdentifier (mkDescriptorStreamIdentifier 204) (newDescriptor 82 1)],
     mkIter [240; 5; 64; 0; 82; 1; 204] 7).
Proof.
  split; [|vm_compute; reflexivity].
  apply (@zero_length_entry empty_entry_input); vm_compute; try reflexivity; discriminate.
Defined.

(** C4. Whatever the parser of the payload has read, and so in particular
    when it has read less than the declared length, the entry ends with
    the cursor at [start + 2 + declared length], and the next turn of the
    loop parses from there. *)
Theorem declared_length_wins i d i2 :
  0 <= offset i -> offset i + 2 <= len (bs i) ->
  0 < entryLength i ->
  parseDescriptorData (newDescriptor (entryTag i) (entryLength i))
    (offset i + 2 + entryLength i) (mkIter (bs i) (offset i + 2)) = (Ok d, i2) ->
  let i3 := mkIter (bs i2) (offset i + 2 + entryLength i) in
  parseDescriptor i = (Ok d, i3) /\
  (forall fuel offsetEnd os,
     offset i < offsetEnd ->
     loop (S fuel) offsetEnd parseDescriptorsTurn os i
     = loop fuel offsetEnd parseDescriptorsTurn (os ++ [d]) i3).
Proof.
  intros Ho H Hl E i3.
  assert (E' : parseDescriptor i = (Ok d, i3)).
  { rewrite parseDescriptor_envelope by assumption.
    destruct (Z.gtb_spec (entryLength i) 0); [|lia].
    cbv zeta. unfold bind at 1. rewrite E. reflexivity. }
  split; [exact E'|].
  intros fuel offsetEnd os Hlt. apply loop_turn; [exact Hlt|].
  unfold parseDescriptorsTurn, bind. rewrite E'. reflexivity.
Qed.

Lemma declared_length_wins_witness :
  (* the parser of the payload stops after one of the two declared bytes *)
  parseDescriptorData (newDescriptor 82 2) 4 (mkIter (bs overdeclared_input) 2)
  = (Ok overdeclared_descriptor, mkIter (bs overdeclared_input) 3) /\
  parseDescriptor overdeclared_input
  = (Ok overdeclared_descriptor, mkIter (bs overdeclared_input) 4).
Proof.
  assert (E : parseDescriptorData (newDescriptor 82 2) 4 (mkIter (bs overdeclared_input) 2)
              = (Ok overdeclared_descriptor, mkIter (bs overdeclared_input) 3))
    by (vm_compute; reflexivity).
  split; [exact E|].
  apply (@declared_length_wins overdeclared_input overdeclared_descriptor
           (mkIter (bs overdeclared_input) 3)).
  - vm_compute. discriminate.
  - vm_compute. discriminate.
  - vm_compute. reflexivity.
  - exact E.
Defined.

(** ** How many bits a healthy writer takes *)

Section WriterCount.

Implicit Types w : lightweightBitsWriter BufferSink.

Local Ltac wsimpl := cbn [fst snd w_w w_cache w_cacheLen w_bsCache w_err].

Lemma len_app {A} (l1 l2 : list A) : len (l1 ++ l2) = len l1 + len l2.
Proof. unfold len. rewrite length_app. lia. Qed.

Lemma len_nonneg {A} (l : list A) : 0 <= len l.
Proof. unfold len. lia. Qed.

Lemma extends_refl w : extends w w.
Proof. exists []. rewrite app_nil_r. reflexivity. Qed.

Lemma extends_same w w' : w_w w' = w_w w -> extends w w'.
Proof. intros H. exists []. rewrite app_nil_r. exact H. Qed.

Lemma extends_trans w1 w2 w3 : extends w1 w2 -> extends w2 w3 -> extends w1 w3.
Proof.
  intros [o1 H1] [o2 H2]. exists (o1 ++ o2). rewrite H2, H1, app_assoc. reflexivity.
Qed.

Lemma flushBsCache_buffer w :
  w_err w = None ->
  flushBsCache w
  = mkWriter (w_w w ++ [w_bsCache w]) (w_cache w) (w_cacheLen w) (w_bsCache w) None.
Proof.
  intros H. unfold flushBsCache. rewrite H. reflexivity.
Qed.

Lemma flushIfFull_adv w :
  w_err w = None -> 0 <= w_cacheLen w <= 8 ->
  healthy (flushIfFull w) /\ bitpos (flushIfFull w) = bitpos w /\ extends w (flushIfFull w).
Proof.
  intros He Hc. unfold flushIfFull.
  destruct (Z.eqb_spec (w_cacheLen w) 8) as [E|E].
  - rewrite flushBsCache_buffer by exact He. wsimpl.
    unfold healthy, bitpos, extends. wsimpl. rewrite len_app.
    change (len [w_cache w]) with 1.
    repeat split; try lia. eexists. reflexivity.
  - unfold healthy. repeat split; try assumption; try lia. apply extends_refl.
Qed.

Lemma WriteBit_adv bit w :
  healthy w ->
  healthy (WriteBit bit w) /\ bitpos (WriteBit bit w) = bitpos w + 1 /\
  extends w (WriteBit bit w).
Proof.
  intros [He Hc]. unfold WriteBit.
  match goal with |- context [flushIfFull ?x] =>
    destruct (flushIfFull_adv x) as [H1 [H2 H3]]
  end.
  - exact He.
  - wsimpl. unfold u8. rewrite Z.mod_small by lia. lia.
  - split; [exact H1|]. split; [|exact H3].
    rewrite H2. unfold bitpos. wsimpl. unfold u8. rewrite Z.mod_small by lia. lia.
Qed.

Lemma WriteByte_adv b w :
  healthy w ->
  healthy (WriteByte b w) /\ bitpos (WriteByte b w) = bitpos w + 8 /\
  extends w (WriteByte b w).
Proof.
  intros [He Hc]. unfold WriteByte.
  destruct (w_cacheLen w =? 0); rewrite flushBsCache_buffer by exact He;
    unfold healthy, bitpos, extends; wsimpl; rewrite len_app;
    match goal with |- context [len [?x]] => change (len [x]) with 1 end;
    (repeat split; try lia; eexists; reflexivity).
Qed.

Lemma WriteBytes_adv inp w :
  healthy w ->
  let w' := fold_left (fun w b => WriteByte b w) inp w in
  healthy w' /\ bitpos w' = bitpos w + 8 * len inp /\ extends w w'.
Proof.
  revert w. induction inp as [|b inp IH]; intros w H; cbn [fold_left].
  - change (len (@nil byte)) with 0. repeat split; try apply H; try lia. apply extends_refl.
  - destruct (WriteByte_adv b H) as [H1 [H2 H3]].
    destruct (IH _ H1) as [H4 [H5 H6]].
    split; [exact H4|]. split; [|eapply extends_trans; eauto].
    rewrite H5, H2. change (b :: inp) with ([b] ++ inp). rewrite len_app.
    change (len [b]) with 1. lia.
Qed.

Lemma WriteSlice_adv inp w :
  healthy w ->
  healthy (WriteSlice inp w) /\ bitpos (WriteSlice inp w) = bitpos w + 8 * len inp /\
  extends w (WriteSlice inp w).
Proof.
  intros H. unfold WriteSlice.
  destruct inp as [|b inp].
  - change (len (@nil byte)) with 0. repeat split; try apply H; try lia. apply extends_refl.
  - destruct (negb (w_cacheLen w =? 0)).
    + apply WriteBytes_adv. exact H.
    + destruct H as [He Hc]. rewrite He.
      unfold healthy, bitpos, extends, io_Write, BufferSink_IoWriter. wsimpl.
      rewrite len_app. repeat split; try lia. eexists. reflexivity.
Qed.

Lemma WriteBits_step_adv v n w :
  healthy w -> 0 < n ->
  healthy (snd (WriteBits_step v n w)) /\
  bitpos (snd (WriteBits_step v n w)) + fst (WriteBits_step v n w) = bitpos w + n /\
  0 <= fst (WriteBits_step v n w) < n /\
  extends w (snd (WriteBits_step v n w)).
Proof.
  intros [He Hc] Hn. unfold WriteBits_step.
  destruct (Z.eqb_spec (w_cacheLen w) 0) as [E0|E0].
  - destruct (Z.geb_spec n 8) as [E8|E8]; wsimpl.
    + rewrite flushBsCache_buffer by exact He.
      unfold healthy, bitpos, extends. wsimpl. rewrite len_app.
      match goal with |- context [len [?x]] => change (len [x]) with 1 end.
      repeat split; try lia. eexists. reflexivity.
    + unfold healthy, bitpos. wsimpl. unfold u8. rewrite !(Z.mod_small n 256) by lia.
      repeat split; try lia; try assumption. apply extends_same. reflexivity.
  - wsimpl. unfold u8. rewrite (Z.mod_small (8 - w_cacheLen w)) by lia.
    set (free := 8 - w_cacheLen w) in *.
    set (m := if n >=? free then free else n).
    assert (Hm : 1 <= m <= n /\ m <= free).
    { subst m. destruct (Z.geb_spec n free); lia. }
    rewrite (Z.mod_small m) by lia.
    rewrite (Z.mod_small (w_cacheLen w + m)) by lia.
    match goal with |- context [flushIfFull ?x] =>
      destruct (flushIfFull_adv x) as [H1 [H2 H3]]
    end.
    + exact He.
    + wsimpl. lia.
    + split; [exact H1|]. split; [|split; [lia|exact H3]].
      rewrite H2. unfold bitpos. wsimpl. lia.
Qed.

Lemma WriteBits_loop_adv fuel v n w :
  healthy w -> 0 <= n <= Z.of_nat fuel ->
  exists w',
    WriteBits_loop fuel v n w = Done w' /\
    healthy w' /\ bitpos w' = bitpos w + n /\ extends w w'.
Proof.
  revert n w. induction fuel as [|fuel IH]; intros n w H Hn; cbn [WriteBits_loop].
  - destruct (Z.gtb_spec n 0); [lia|].
    exists w. repeat split; try apply H; try lia. apply extends_refl.
  - destruct (Z.gtb_spec n 0) as [E|E].
    + destruct (@WriteBits_step_adv v n w H E) as [H1 [H2 [H3 H4]]].
      destruct (WriteBits_step v n w) as [n1 w1]. cbn [fst snd] in *.
      destruct (IH n1 w1 H1) as [w' [E' [H5 [H6 H7]]]]; [lia|].
      exists w'. split; [exact E'|]. split; [exact H5|].
      split; [lia | eapply extends_trans; eauto].
    + exists w. repeat split; try apply H; try lia. apply extends_refl.
Qed.

Lemma WriteBits_adv v n w :
  healthy w -> 0 <= n <= 64 ->
  exists w',
    WriteBits v n w = Done w' /\
    healthy w' /\ bitpos w' = bitpos w + n /\ extends w w'.
Proof.
  intros H Hn. unfold WriteBits.
  destruct (Z.ltb_spec 64 n); [lia|].
  apply WriteBits_loop_adv; [exact H | lia].
Qed.

(** The same, for the functions of the writer monad. *)









End WriterCount.

(** ** Writing a packet *)

Section PacketCount.



















End PacketCount.

(** ** Descriptors whose written form disagrees with the computed length *)

(** C2, as the code has it: [calcDescriptorVBIDataLength] counts three
    bytes for each service, but [writeDescriptorVBIData] writes two bytes
    and one more for each descriptor of the service.  For a service with
    two descriptors, as the parser itself produces from
    [45 04 01 02 E5 C6], the length byte written is 3, the payload has 4
    bytes, and [writeDescriptor] returns 5 after 6 bytes went out. *)
Theorem vbiData_length_disagrees :
  fst (parseDescriptors (NewBytesIterator vbi_two_lines_wire)) = Ok [vbi_two_lines] /\
  calcDescriptorLength vbi_two_lines = Done 3 /\
  exists w',
    writeDescriptor vbi_two_lines fresh_writer = Done ((5, None), w') /\
    w_w w' = [69; 3; 1; 2; 229; 198] /\
    len (w_w w') <> 2 + 3.
Proof.
  split; [vm_compute; reflexivity|]. split; [vm_compute; reflexivity|].
  eexists. split; [vm_compute; reflexivity|]. split; [reflexivity|].
  vm_compute. discriminate.
Qed.

(** C5, as the code has it: the parser takes the two bytes before the type
    as the language, but the writer writes [d.Language[:3]] and a length
    of 4.  On the parsed descriptor the third byte is the type byte, still
    in the array behind the language, so [0A 03 66 72 01] goes out as
    [0A 04 66 72 01 01], and parses back with a three-byte language; on a
    two-byte language in an array of its own the slice expression
    panics. *)
Theorem iso639_short_language_not_preserved :
  fst (parseDescriptors (NewBytesIterator iso639_short_wire)) = Ok [iso639_short] /\
  (exists w',
     writeDescriptor iso639_short fresh_writer = Done ((6, None), w') /\
     w_w w' = [10; 4; 102; 114; 1; 1] /\
     exists d', fst (parseDescriptors (NewBytesIterator ([240; 6] ++ w_w w'))) = Ok [d'] /\
       option_map (fun x => elems (ISO639_Language x)) (D_ISO639LanguageAndAudioType d')
       = Some [102; 114; 1]) /\
  writeDescriptor iso639_short_fresh fresh_writer = Abort IndexOutOfRange.
Proof.
  split; [vm_compute; reflexivity|]. split; [|vm_compute; reflexivity].
  eexists. split; [vm_compute; reflexivity|]. split; [reflexivity|].
  eexists. split; vm_compute; reflexivity.
Qed.

(** ** What the descriptor writers emit *)

Section EmitsLemmas.

Lemma Emits_ret {A} (a : A) : Emits (wret a) a [].
Proof. intros s c. exists c. unfold wret. rewrite app_nil_r. reflexivity. Qed.

Lemma Emits_err : Emits (@werr BufferSink) None [].
Proof. intros s c. exists c. unfold werr. rewrite app_nil_r. reflexivity. Qed.

Lemma Emits_calc {A} (a : A) : Emits (wcalc (Done a)) a [].
Proof. intros s c. exists c. unfold wcalc. rewrite app_nil_r. reflexivity. Qed.

Lemma Emits_bind {A B} (m : Wr BufferSink A) (k : A -> Wr BufferSink B) a b o1 o2 :
  Emits m a o1 -> Emits (k a) b o2 -> Emits (wbind m k) b (o1 ++ o2).
Proof.
  intros Hm Hk s c. destruct (Hm s c) as [c1 E1].
  destruct (Hk (s ++ o1) c1) as [c2 E2].
  exists c2. unfold wbind. rewrite E1. cbv beta iota. rewrite app_assoc. exact E2.
Qed.

Lemma Emits_byte b : Emits (wbyte b) tt [b].
Proof. intros s c. exists b. reflexivity. Qed.

Lemma Emits_slice inp : Emits (wslice inp) tt inp.
Proof.
  intros s c. exists c. unfold wslice, wdo, WriteSlice.
  destruct inp; [rewrite app_nil_r|]; reflexivity.
Qed.

Lemma Emits_slice3 x a b c :
  elems x = [a; b; c] -> Emits (wslice3 x) tt [a; b; c].
Proof.
  intros E. unfold wslice3, reslice_to, slice_cap. rewrite E.
  change (len [a; b; c]) with 3.
  pose proof (len_nonneg (spare x)).
  destruct (Z.ltb_spec (3 + len (spare x)) 3); [lia|].
  cbn [Z.ltb Z.compare orb elems firstn Z.to_nat Pos.to_nat Pos.iter_op Nat.add app].
  apply Emits_slice.
Qed.

Lemma Emits_for {A} (xs : list A) (body : A -> Wr BufferSink unit) (enc : A -> bytes) :
  (forall x, In x xs -> Emits (body x) tt (enc x)) ->
  Emits (wfor xs body) tt (flat_map enc xs).
Proof.
  induction xs as [|x xs IH]; intros H; cbn [wfor flat_map].
  - apply Emits_ret.
  - eapply Emits_bind; [apply H; left; reflexivity|].
    apply IH. intros y Hy. apply H. right. exact Hy.
Qed.

(** Continuation forms, one for each write or group of writes that fills
    whole bytes. *)

Lemma Emits_then {A} (m : Wr BufferSink unit) (k : Wr BufferSink A) o1 r out :
  Emits m tt o1 -> Emits k r out -> Emits (wbind m (fun _ => k)) r (o1 ++ out).
Proof. intros Hm Hk. eapply Emits_bind; eauto. Qed.

Local Ltac group B :=
  let H := fresh in let s := fresh in let c := fresh in let c' := fresh in
  let E := fresh in
  intros H s c; destruct (H (s ++ [B]) B) as [c' E]; exists c';
  rewrite <- app_assoc in E; exact E.

Lemma Emits_4flags {A} a b c d (k : Wr BufferSink A) r out :
  Emits k r out ->
  Emits (wbind (wbit a) (fun _ => wbind (wbit b) (fun _ => wbind (wbit c) (fun _ =>
         wbind (wbit d) (fun _ => wbind (wbits 255 4) (fun _ => k))))))
    r (byte_4flags a b c d :: out).
Proof. group (byte_4flags a b c d). Qed.

Lemma Emits_3flags_5 {A} a b c v (k : Wr BufferSink A) r out :
  Emits k r out ->
  Emits (wbind (wbit a) (fun _ => wbind (wbit b) (fun _ => wbind (wbit c) (fun _ =>
         wbind (wbits v 5) (fun _ => k)))))
    r (byte_3flags_5 a b c v :: out).
Proof. group (byte_3flags_5 a b c v). Qed.

Lemma Emits_2flags {A} a b (k : Wr BufferSink A) r out :
  Emits k r out ->
  Emits (wbind (wbit a) (fun _ => wbind (wbit b) (fun _ =>
         wbind (wbits 255 6) (fun _ => k))))
    r (byte_2flags a b :: out).
Proof. group (byte_2flags a b). Qed.

Lemma Emits_nibbles {A} a b (k : Wr BufferSink A) r out :
  Emits k r out ->
  Emits (wbind (wbits a 4) (fun _ => wbind (wbits b 4) (fun _ => k)))
    r (byte_nibbles a b :: out).
Proof. group (byte_nibbles a b). Qed.

Lemma Emits_8flags {A} a b c d e f g h (k : Wr BufferSink A) r out :
  Emits k r out ->
  Emits (wbind (wbit a) (fun _ => wbind (wbit b) (fun _ => wbind (wbit c) (fun _ =>
         wbind (wbit d) (fun _ => wbind (wbit e) (fun _ => wbind (wbit f) (fun _ =>
         wbind (wbit g) (fun _ => wbind (wbit h) (fun _ => k)))))))))
    r (flags8 a b c d e f g h :: out).
Proof. group (flags8 a b c d e f g h). Qed.

Lemma Emits_supplementary {A} m v h (k : Wr BufferSink A) r out :
  Emits k r out ->
  Emits (wbind (wbit m) (fun _ => wbind (wbits v 5) (fun _ => wbind (wbit true) (fun _ =>
         wbind (wbit h) (fun _ => k)))))
    r (byte_supplementary m v h :: out).
Proof. group (byte_supplementary m v h). Qed.

Lemma Emits_5_3 {A} t m (k : Wr BufferSink A) r out :
  Emits k r out ->
  Emits (wbind (wbits t 5) (fun _ => wbind (wbits m 3) (fun _ => k)))
    r (byte_5_3 t m :: out).
Proof. group (byte_5_3 t m). Qed.

Lemma Emits_vbi {A} p v (k : Wr BufferSink A) r out :
  Emits k r out ->
  Emits (wbind (wbits 255 2) (fun _ => wbind (wbit p) (fun _ =>
         wbind (wbits v 5) (fun _ => k))))
    r (byte_vbi p v :: out).
Proof. group (byte_vbi p v). Qed.

Lemma Emits_16 v : Emits (wbits v 16) tt (bytes_16 v).
Proof.
  intros s c. exists (nth 1 (bytes_16 v) 0).
  change (s ++ bytes_16 v)
    with (s ++ [nth 0 (bytes_16 v) 0] ++ [nth 1 (bytes_16 v) 0]).
  rewrite app_assoc. reflexivity.
Qed.

Lemma Emits_32 v : Emits (wbits v 32) tt (bytes_32 v).
Proof.
  intros s c. exists (nth 3 (bytes_32 v) 0).
  change (s ++ bytes_32 v)
    with (s ++ [nth 0 (bytes_32 v) 0] ++ [nth 1 (bytes_32 v) 0]
            ++ [nth 2 (bytes_32 v) 0] ++ [nth 3 (bytes_32 v) 0]).
  rewrite !app_assoc. reflexivity.
Qed.

Lemma Emits_2_22 {A} v (k : Wr BufferSink A) r out :
  Emits k r out ->
  Emits (wbind (wbits 255 2) (fun _ => wbind (wbits v 22) (fun _ => k)))
    r (bytes_2_22 v ++ out).
Proof.
  intros H s c.
  set (b0 := nth 0 (bytes_2_22 v) 0). set (b1 := nth 1 (bytes_2_22 v) 0).
  set (b2 := nth 2 (bytes_2_22 v) 0).
  destruct (H (((s ++ [b0]) ++ [b1]) ++ [b2]) b2) as [c' E].
  assert (X : (((s ++ [b0]) ++ [b1]) ++ [b2]) ++ out = s ++ bytes_2_22 v ++ out)
    by (rewrite <- !app_assoc; reflexivity).
  exists c'. rewrite <- X. exact E.
Qed.

Lemma Emits_4_12 {A} v (k : Wr BufferSink A) r out :
  Emits k r out ->
  Emits (wbind (wbits 255 4) (fun _ => wbind (wbits v 12) (fun _ => k)))
    r (bytes_4_12 v ++ out).
Proof.
  intros H s c.
  set (b0 := nth 0 (bytes_4_12 v) 0). set (b1 := nth 1 (bytes_4_12 v) 0).
  destruct (H ((s ++ [b0]) ++ [b1]) b1) as [c' E].
  assert (X : ((s ++ [b0]) ++ [b1]) ++ out = s ++ bytes_4_12 v ++ out)
    by (rewrite <- !app_assoc; reflexivity).
  exists c'. rewrite <- X. exact E.
Qed.

End EmitsLemmas.

(** ** What the descriptor parsers consume *)

Section ConsumesLemmas.

Lemma len_cons {A} (x : A) (l : list A) : len (x :: l) = 1 + len l.
Proof. unfold len. cbn [List.length]. lia. Qed.

Lemma len_nil {A} : len (@nil A) = 0.
Proof. reflexivity. Qed.

Lemma Reads_room i inp rest :
  Reads i (inp ++ rest) -> offset i + len inp <= len (bs i).
Proof.
  intros [Ho Hs].
  assert (E : List.length (skipn (Z.to_nat (offset i)) (bs i))
              = List.length (inp ++ rest)) by (rewrite Hs; reflexivity).
  rewrite length_skipn, length_app in E. unfold len in *. lia.
Qed.

Lemma Reads_advance i i' inp rest :
  Reads i (inp ++ rest) -> bs i' = bs i -> offset i' = offset i + len inp ->
  Reads i' rest.
Proof.
  intros H Hb Hoff. pose proof (@Reads_room _ _ _ H) as Hr.
  destruct H as [Ho Hs]. pose proof (len_nonneg inp) as Hl.
  split; [rewrite Hb; lia|].
  rewrite Hb, Hoff.
  replace (Z.to_nat (offset i + len inp))
    with (List.length inp + Z.to_nat (offset i))%nat by (unfold len; lia).
  rewrite <- skipn_skipn, Hs, skipn_app, skipn_all, Nat.sub_diag. reflexivity.
Qed.

Lemma Reads_head i b rest :
  Reads i (b :: rest) -> nth (Z.to_nat (offset i)) (bs i) 0 = b.
Proof.
  intros [Ho Hs].
  replace (Z.to_nat (offset i)) with (Z.to_nat (offset i) + 0)%nat by lia.
  rewrite <- nth_skipn, Hs. reflexivity.
Qed.

Lemma Reads_sub i inp rest :
  Reads i (inp ++ rest) -> sub (bs i) (offset i) (len inp) = inp.
Proof.
  intros [Ho Hs]. unfold sub. rewrite Hs. unfold len. rewrite Nat2Z.id.
  rewrite firstn_app, firstn_all, Nat.sub_diag. cbn [firstn]. apply app_nil_r.
Qed.

Lemma Consumes_ret {A} (a : A) i : Consumes (ret a) i [] a.
Proof.
  intros rest H. exists i. rewrite len_nil. repeat split. lia.
Qed.

Lemma Consumes_bind {A B} (m : M A) (k : A -> M B) i inp1 inp2 a b :
  Consumes m i inp1 a ->
  (forall i', bs i' = bs i -> offset i' = offset i + len inp1 ->
              Consumes (k a) i' inp2 b) ->
  Consumes (bind m k) i (inp1 ++ inp2) b.
Proof.
  intros Hm Hk rest H. rewrite <- app_assoc in H.
  destruct (Hm _ H) as [i1 [E1 [Hb1 Ho1]]].
  destruct (Hk i1 Hb1 Ho1 rest (@Reads_advance _ _ _ _ H Hb1 Ho1)) as [i2 [E2 [Hb2 Ho2]]].
  exists i2. unfold bind. rewrite E1. split; [exact E2|].
  split; [congruence|]. rewrite len_app. lia.
Qed.

Lemma Consumes_wrap {A} s (m : M A) i inp a :
  Consumes m i inp a -> Consumes (wrap s m) i inp a.
Proof.
  intros Hm rest H. destruct (Hm rest H) as [i' [E R]].
  exists i'. unfold wrap. rewrite E. auto.
Qed.

Lemma Consumes_NextByte i b : Consumes NextByte i [b] b.
Proof.
  intros rest H. pose proof (@Reads_room _ _ _ H) as Hr. rewrite len_cons, len_nil in *.
  exists (mkIter (bs i) (offset i + 1)).
  rewrite NextByte_at by (destruct H; lia).
  rewrite (@Reads_head _ _ _ H). auto.
Qed.

Lemma Consumes_NextBytes i n xs : n = len xs -> Consumes (NextBytes n) i xs xs.
Proof.
  intros -> rest H. pose proof (@Reads_room _ _ _ H) as Hr.
  pose proof (len_nonneg xs).
  exists (mkIter (bs i) (offset i + len xs)).
  rewrite NextBytes_at by (destruct H; lia).
  rewrite (@Reads_sub _ _ _ H). auto.
Qed.

Lemma Consumes_NextBytesNoCopy i n xs :
  n = len xs -> Consumes (NextBytesNoCopy n) i xs xs.
Proof.
  intros -> rest H. pose proof (@Reads_room _ _ _ H) as Hr.
  pose proof (len_nonneg xs).
  exists (mkIter (bs i) (offset i + len xs)).
  rewrite NextBytesNoCopy_at by (destruct H; lia).
  rewrite (@Reads_sub _ _ _ H). auto.
Qed.

Lemma Consumes_GetOffset i : Consumes GetOffset i [] (offset i).
Proof.
  intros rest H. exists i. rewrite len_nil. repeat split. lia.
Qed.

Lemma Consumes_Seek i n : n = offset i -> Consumes (Seek n) i [] tt.
Proof.
  intros -> rest H. exists (mkIter (bs i) (offset i)). rewrite len_nil.
  repeat split. cbn [offset]. lia.
Qed.

Lemma Consumes_nextByte i b : Consumes nextByte i [b] b.
Proof. apply Consumes_wrap, Consumes_NextByte. Qed.

Lemma Consumes_nextBytes i n xs : n = len xs -> Consumes (nextBytes n) i xs xs.
Proof. intros. apply Consumes_wrap, Consumes_NextBytes. assumption. Qed.

Lemma Consumes_nextBytesNoCopy i n xs :
  n = len xs -> Consumes (nextBytesNoCopy n) i xs xs.
Proof. intros. apply Consumes_wrap, Consumes_NextBytesNoCopy. assumption. Qed.

Lemma Consumes_nextBytesUntil i offsetEnd xs :
  offsetEnd = offset i + len xs -> Consumes (nextBytesUntil offsetEnd) i xs xs.
Proof.
  intros E. unfold nextBytesUntil.
  change xs with ([] ++ xs) at 1. eapply Consumes_bind; [apply Consumes_GetOffset|].
  intros i' Hb Ho. apply Consumes_nextBytes. rewrite len_nil in Ho. lia.
Qed.

Lemma Consumes_restUntil i offsetEnd xs :
  offsetEnd = offset i + len xs -> Consumes (restUntil offsetEnd) i xs xs.
Proof.
  intros E. unfold restUntil.
  change xs with ([] ++ xs) at 1. eapply Consumes_bind; [apply Consumes_GetOffset|].
  intros i' Hb Ho. rewrite len_nil in Ho.
  destruct (Z.ltb_spec (offset i) offsetEnd).
  - apply Consumes_nextBytes. lia.
  - assert (xs = []) as ->.
    { pose proof (len_nonneg xs). destruct xs; [reflexivity|].
      rewrite len_cons in *. pose proof (len_nonneg xs). lia. }
    apply Consumes_ret.
Qed.

Lemma Consumes_eq {A} (m : M A) i inp inp' a a' :
  Consumes m i inp a -> inp = inp' -> a = a' -> Consumes m i inp' a'.
Proof. intros H -> ->. exact H. Qed.

Lemma Consumes_loop_done {A} fuel offsetEnd (body : A -> M A) acc i :
  offsetEnd <= offset i -> Consumes (loop fuel offsetEnd body acc) i [] acc.
Proof.
  intros Hend rest H. exists i. rewrite len_nil.
  destruct fuel; cbn [loop];
    (destruct (Z.ltb_spec (offset i) offsetEnd); [lia|]); repeat split; lia.
Qed.

Lemma Consumes_loop_turn {A} fuel offsetEnd (body : A -> M A) acc i inp a :
  offset i < offsetEnd ->
  Consumes (bind (body acc) (loop fuel offsetEnd body)) i inp a ->
  Consumes (loop (S fuel) offsetEnd body acc) i inp a.
Proof.
  intros Hlt Hc rest H. cbn [loop].
  destruct (Z.ltb_spec (offset i) offsetEnd); [|lia]. exact (Hc rest H).
Qed.

(** The loops: each turn consumes the encoding of one item and appends
    what it decodes to. *)
Lemma Consumes_loop {A X} (enc : X -> bytes) (dec : X -> A) (body : list A -> M (list A))
  offsetEnd (xs : list X) :
  (forall x, In x xs -> 0 < len (enc x)) ->
  (forall x acc i, In x xs -> Consumes (body acc) i (enc x) (acc ++ [dec x])) ->
  forall fuel acc i,
    offsetEnd = offset i + len (flat_map enc xs) ->
    len (flat_map enc xs) <= Z.of_nat fuel ->
    Consumes (loop fuel offsetEnd body acc) i (flat_map enc xs) (acc ++ map dec xs).
Proof.
  intros Hpos Hbody. induction xs as [|x xs IH]; intros fuel acc i Hend Hfuel.
  - cbn [flat_map map] in *. rewrite len_nil in *. rewrite app_nil_r.
    apply Consumes_loop_done. lia.
  - cbn [flat_map map] in *. rewrite len_app in *.
    assert (Hx : 0 < len (enc x)) by (apply Hpos; left; reflexivity).
    pose proof (len_nonneg (flat_map enc xs)) as Hl.
    destruct fuel as [|fuel]; [lia|].
    apply Consumes_loop_turn; [lia|].
    eapply Consumes_eq.
    + eapply Consumes_bind.
      * apply Hbody. left. reflexivity.
      * intros i' Hb Ho. apply IH.
        -- intros y Hy. apply Hpos. right. exact Hy.
        -- intros y acc' i'' Hy. apply Hbody. right. exact Hy.
        -- lia.
        -- lia.
    + reflexivity.
    + rewrite <- app_assoc. reflexivity.
Qed.

Lemma Consumes_for_offset {A X} (enc : X -> bytes) (dec : X -> A)
  (body : list A -> M (list A)) offsetEnd (xs : list X) acc i :
  (forall x, In x xs -> 0 < len (enc x)) ->
  (forall x acc i, In x xs -> Consumes (body acc) i (enc x) (acc ++ [dec x])) ->
  offsetEnd = offset i + len (flat_map enc xs) ->
  Consumes (for_offset offsetEnd body acc) i (flat_map enc xs) (acc ++ map dec xs).
Proof.
  intros Hpos Hbody Hend. unfold for_offset.
  apply Consumes_loop; auto.
  pose proof (len_nonneg (flat_map enc xs)). lia.
Qed.

End ConsumesLemmas.

(** ** Arithmetic of the bytes that bit writes put together *)

Unset Implicit Arguments.

Section BitArithmetic.

Lemma range_forallb (f : Z -> bool) (n : nat) :
  forallb f (map Z.of_nat (seq 0 n)) = true ->
  forall v, 0 <= v < Z.of_nat n -> f v = true.
Proof.
  intros H v Hv. rewrite forallb_forall in H. apply H.
  apply in_map_iff. exists (Z.to_nat v). split; [lia|].
  apply in_seq. lia.
Qed.

Lemma land_ones_small v n : 0 <= n -> 0 <= v < 2 ^ n -> Z.land v (Z.ones n) = v.
Proof. intros Hn Hv. rewrite Z.land_ones by exact Hn. apply Z.mod_small. exact Hv. Qed.

Lemma u8_shiftr v k : 0 <= k -> u8 (Z.shiftr v k) = (v / 2 ^ k) mod 256.
Proof. intros Hk. unfold u8. rewrite Z.shiftr_div_pow2 by exact Hk. reflexivity. Qed.

Lemma lor_shiftl_add hi lo n :
  0 <= n -> 0 <= lo < 2 ^ n -> Z.lor (Z.shiftl hi n) lo = hi * 2 ^ n + lo.
Proof.
  intros Hn Hlo.
  assert (E : Z.land (Z.shiftl hi n) lo = 0).
  { apply Z.bits_inj'. intros i Hi. rewrite Z.land_spec, Z.bits_0.
    destruct (Z.ltb_spec i n).
    - rewrite Z.shiftl_spec_low by lia. reflexivity.
    - assert (Z.testbit lo i = false) as ->; [|apply andb_false_r].
      destruct (Z.eq_dec lo 0) as [->|Hz]; [apply Z.bits_0|].
      apply Z.bits_above_log2; [lia|].
      apply Z.log2_lt_pow2; [lia|].
      apply Z.lt_le_trans with (2 ^ n); [lia|].
      apply Z.pow_le_mono_r; lia. }
  rewrite <- Z.lxor_lor by exact E.
  rewrite <- Z.add_nocarry_lxor by exact E.
  rewrite Z.shiftl_mul_pow2 by exact Hn. reflexivity.
Qed.

(** Reading back the two bytes of a 16-bit write and the four of a 32-bit
    write. *)
Lemma be16_bytes_16 v : 0 <= v < 65536 -> be16 (bytes_16 v) = v.
Proof.
  intros Hv. unfold be16, bytes_16, idx. cbv zeta. cbn [nth].
  rewrite land_ones_small by lia. rewrite !u8_shiftr by lia.
  rewrite lor_shiftl_add by (try apply Z.mod_pos_bound; lia).
  change (2 ^ 8) with 256. change (2 ^ 0) with 1.
  Z.to_euclidean_division_equations. lia.
Qed.

Lemma be32_bytes_32 v : 0 <= v < 4294967296 -> be32 (bytes_32 v) = v.
Proof.
  intros Hv. unfold be32, bytes_32, idx. cbv zeta. cbn [nth].
  rewrite land_ones_small by lia. rewrite !u8_shiftr by lia.
  change (2 ^ 24) with 16777216. change (2 ^ 16) with 65536.
  change (2 ^ 8) with 256. change (2 ^ 0) with 1.
  assert (H0 : 0 <= (v / 1) mod 256 < 2 ^ 8) by (apply Z.mod_pos_bound; lia).
  assert (H1 : 0 <= (v / 256) mod 256 < 256) by (apply Z.mod_pos_bound; lia).
  assert (H2 : 0 <= (v / 65536) mod 256 < 256) by (apply Z.mod_pos_bound; lia).
  rewrite (lor_shiftl_add ((v / 256) mod 256) ((v / 1) mod 256) 8) by lia.
  change (2 ^ 8) with 256 in *.
  rewrite (lor_shiftl_add ((v / 65536) mod 256) _ 16) by (change (2 ^ 16) with 65536; lia).
  rewrite (lor_shiftl_add ((v / 16777216) mod 256) _ 24)
    by (change (2 ^ 24) with 16777216; lia).
  change (2 ^ 24) with 16777216. change (2 ^ 16) with 65536.
  Z.to_euclidean_division_equations. lia.
Qed.

Lemma low_bits_under_mask (top mask : Z) (n : nat) :
  forallb (fun y => Z.land (Z.lor top y) mask =? y) (map Z.of_nat (seq 0 n)) = true ->
  forall y, 0 <= y < Z.of_nat n -> Z.land (Z.lor top y) mask = y.
Proof.
  intros H y Hy. apply Z.eqb_eq.
  exact (range_forallb (fun y => Z.land (Z.lor top y) mask =? y) n H y Hy).
Qed.

(** The 12-bit length that follows four reserved bits. *)
Lemma decode_4_12 v :
  0 <= v < 4096 ->
  Z.lor (Z.shiftl (Z.land (idx (bytes_4_12 v) 0) 15) 8) (idx (bytes_4_12 v) 1) = v.
Proof.
  intros Hv. unfold bytes_4_12, idx. cbv zeta. cbn [nth].
  rewrite land_ones_small by lia. rewrite !u8_shiftr by lia.
  change (2 ^ 8) with 256. change (2 ^ 0) with 1.
  change (first_bits 255 4) with 240.
  assert (Hhi : (v / 256) mod 256 = v / 256)
    by (apply Z.mod_small; Z.to_euclidean_division_equations; lia).
  rewrite Hhi.
  rewrite (low_bits_under_mask 240 15 16)
    by (try (vm_compute; reflexivity); Z.to_euclidean_division_equations; lia).
  rewrite lor_shiftl_add by (try apply Z.mod_pos_bound; lia).
  change (2 ^ 8) with 256. Z.to_euclidean_division_equations. lia.
Qed.

(** The 22 bits that follow two reserved bits. *)
Lemma decode_2_22 v :
  0 <= v < 4194304 ->
  Z.lor (Z.shiftl (Z.land (idx (bytes_2_22 v) 0) 63) 16)
    (Z.lor (Z.shiftl (idx (bytes_2_22 v) 1) 8) (idx (bytes_2_22 v) 2)) = v.
Proof.
  intros Hv. unfold bytes_2_22, idx. cbv zeta. cbn [nth].
  rewrite land_ones_small by lia. rewrite !u8_shiftr by lia.
  change (2 ^ 16) with 65536. change (2 ^ 8) with 256. change (2 ^ 0) with 1.
  change (first_bits 255 2) with 192.
  assert (Hhi : (v / 65536) mod 256 = v / 65536)
    by (apply Z.mod_small; Z.to_euclidean_division_equations; lia).
  rewrite Hhi.
  rewrite (low_bits_under_mask 192 63 64)
    by (try (vm_compute; reflexivity); Z.to_euclidean_division_equations; lia).
  assert (H0 : 0 <= (v / 1) mod 256 < 2 ^ 8) by (apply Z.mod_pos_bound; lia).
  assert (H1 : 0 <= (v / 256) mod 256 < 256) by (apply Z.mod_pos_bound; lia).
  rewrite (lor_shiftl_add ((v / 256) mod 256) ((v / 1) mod 256) 8) by lia.
  change (2 ^ 8) with 256 in *.
  rewrite (lor_shiftl_add (v / 65536) _ 16) by (change (2 ^ 16) with 65536; lia).
  change (2 ^ 16) with 65536.
  Z.to_euclidean_division_equations. lia.
Qed.

End BitArithmetic.

(** ** Lists of descriptors: what is written is what is parsed back *)

Section DescriptorListRoundTrip.

Lemma Emits_eq {A} (m : Wr BufferSink A) a o o' :
  Emits m a o -> o = o' -> Emits m a o'.
Proof. intros H <-. exact H. Qed.

Lemma Emits_eq2 {A} (m : Wr BufferSink A) a a' o o' :
  Emits m a o -> a = a' -> o = o' -> Emits m a' o'.
Proof. intros H <- <-. exact H. Qed.

Lemma len_flat_map_nonneg {X} (f : X -> bytes) xs : 0 <= len (flat_map f xs).
Proof. unfold len. lia. Qed.

Lemma len_coded_entry x : len (coded_entry x) = 2 + len (coded_payload x).
Proof. unfold coded_entry, entry. rewrite !len_cons. lia. Qed.

Lemma calcDescriptorsLength_from_coded xs :
  (forall x, In x xs -> coded_ok x) ->
  forall acc, 0 <= acc -> acc + len (flat_map coded_entry xs) < 65536 ->
  calcDescriptorsLength_from acc (map coded_written xs)
  = Done (acc + len (flat_map coded_entry xs)).
Proof.
  induction xs as [|x xs IH]; intros Hok acc Hacc Hlt.
  - cbn [map flat_map calcDescriptorsLength_from]. rewrite len_nil. f_equal. lia.
  - cbn [map flat_map calcDescriptorsLength_from] in *.
    destruct (Hok x (or_introl eq_refl)) as (Hp & Hc & _).
    rewrite Hc. rewrite len_app, len_coded_entry in *.
    pose proof (len_flat_map_nonneg coded_entry xs) as Hn.
    assert (E : u16 (u16 (acc + 2) + len (coded_payload x)) = acc + 2 + len (coded_payload x)).
    { unfold u16. rewrite (Z.mod_small (acc + 2)) by lia. apply Z.mod_small. lia. }
    rewrite E. rewrite IH; [f_equal; lia| |lia|lia].
    intros y Hy. apply Hok. right. exact Hy.
Qed.

Lemma writeDescriptor_coded x :
  coded_ok x ->
  Emits (writeDescriptor (coded_written x))
    (len (coded_payload x) + 2, None) (coded_entry x).
Proof.
  intros (Hp & Hc & He & _). unfold writeDescriptor. rewrite Hc.
  apply Emits_eq with ([] ++ [D_Tag (coded_written x)] ++ [len (coded_payload x)] ++ []
                       ++ coded_payload x ++ []).
  2:{ cbn [app]. rewrite app_nil_r. reflexivity. }
  apply Emits_bind with (a := len (coded_payload x)); [apply Emits_calc|].
  apply Emits_then; [apply Emits_byte|].
  apply Emits_then; [apply Emits_byte|].
  apply Emits_bind with (a := @None error); [apply Emits_err|].
  apply Emits_bind with (a := @None error); [exact He|].
  apply Emits_ret.
Qed.

Lemma writeDescriptors_from_coded xs :
  (forall x, In x xs -> coded_ok x) ->
  forall written,
  Emits (writeDescriptors_from written (map coded_written xs))
    (written + len (flat_map coded_entry xs), None) (flat_map coded_entry xs).
Proof.
  induction xs as [|x xs IH]; intros Hok written.
  - cbn [map flat_map writeDescriptors_from]. rewrite len_nil, Z.add_0_r.
    apply Emits_ret.
  - cbn [map flat_map writeDescriptors_from].
    apply Emits_bind with (a := (len (coded_payload x) + 2, @None error)).
    + apply writeDescriptor_coded. apply Hok. left. reflexivity.
    + cbn [fst snd]. 
      apply Emits_eq2 with (a := (written + (len (coded_payload x) + 2)
                                  + len (flat_map coded_entry xs), @None error))
                           (o := flat_map coded_entry xs).
      * apply IH. intros y Hy. apply Hok. right. exact Hy.
      * rewrite len_app, len_coded_entry. f_equal. lia.
      * reflexivity.
Qed.

Lemma writeDescriptorsWithLength_coded xs :
  (forall x, In x xs -> coded_ok x) ->
  len (flat_map coded_entry xs) < 4096 ->
  Emits (writeDescriptorsWithLength (map coded_written xs))
    (len (flat_map coded_entry xs) + 2, None)
    (bytes_4_12 (len (flat_map coded_entry xs)) ++ flat_map coded_entry xs).
Proof.
  intros Hok Hlt. unfold writeDescriptorsWithLength, calcDescriptorsLength.
  pose proof (len_flat_map_nonneg coded_entry xs) as Hn.
  rewrite (calcDescriptorsLength_from_coded xs Hok 0) by lia.
  rewrite Z.add_0_l.
  apply Emits_bind with (a := len (flat_map coded_entry xs)) (o1 := []);
    [apply Emits_calc|].
  apply Emits_4_12.
  apply Emits_bind with (a := @None error) (o1 := []); [apply Emits_err|].
  apply Emits_eq with (flat_map coded_entry xs ++ []); [|apply app_nil_r].
  apply Emits_bind with (a := (len (flat_map coded_entry xs), @None error)).
  - unfold writeDescriptors.
    exact (writeDescriptors_from_coded xs Hok 0).
  - cbn [fst snd]. apply Emits_ret.
Qed.


Lemma parseDescriptor_coded x i :
  coded_ok x -> Consumes parseDescriptor i (coded_entry x) (coded_parsed x).
Proof.
  intros (Hp & _ & _ & Hr). unfold parseDescriptor.
  set (tag := D_Tag (coded_written x)) in *. set (p := coded_payload x) in *.
  apply Consumes_eq with (inp := [tag; len p] ++ [] ++ p ++ [] ++ [])
                         (a := coded_parsed x);
    [|unfold coded_entry, entry; cbn [app]; rewrite app_nil_r; reflexivity
     |reflexivity].
  apply Consumes_bind with (a := [tag; len p]).
  { apply Consumes_nextBytesNoCopy. reflexivity. }
  intros i1 Hb1 Ho1. cbv zeta. unfold idx. cbn [nth Z.to_nat Pos.to_nat].
  change (nth (Z.to_nat 0) [tag; len p] 0) with tag.
  change (nth (Z.to_nat 1) [tag; len p] 0) with (len p).
  change (D_Length (newDescriptor tag (len p))) with (len p).
  assert (G : Z.gtb (len p) 0 = true) by (apply Z.gtb_lt; lia).
  rewrite G.
  apply Consumes_bind with (a := offset i1); [apply Consumes_GetOffset|].
  intros i2 Hb2 Ho2.
  apply Consumes_bind with (a := coded_parsed x).
  { rewrite len_nil, Z.add_0_r in Ho2. rewrite <- Ho2. apply Hr. }
  intros i3 Hb3 Ho3.
  apply Consumes_bind with (a := tt).
  { apply Consumes_Seek. rewrite Ho3, Ho2, len_nil. lia. }
  intros i4 Hb4 Ho4. apply Consumes_ret.
Qed.

Lemma parseDescriptors_coded xs i :
  (forall x, In x xs -> coded_ok x) ->
  len (flat_map coded_entry xs) < 4096 ->
  Consumes parseDescriptors i
    (bytes_4_12 (len (flat_map coded_entry xs)) ++ flat_map coded_entry xs)
    (map coded_parsed xs).
Proof.
  intros Hok Hlt. unfold parseDescriptors.
  pose proof (len_flat_map_nonneg coded_entry xs) as Hn.
  apply Consumes_bind with (a := bytes_4_12 (len (flat_map coded_entry xs))).
  { apply Consumes_nextBytesNoCopy. reflexivity. }
  intros i1 Hb1 Ho1. cbv zeta.
  rewrite decode_4_12 by lia.
  destruct (Z.gtb_spec (len (flat_map coded_entry xs)) 0) as [Hpos|Hzero].
  - apply Consumes_eq with (inp := [] ++ flat_map coded_entry xs)
                           (a := [] ++ map coded_parsed xs); [|reflexivity|reflexivity].
    apply Consumes_bind with (a := offset i1); [apply Consumes_GetOffset|].
    intros i2 Hb2 Ho2.
    apply Consumes_for_offset.
    + intros x _. rewrite len_coded_entry. unfold len. lia.
    + intros x acc j Hx. unfold parseDescriptorsTurn.
      apply Consumes_eq with (inp := coded_entry x ++ []) (a := acc ++ [coded_parsed x]);
        [|apply app_nil_r|reflexivity].
      apply Consumes_bind with (a := coded_parsed x).
      * apply parseDescriptor_coded. apply Hok. exact Hx.
      * intros j' _ _. apply Consumes_ret.
    + rewrite Ho2, len_nil. lia.
  - assert (E : xs = []).
    { destruct xs as [|x xs']; [reflexivity|]. cbn [flat_map] in Hzero.
      rewrite len_app, len_coded_entry in Hzero.
      pose proof (len_flat_map_nonneg coded_entry xs').
      unfold len in *. lia. }
    subst xs. cbn [flat_map map]. apply Consumes_ret.
Qed.

End DescriptorListRoundTrip.

(** ** Tactics for the descriptor kinds *)

Ltac by_tag t :=
  eval cbv beta iota delta
    [calcDescriptorLength writeDescriptorData parseDescriptorData parseDescriptorSwitch
     isUserDefinedTag newDescriptor andb Z.eqb Z.geb Z.leb Z.compare
     Pos.compare Pos.compare_cont Pos.eqb
     D_AC3 D_AVCVideo D_Component D_Content D_DataStreamAlignment D_EnhancedAC3
     D_ExtendedEvent D_Extension D_ISO639LanguageAndAudioType D_Length
     D_LocalTimeOffset D_MaximumBitrate D_NetworkName D_ParentalRating
     D_PrivateDataIndicator D_PrivateDataSpecifier D_Registration D_Service
     D_ShortEvent D_StreamIdentifier D_Subtitling D_Tag D_Teletext D_Unknown
     D_UserDefined D_VBIData D_VBITeletext
     set_D_AC3 set_D_AVCVideo set_D_Component set_D_Content
     set_D_DataStreamAlignment set_D_EnhancedAC3 set_D_ExtendedEvent set_D_Extension
     set_D_ISO639LanguageAndAudioType set_D_LocalTimeOffset set_D_MaximumBitrate
     set_D_NetworkName set_D_ParentalRating set_D_PrivateDataIndicator
     set_D_PrivateDataSpecifier set_D_Registration set_D_Service set_D_ShortEvent
     set_D_StreamIdentifier set_D_Subtitling set_D_Teletext set_D_Unknown
     set_D_UserDefined set_D_VBIData set_D_VBITeletext
     DescriptorTagAC3 DescriptorTagAVCVideo DescriptorTagComponent DescriptorTagContent
     DescriptorTagDataStreamAlignment DescriptorTagEnhancedAC3
     DescriptorTagExtendedEvent DescriptorTagExtension
     DescriptorTagISO639LanguageAndAudioType DescriptorTagLocalTimeOffset
     DescriptorTagMaximumBitrate DescriptorTagNetworkName DescriptorTagParentalRating
     DescriptorTagPrivateDataIndicator DescriptorTagPrivateDataSpecifier
     DescriptorTagRegistration DescriptorTagService DescriptorTagShortEvent
     DescriptorTagStreamIdentifier DescriptorTagSubtitling DescriptorTagTeletext
     DescriptorTagVBIData DescriptorTagVBITeletext] in t.

Ltac coded_intro :=
  unfold coded_ok, Coded;
  cbn [coded_written coded_payload coded_parsed];
  split; [|split; [|split; [|intros ?i]]];
  [ | match goal with |- ?c = _ => let c' := by_tag c in change c with c' end
    | match goal with |- Emits ?m _ _ => let m' := by_tag m in change m with m' end;
      cbn [wderef]
    | match goal with |- Consumes ?m _ _ _ => let m' := by_tag m in change m with m' end ].


Section ConsumesSteps.

Lemma Consumes_byte_k {A} (k : byte -> M A) i b inp a :
  (forall i', offset i' = offset i + 1 -> Consumes (k b) i' inp a) ->
  Consumes (bind nextByte k) i (b :: inp) a.
Proof.
  intros H. change (b :: inp) with ([b] ++ inp).
  apply Consumes_bind with (a := b); [apply Consumes_nextByte|].
  intros i' _ Ho. apply H. exact Ho.
Qed.

Lemma Consumes_bytes_k {A} n (k : bytes -> M A) i xs inp a :
  n = len xs ->
  (forall i', offset i' = offset i + len xs -> Consumes (k xs) i' inp a) ->
  Consumes (bind (nextBytes n) k) i (xs ++ inp) a.
Proof.
  intros Hn H. apply Consumes_bind with (a := xs); [apply Consumes_nextBytes; exact Hn|].
  intros i' _ Ho. apply H. exact Ho.
Qed.

Lemma Consumes_bytesNoCopy_k {A} n (k : bytes -> M A) i xs inp a :
  n = len xs ->
  (forall i', offset i' = offset i + len xs -> Consumes (k xs) i' inp a) ->
  Consumes (bind (nextBytesNoCopy n) k) i (xs ++ inp) a.
Proof.
  intros Hn H.
  apply Consumes_bind with (a := xs); [apply Consumes_nextBytesNoCopy; exact Hn|].
  intros i' _ Ho. apply H. exact Ho.
Qed.

Lemma Consumes_rest_k {A} offsetEnd (k : bytes -> M A) i xs inp a :
  offsetEnd = offset i + len xs ->
  (forall i', offset i' = offset i + len xs -> Consumes (k xs) i' inp a) ->
  Consumes (bind (restUntil offsetEnd) k) i (xs ++ inp) a.
Proof.
  intros Hn H. apply Consumes_bind with (a := xs); [apply Consumes_restUntil; exact Hn|].
  intros i' _ Ho. apply H. exact Ho.
Qed.

Lemma Consumes_until_k {A} offsetEnd (k : bytes -> M A) i xs inp a :
  offsetEnd = offset i + len xs ->
  (forall i', offset i' = offset i + len xs -> Consumes (k xs) i' inp a) ->
  Consumes (bind (nextBytesUntil offsetEnd) k) i (xs ++ inp) a.
Proof.
  intros Hn H.
  apply Consumes_bind with (a := xs); [apply Consumes_nextBytesUntil; exact Hn|].
  intros i' _ Ho. apply H. exact Ho.
Qed.

Lemma Consumes_offset_k {A} (k : Z -> M A) i inp a :
  (forall i', offset i' = offset i -> Consumes (k (offset i)) i' inp a) ->
  Consumes (bind GetOffset k) i inp a.
Proof.
  intros H. change inp with ([] ++ inp).
  apply Consumes_bind with (a := offset i); [apply Consumes_GetOffset|].
  intros i' _ Ho. apply H. rewrite Ho, len_nil. lia.
Qed.

Lemma Consumes_when_byte {A} (c : bool) v (k : byte -> M A) i inp a :
  (forall i', offset i' = offset i + b2z c ->
              Consumes (k (if c then v else 0)) i' inp a) ->
  Consumes (bind (when c 0 nextByte) k) i ((if c then [v] else []) ++ inp) a.
Proof.
  intros H. destruct c; cbn [when].
  - apply Consumes_byte_k. exact H.
  - apply Consumes_bind with (a := 0); [apply Consumes_ret|].
    intros i' _ Ho. apply H. rewrite Ho, len_nil. reflexivity.
Qed.

Lemma Consumes_ret_eq {A} (a a' : A) i : a = a' -> Consumes (ret a) i [] a'.
Proof. intros <-. apply Consumes_ret. Qed.

Lemma Consumes_items_k {A X B} (enc : X -> bytes) (dec : X -> A)
  (body : list A -> M (list A)) offsetEnd (xs : list X) (k : list A -> M B) i inp b :
  (forall x, In x xs -> 0 < len (enc x)) ->
  (forall x acc j, In x xs -> Consumes (body acc) j (enc x) (acc ++ [dec x])) ->
  offsetEnd = offset i + len (flat_map enc xs) ->
  (forall i', offset i' = offset i + len (flat_map enc xs) ->
              Consumes (k (map dec xs)) i' inp b) ->
  Consumes (bind (for_offset offsetEnd body []) k) i (flat_map enc xs ++ inp) b.
Proof.
  intros Hpos Hbody Hend H.
  apply Consumes_bind with (a := [] ++ map dec xs).
  - apply Consumes_for_offset; assumption.
  - intros i' _ Ho. apply H. exact Ho.
Qed.

(** The payload of an entry whose tag selects one parser. *)
Lemma Consumes_variant {X} s (m : M X) (f : X -> Descriptor) i inp x d' :
  Consumes m i inp x -> f x = d' ->
  Consumes (bind (wrap s m) (fun x => ret (f x))) i inp d'.
Proof.
  intros H E.
  apply Consumes_eq with (inp := inp ++ []) (a := d'); [|apply app_nil_r|reflexivity].
  apply Consumes_bind with (a := x); [apply Consumes_wrap; exact H|].
  intros i' _ _. apply Consumes_ret_eq. exact E.
Qed.

End ConsumesSteps.

Ltac lens :=
  repeat (rewrite len_app in * || rewrite len_cons in * || rewrite len_nil in * );
  try lia.

Ltac blia := unfold bytes, byte in *; lia.

Ltac list_eq := cbn [app]; rewrite ?app_nil_r; rewrite <- ?app_assoc; cbn [app]; reflexivity.

(** ** Descriptors, one kind at a time *)

Section DescriptorKinds.

(** *** Stream identifier, data stream alignment *)

Lemma StreamIdentifier_coded x :
  coded_ok (mkCoded (descriptorStreamIdentifier x) [SI_ComponentTag x]
              (descriptorStreamIdentifier x)).
Proof.
  unfold descriptorStreamIdentifier. coded_intro.
  - unfold len; cbn [List.length]; blia.
  - reflexivity.
  - unfold writeDescriptorStreamIdentifier. cbn [wderef].
    eapply Emits_eq; [eapply Emits_then; [apply Emits_byte|apply Emits_err]|list_eq].
  - eapply Consumes_variant; [|reflexivity].
    unfold newDescriptorStreamIdentifier.
    apply Consumes_byte_k. intros i1 _. apply Consumes_ret_eq.
    destruct x; reflexivity.
Qed.

Lemma DataStreamAlignment_coded x :
  coded_ok (mkCoded (descriptorDataStreamAlignment x) [DSA_Type x]
              (descriptorDataStreamAlignment x)).
Proof.
  unfold descriptorDataStreamAlignment. coded_intro.
  - unfold len; cbn [List.length]; blia.
  - reflexivity.
  - unfold writeDescriptorDataStreamAlignment. cbn [wderef].
    eapply Emits_eq; [eapply Emits_then; [apply Emits_byte|apply Emits_err]|list_eq].
  - eapply Consumes_variant; [|reflexivity].
    unfold newDescriptorDataStreamAlignment.
    apply Consumes_byte_k. intros i1 _. apply Consumes_ret_eq.
    destruct x; reflexivity.
Qed.

(** *** Network name, user defined, unknown *)

Lemma u8_small v : 0 <= v <= 255 -> u8 v = v.
Proof. intros H. unfold u8. apply Z.mod_small. blia. Qed.

Lemma NetworkName_coded x :
  0 < len (NN_Name x) <= 255 ->
  coded_ok (mkCoded (descriptorNetworkName x) (NN_Name x) (descriptorNetworkName x)).
Proof.
  intros Hl. unfold descriptorNetworkName. coded_intro.
  - exact Hl.
  - unfold calcDescriptorNetworkNameLength, oderef. rewrite u8_small by blia. reflexivity.
  - unfold writeDescriptorNetworkName. cbn [wderef].
    eapply Emits_eq; [eapply Emits_then; [apply Emits_slice|apply Emits_err]|list_eq].
  - eapply Consumes_variant; [|reflexivity].
    unfold newDescriptorNetworkName.
    apply Consumes_eq with (inp := NN_Name x ++ []) (a := x);
      [|apply app_nil_r|reflexivity].
    apply Consumes_until_k; [reflexivity|].
    intros i1 _. apply Consumes_ret_eq. destruct x; reflexivity.
Qed.


Lemma UserDefined_coded tag b :
  isUserDefinedTag tag = true -> 0 < len b <= 255 ->
  coded_ok (mkCoded (descriptorUserDefined tag b) b (descriptorUserDefined tag b)).
Proof.
  intros Ht Hl. unfold coded_ok, Coded, descriptorUserDefined.
  cbn [coded_written coded_payload coded_parsed].
  unfold calcDescriptorLength, writeDescriptorData, parseDescriptorData.
  cbn [D_Tag D_Length D_UserDefined set_D_UserDefined newDescriptor]. rewrite Ht.
  split; [exact Hl|]. split; [|split].
  - unfold calcDescriptorUserDefinedLength. rewrite u8_small by blia. reflexivity.
  - unfold writeDescriptorUserDefined.
    eapply Emits_eq; [eapply Emits_then; [apply Emits_slice|apply Emits_err]|list_eq].
  - intros i. apply Consumes_eq with (inp := b ++ [])
                                     (a := descriptorUserDefined tag b);
      [|apply app_nil_r|reflexivity].
    apply Consumes_bytes_k; [reflexivity|].
    intros i1 _. apply Consumes_ret_eq. reflexivity.
Qed.

Lemma Unknown_coded x :
  isUserDefinedTag (Unk_Tag x) = false -> ~ In (Unk_Tag x) descriptorTags ->
  0 < len (Unk_Content x) <= 255 ->
  coded_ok (mkCoded (descriptorUnknown x) (Unk_Content x) (descriptorUnknown x)).
Proof.
  intros Ht Hn Hl. unfold coded_ok, Coded, descriptorUnknown.
  cbn [coded_written coded_payload coded_parsed].
  unfold calcDescriptorLength, writeDescriptorData, parseDescriptorData,
    parseDescriptorSwitch.
  cbn [D_Tag D_Length D_Unknown set_D_Unknown newDescriptor]. rewrite Ht.
  repeat match goal with
         | |- context [Z.eqb (Unk_Tag x) ?k] =>
             replace (Z.eqb (Unk_Tag x) k) with false
               by (symmetry; apply Z.eqb_neq; intro E; apply Hn; rewrite E;
                   unfold descriptorTags; cbn [In];
                   repeat first [left; reflexivity | right])
         end.
  split; [exact Hl|]. split; [|split].
  - unfold calcDescriptorUnknownLength, oderef. rewrite u8_small by blia. reflexivity.
  - unfold writeDescriptorUnknown. cbn [wderef].
    eapply Emits_eq; [eapply Emits_then; [apply Emits_slice|apply Emits_err]|list_eq].
  - intros i. eapply Consumes_variant; [|reflexivity].
    unfold newDescriptorUnknown.
    apply Consumes_eq with (inp := Unk_Content x ++ []) (a := x);
      [|apply app_nil_r|reflexivity].
    apply Consumes_bytes_k; [reflexivity|].
    intros i1 _. apply Consumes_ret_eq. destruct x; reflexivity.
Qed.

(** *** Private data indicator and specifier, registration, maximum bitrate *)

Lemma PrivateDataIndicator_coded x :
  0 <= PDI_Indicator x < 4294967296 ->
  coded_ok (mkCoded (descriptorPrivateDataIndicator x) (bytes_32 (PDI_Indicator x))
              (descriptorPrivateDataIndicator x)).
Proof.
  intros Hv. unfold descriptorPrivateDataIndicator. coded_intro.
  - unfold len; cbn [List.length bytes_32]; blia.
  - reflexivity.
  - unfold writeDescriptorPrivateDataIndicator. cbn [wderef].
    eapply Emits_eq; [eapply Emits_then; [apply Emits_32|apply Emits_err]|list_eq].
  - eapply Consumes_variant; [|reflexivity].
    unfold newDescriptorPrivateDataIndicator.
    apply Consumes_eq with (inp := bytes_32 (PDI_Indicator x) ++ []) (a := x);
      [|apply app_nil_r|reflexivity].
    apply Consumes_bytesNoCopy_k; [reflexivity|].
    intros i1 _. apply Consumes_ret_eq. rewrite be32_bytes_32 by exact Hv.
    destruct x; reflexivity.
Qed.

Lemma PrivateDataSpecifier_coded x :
  0 <= PDS_Specifier x < 4294967296 ->
  coded_ok (mkCoded (descriptorPrivateDataSpecifier x) (bytes_32 (PDS_Specifier x))
              (descriptorPrivateDataSpecifier x)).
Proof.
  intros Hv. unfold descriptorPrivateDataSpecifier. coded_intro.
  - unfold len; cbn [List.length bytes_32]; blia.
  - reflexivity.
  - unfold writeDescriptorPrivateDataSpecifier. cbn [wderef].
    eapply Emits_eq; [eapply Emits_then; [apply Emits_32|apply Emits_err]|list_eq].
  - eapply Consumes_variant; [|reflexivity].
    unfold newDescriptorPrivateDataSpecifier.
    apply Consumes_eq with (inp := bytes_32 (PDS_Specifier x) ++ []) (a := x);
      [|apply app_nil_r|reflexivity].
    apply Consumes_bytesNoCopy_k; [reflexivity|].
    intros i1 _. apply Consumes_ret_eq. rewrite be32_bytes_32 by exact Hv.
    destruct x; reflexivity.
Qed.

Lemma len_bytes_32 v : len (bytes_32 v) = 4.
Proof. reflexivity. Qed.

Lemma Registration_coded x :
  0 <= Reg_FormatIdentifier x < 4294967296 ->
  len (Reg_AdditionalIdentificationInfo x) <= 251 ->
  coded_ok (mkCoded (descriptorRegistration x)
              (bytes_32 (Reg_FormatIdentifier x) ++ Reg_AdditionalIdentificationInfo x)
              (descriptorRegistration x)).
Proof.
  intros Hv Hl. unfold descriptorRegistration.
  pose proof (len_nonneg (Reg_AdditionalIdentificationInfo x)) as Hn.
  assert (E : len (bytes_32 (Reg_FormatIdentifier x)
                   ++ Reg_AdditionalIdentificationInfo x)
              = 4 + len (Reg_AdditionalIdentificationInfo x))
    by (rewrite len_app, len_bytes_32; reflexivity).
  rewrite <- E. coded_intro.
  - blia.
  - unfold calcDescriptorRegistrationLength, oderef. rewrite u8_small by blia.
    rewrite E. reflexivity.
  - unfold writeDescriptorRegistration. cbn [wderef].
    eapply Emits_eq;
      [eapply Emits_then; [apply Emits_32|];
       eapply Emits_then; [apply Emits_slice|apply Emits_err]|].
    rewrite app_nil_r. reflexivity.
  - eapply Consumes_variant; [|reflexivity].
    unfold newDescriptorRegistration.
    apply Consumes_eq with (inp := bytes_32 (Reg_FormatIdentifier x)
                                   ++ Reg_AdditionalIdentificationInfo x ++ [])
                           (a := x); [|rewrite app_nil_r; reflexivity|reflexivity].
    apply Consumes_bytesNoCopy_k; [reflexivity|]. intros i1 H1.
    apply Consumes_rest_k; [rewrite H1, E, len_bytes_32; blia|]. intros i2 H2.
    apply Consumes_ret_eq. rewrite be32_bytes_32 by exact Hv.
    destruct x; reflexivity.
Qed.

Lemma MaximumBitrate_coded x :
  0 <= MB_Bitrate x < 50 * 4194304 ->
  coded_ok (mkCoded (descriptorMaximumBitrate x) (bytes_2_22 (MB_Bitrate x / 50))
              (descriptorMaximumBitrate
                 (mkDescriptorMaximumBitrate (MB_Bitrate x / 50 * 50)))).
Proof.
  intros Hv. unfold descriptorMaximumBitrate. coded_intro.
  - unfold len; cbn [List.length bytes_2_22]; blia.
  - reflexivity.
  - unfold writeDescriptorMaximumBitrate. cbn [wderef].
    eapply Emits_eq; [eapply Emits_2_22; apply Emits_err|list_eq].
  - eapply Consumes_variant; [|reflexivity].
    unfold newDescriptorMaximumBitrate.
    apply Consumes_eq with (inp := bytes_2_22 (MB_Bitrate x / 50) ++ [])
                           (a := mkDescriptorMaximumBitrate (MB_Bitrate x / 50 * 50));
      [|apply app_nil_r|reflexivity].
    apply Consumes_bytesNoCopy_k; [reflexivity|].
    intros i1 _. apply Consumes_ret_eq.
    rewrite decode_2_22; [reflexivity|].
    split; [apply Z.div_pos; blia|apply Z.div_lt_upper_bound; blia].
Qed.


(** *** Service, short event *)

Lemma three_bytes (l : bytes) : len l = 3 -> exists a b c, l = [a; b; c].
Proof.
  destruct l as [|a [|b [|c [|d l]]]]; unfold len; cbn [List.length]; intros H;
    try blia.
  exists a, b, c. reflexivity.
Qed.

Lemma code3_slice_of s : code3 s [] -> slice_of (elems s) = s.
Proof. intros [_ H]. destruct s as [e sp]. cbn in *. subst. reflexivity. Qed.

Lemma Emits_code3 {A} s tail (k : Wr BufferSink A) r out :
  code3 s tail -> Emits k r out ->
  Emits (wbind (wslice3 s) (fun _ => k)) r (elems s ++ out).
Proof.
  intros [Hl _] Hk. destruct (three_bytes _ Hl) as (a & b & c & E). rewrite E.
  apply Emits_then; [apply Emits_slice3; exact E|exact Hk].
Qed.

Lemma Emits_byte_k {A} b (k : Wr BufferSink A) r out :
  Emits k r out -> Emits (wbind (wbyte b) (fun _ => k)) r (b :: out).
Proof.
  intros Hk. change (b :: out) with ([b] ++ out).
  apply Emits_then; [apply Emits_byte|exact Hk].
Qed.

Lemma Emits_slice_k {A} b (k : Wr BufferSink A) r out :
  Emits k r out -> Emits (wbind (wslice b) (fun _ => k)) r (b ++ out).
Proof. intros Hk. apply Emits_then; [apply Emits_slice|exact Hk]. Qed.

Lemma Service_coded x :
  len (Svc_Name x) + len (Svc_Provider x) <= 252 ->
  coded_ok (mkCoded (descriptorService x) (payloadService x) (descriptorService x)).
Proof.
  intros Hl. unfold descriptorService.
  pose proof (len_nonneg (Svc_Name x)) as Hn. pose proof (len_nonneg (Svc_Provider x)) as Hp.
  assert (E : len (payloadService x) = 3 + len (Svc_Name x) + len (Svc_Provider x))
    by (unfold payloadService; rewrite !len_cons, len_app, len_cons; blia).
  rewrite <- E. coded_intro.
  - blia.
  - unfold calcDescriptorServiceLength, oderef. rewrite u8_small by blia.
    rewrite E. reflexivity.
  - unfold writeDescriptorService. cbn [wderef]. rewrite !u8_small by blia.
    apply Emits_byte_k, Emits_byte_k.
    apply Emits_slice_k, Emits_byte_k.
    eapply Emits_eq; [apply Emits_slice_k, Emits_err|apply app_nil_r].
  - eapply Consumes_variant; [|reflexivity].
    unfold newDescriptorService.
    apply Consumes_byte_k. intros i1 _. apply Consumes_byte_k. intros i2 _.
    apply Consumes_bytes_k; [reflexivity|]. intros i3 _.
    apply Consumes_byte_k. intros i4 _.
    apply Consumes_eq with (inp := Svc_Name x ++ []) (a := x);
      [|apply app_nil_r|reflexivity].
    apply Consumes_bytes_k; [reflexivity|]. intros i5 _.
    apply Consumes_ret_eq. destruct x; reflexivity.
Qed.

Lemma ShortEvent_coded x :
  code3 (SE_Language x) [] ->
  len (SE_EventName x) + len (SE_Text x) <= 250 ->
  coded_ok (mkCoded (descriptorShortEvent x) (payloadShortEvent x)
              (descriptorShortEvent x)).
Proof.
  intros Hc Hl. unfold descriptorShortEvent.
  pose proof (len_nonneg (SE_EventName x)) as Hn. pose proof (len_nonneg (SE_Text x)) as Hp.
  assert (E : len (payloadShortEvent x) = 5 + len (SE_EventName x) + len (SE_Text x))
    by (unfold payloadShortEvent; rewrite len_app, len_cons, len_app, len_cons;
        destruct Hc as [-> _]; blia).
  rewrite <- E. coded_intro.
  - blia.
  - unfold calcDescriptorShortEventLength, oderef. rewrite u8_small by blia.
    rewrite E. reflexivity.
  - unfold writeDescriptorShortEvent. cbn [wderef]. rewrite !u8_small by blia.
    eapply Emits_code3; [exact Hc|].
    apply Emits_byte_k, Emits_slice_k, Emits_byte_k.
    eapply Emits_eq; [apply Emits_slice_k, Emits_err|apply app_nil_r].
  - eapply Consumes_variant; [|reflexivity].
    unfold newDescriptorShortEvent.
    apply Consumes_bytes_k; [symmetry; apply Hc|]. intros i1 _.
    apply Consumes_byte_k. intros i2 _.
    apply Consumes_bytes_k; [reflexivity|]. intros i3 _.
    apply Consumes_byte_k. intros i4 _.
    apply Consumes_eq with (inp := SE_Text x ++ []) (a := x);
      [|apply app_nil_r|reflexivity].
    apply Consumes_bytes_k; [reflexivity|]. intros i5 _.
    apply Consumes_ret_eq. rewrite code3_slice_of by exact Hc.
    destruct x; reflexivity.
Qed.


(** *** Bytes put together from flags and small fields, read back *)

Lemma range2_forallb (f : Z -> Z -> bool) (n m : nat) :
  forallb (fun a => forallb (f a) (map Z.of_nat (seq 0 m))) (map Z.of_nat (seq 0 n))
  = true ->
  forall a b, 0 <= a < Z.of_nat n -> 0 <= b < Z.of_nat m -> f a b = true.
Proof.
  intros H a b Ha Hb.
  apply (range_forallb (f a) m); [|exact Hb].
  exact (range_forallb (fun a => forallb (f a) (map Z.of_nat (seq 0 m))) n H a Ha).
Qed.

Lemma flags3_5_read a b c v :
  0 <= v < 32 ->
  bit_set (byte_3flags_5 a b c v) 128 = a /\ bit_set (byte_3flags_5 a b c v) 64 = b /\
  bit_set (byte_3flags_5 a b c v) 32 = c /\ Z.land (byte_3flags_5 a b c v) 31 = v.
Proof.
  intros Hv.
  assert (E : (Bool.eqb (bit_set (byte_3flags_5 a b c v) 128) a
               && Bool.eqb (bit_set (byte_3flags_5 a b c v) 64) b
               && Bool.eqb (bit_set (byte_3flags_5 a b c v) 32) c
               && (Z.land (byte_3flags_5 a b c v) 31 =? v)) = true).
  { revert v Hv. change 32 with (Z.of_nat 32) at 2.
    destruct a, b, c;
      refine (range_forallb (fun v => _ && _ && _ && _) 32 _);
      vm_compute; reflexivity. }
  rewrite !andb_true_iff in E. destruct E as [[[E1 E2] E3] E4].
  apply Bool.eqb_prop in E1, E2, E3. apply Z.eqb_eq in E4. auto.
Qed.

Lemma flags2_read a b :
  bit_set (byte_2flags a b) 128 = a /\ bit_set (byte_2flags a b) 64 = b.
Proof. destruct a, b; split; vm_compute; reflexivity. Qed.

Lemma nibbles_read a b :
  0 <= a < 16 -> 0 <= b < 16 ->
  Z.shiftr (byte_nibbles a b) 4 = a /\ Z.land (byte_nibbles a b) 15 = b.
Proof.
  intros Ha Hb.
  assert (E : ((Z.shiftr (byte_nibbles a b) 4 =? a)
               && (Z.land (byte_nibbles a b) 15 =? b)) = true).
  { revert a b Ha Hb. change 16 with (Z.of_nat 16).
    refine (range2_forallb (fun a b => _ && _) 16 16 _). vm_compute. reflexivity. }
  rewrite andb_true_iff in E. destruct E as [E1 E2].
  apply Z.eqb_eq in E1, E2. auto.
Qed.

(** *** AVC video, component, ISO 639 language and audio type *)

Lemma AVCVideo_coded x :
  0 <= AVC_CompatibleFlags x < 32 ->
  coded_ok (mkCoded (descriptorAVCVideo x) (payloadAVCVideo x) (descriptorAVCVideo x)).
Proof.
  intros Hv. unfold descriptorAVCVideo. coded_intro.
  - unfold len; cbn [List.length payloadAVCVideo]; blia.
  - reflexivity.
  - unfold writeDescriptorAVCVideo, payloadAVCVideo. cbn [wderef].
    apply Emits_byte_k, Emits_3flags_5, Emits_byte_k, Emits_2flags, Emits_err.
  - eapply Consumes_variant; [|reflexivity].
    unfold newDescriptorAVCVideo, payloadAVCVideo.
    apply Consumes_byte_k. intros i1 _. apply Consumes_byte_k. intros i2 _.
    apply Consumes_byte_k. intros i3 _. apply Consumes_byte_k. intros i4 _.
    apply Consumes_ret_eq.
    destruct (flags3_5_read (AVC_ConstraintSet0Flag x) (AVC_ConstraintSet1Flag x)
                (AVC_ConstraintSet2Flag x) (AVC_CompatibleFlags x) Hv)
      as (-> & -> & -> & ->).
    destruct (flags2_read (AVC_AVCStillPresent x) (AVC_AVC24HourPictureFlag x))
      as (-> & ->).
    destruct x; reflexivity.
Qed.

Lemma Component_coded x :
  code3 (Comp_ISO639LanguageCode x) [] ->
  0 <= Comp_StreamContentExt x < 16 -> 0 <= Comp_StreamContent x < 16 ->
  len (Comp_Text x) <= 249 ->
  coded_ok (mkCoded (descriptorComponent x) (payloadComponent x) (descriptorComponent x)).
Proof.
  intros Hc He Hs Hl. unfold descriptorComponent.
  pose proof (len_nonneg (Comp_Text x)) as Hn.
  assert (E : len (payloadComponent x) = 6 + len (Comp_Text x))
    by (unfold payloadComponent; rewrite !len_cons, len_app; destruct Hc as [-> _];
        blia).
  rewrite <- E. coded_intro.
  - blia.
  - unfold calcDescriptorComponentLength, oderef. rewrite u8_small by blia.
    rewrite E. reflexivity.
  - unfold writeDescriptorComponent, payloadComponent. cbn [wderef].
    apply Emits_nibbles, Emits_byte_k, Emits_byte_k.
    eapply Emits_code3; [exact Hc|].
    eapply Emits_eq; [apply Emits_slice_k, Emits_err|apply app_nil_r].
  - eapply Consumes_variant; [|reflexivity].
    rewrite E. unfold newDescriptorComponent, payloadComponent.
    apply Consumes_byte_k. intros i1 H1. apply Consumes_byte_k. intros i2 H2.
    apply Consumes_byte_k. intros i3 H3.
    apply Consumes_bytes_k; [symmetry; apply Hc|]. intros i4 H4.
    apply Consumes_eq with (inp := Comp_Text x ++ []) (a := x);
      [|apply app_nil_r|reflexivity].
    apply Consumes_rest_k; [destruct Hc as [Hc _]; blia|]. intros i5 _.
    apply Consumes_ret_eq. rewrite code3_slice_of by exact Hc.
    destruct (nibbles_read _ _ He Hs) as (-> & ->).
    destruct x; reflexivity.
Qed.

Lemma ISO639LanguageAndAudioType_coded x :
  code3 (ISO639_Language x) [ISO639_Type x] ->
  coded_ok (mkCoded (descriptorISO639LanguageAndAudioType x)
              (payloadISO639LanguageAndAudioType x)
              (descriptorISO639LanguageAndAudioType x)).
Proof.
  intros Hc. unfold descriptorISO639LanguageAndAudioType.
  destruct x as [[lang sp] type]. destruct Hc as [Hl Hs]. cbn in Hl, Hs. subst sp.
  destruct (three_bytes _ Hl) as (a & b & c & ->).
  unfold payloadISO639LanguageAndAudioType.
  cbn [ISO639_Language ISO639_Type elems app]. coded_intro.
  - unfold len; cbn [List.length]; blia.
  - reflexivity.
  - unfold writeDescriptorISO639LanguageAndAudioType. cbn [wderef ISO639_Language ISO639_Type].
    change [a; b; c; type] with ([a; b; c] ++ [type]).
    apply Emits_then; [apply Emits_slice3; reflexivity|].
    apply Emits_byte_k, Emits_err.
  - eapply Consumes_variant; [|reflexivity].
    unfold newDescriptorISO639LanguageAndAudioType.
    apply Consumes_eq with (inp := [a; b; c; type] ++ [])
      (a := mkDescriptorISO639LanguageAndAudioType (mkSlice [a; b; c] [type]) type);
      [|reflexivity|reflexivity].
    apply Consumes_until_k; [reflexivity|]. intros i1 _.
    apply Consumes_ret_eq. reflexivity.
Qed.


(** *** Content, parental rating, subtitling, teletext: lists of items *)

Lemma len_flat_map_fixed {X} (enc : X -> bytes) n (xs : list X) :
  (forall x, In x xs -> len (enc x) = n) -> len (flat_map enc xs) = n * len xs.
Proof.
  induction xs as [|x xs IH]; intros H; cbn [flat_map].
  - unfold len. cbn [List.length]. lia.
  - rewrite len_app, IH by (intros y Hy; apply H; right; exact Hy).
    rewrite (H x) by (left; reflexivity).
    unfold len. cbn [List.length]. lia.
Qed.

Lemma Emits_items {X} (xs : list X) (body : X -> Wr BufferSink unit) (enc : X -> bytes) :
  (forall x, In x xs -> Emits (body x) tt (enc x)) ->
  Emits (wbind (wfor xs body) (fun _ => werr)) None (flat_map enc xs).
Proof.
  intros H. eapply Emits_eq; [|apply app_nil_r].
  apply Emits_then; [apply Emits_for; exact H|apply Emits_err].
Qed.

Lemma Consumes_items {X} (enc : X -> bytes) (body : list X -> M (list X)) offsetEnd
  (xs : list X) {R} (mk : list X -> R) i :
  (forall x, In x xs -> 0 < len (enc x)) ->
  (forall x acc j, In x xs -> Consumes (body acc) j (enc x) (acc ++ [x])) ->
  offsetEnd = offset i + len (flat_map enc xs) ->
  Consumes (bind (for_offset offsetEnd body []) (fun items => ret (mk items))) i
    (flat_map enc xs) (mk xs).
Proof.
  intros Hpos Hbody Hend.
  apply Consumes_eq with (inp := flat_map enc xs ++ []) (a := mk xs);
    [|apply app_nil_r|reflexivity].
  apply Consumes_items_k with (dec := fun x => x); try assumption.
  intros i' _. rewrite map_id. apply Consumes_ret.
Qed.

Lemma Content_coded x :
  (forall item, In item (Content_Items x) ->
     0 <= CI_ContentNibbleLevel1 item < 16 /\ 0 <= CI_ContentNibbleLevel2 item < 16) ->
  0 < len (Content_Items x) <= 127 ->
  coded_ok (mkCoded (descriptorContent x) (payloadContent x) (descriptorContent x)).
Proof.
  intros Hi Hl. unfold descriptorContent.
  assert (E : len (payloadContent x) = 2 * len (Content_Items x))
    by (apply len_flat_map_fixed; reflexivity).
  rewrite <- E. coded_intro.
  - blia.
  - unfold calcDescriptorContentLength, oderef. rewrite u8_small by blia.
    rewrite E. reflexivity.
  - unfold writeDescriptorContent. cbn [wderef].
    apply Emits_items. intros item _. apply Emits_nibbles, Emits_byte.
  - eapply Consumes_variant; [|reflexivity].
    unfold newDescriptorContent, payloadContent. destruct x as [items].
    cbn [Content_Items] in *.
    apply Consumes_items.
    + reflexivity.
    + intros item acc j Hin. unfold payloadContentItem.
      apply Consumes_eq with
        (inp := [byte_nibbles (CI_ContentNibbleLevel1 item) (CI_ContentNibbleLevel2 item);
                 CI_UserByte item] ++ [])
        (a := acc ++ [item]); [|reflexivity|reflexivity].
      apply Consumes_bytesNoCopy_k; [reflexivity|]. intros j1 _.
      apply Consumes_ret_eq. unfold idx. cbn [nth Z.to_nat Pos.to_nat].
      destruct (Hi item Hin) as [H1 H2].
      change (nth (Z.to_nat 0) ?l 0) with (hd 0 l).
      destruct (nibbles_read _ _ H1 H2) as (-> & ->).
      destruct item; reflexivity.
    + reflexivity.
Qed.


Lemma ParentalRating_coded x :
  (forall item, In item (PR_Items x) -> code3 (PRI_CountryCode item) [PRI_Rating item]) ->
  0 < len (PR_Items x) <= 63 ->
  coded_ok (mkCoded (descriptorParentalRating x) (payloadParentalRating x)
              (descriptorParentalRating x)).
Proof.
  intros Hi Hl. unfold descriptorParentalRating.
  assert (Hlen : forall item, In item (PR_Items x) ->
                              len (payloadParentalRatingItem item) = 4).
  { intros item Hin. unfold payloadParentalRatingItem.
    rewrite len_app. destruct (Hi item Hin) as [-> _]. reflexivity. }
  assert (E : len (payloadParentalRating x) = 4 * len (PR_Items x))
    by (apply len_flat_map_fixed; exact Hlen).
  rewrite <- E. coded_intro.
  - blia.
  - unfold calcDescriptorParentalRatingLength, oderef. rewrite u8_small by blia.
    rewrite E. reflexivity.
  - unfold writeDescriptorParentalRating. cbn [wderef].
    apply Emits_items. intros item Hin. unfold payloadParentalRatingItem.
    eapply Emits_code3; [apply Hi; exact Hin|apply Emits_byte].
  - eapply Consumes_variant; [|reflexivity].
    unfold newDescriptorParentalRating, payloadParentalRating. destruct x as [items].
    cbn [PR_Items] in *.
    apply Consumes_items.
    + intros item Hin. rewrite Hlen by exact Hin. blia.
    + intros item acc j Hin.
      apply Consumes_eq with (inp := payloadParentalRatingItem item ++ [])
                             (a := acc ++ [item]); [|apply app_nil_r|reflexivity].
      apply Consumes_bytes_k; [symmetry; apply Hlen; exact Hin|]. intros j1 _.
      apply Consumes_ret_eq. unfold payloadParentalRatingItem.
      destruct item as [[cc sp] rating]. destruct (Hi _ Hin) as [Hc Hs].
      cbn [PRI_CountryCode PRI_Rating elems spare] in *. subst sp.
      destruct (three_bytes _ Hc) as (a & b & c & ->). reflexivity.
    + reflexivity.
Qed.

Lemma len_bytes_16 v : len (bytes_16 v) = 2.
Proof. reflexivity. Qed.

Lemma Subtitling_coded x :
  (forall item, In item (Sub_Items x) ->
     code3 (SubI_Language item) [] /\
     0 <= SubI_CompositionPageID item < 65536 /\
     0 <= SubI_AncillaryPageID item < 65536) ->
  0 < len (Sub_Items x) <= 31 ->
  coded_ok (mkCoded (descriptorSubtitling x) (payloadSubtitling x)
              (descriptorSubtitling x)).
Proof.
  intros Hi Hl. unfold descriptorSubtitling.
  assert (Hlen : forall item, In item (Sub_Items x) ->
                              len (payloadSubtitlingItem item) = 8).
  { intros item Hin. unfold payloadSubtitlingItem.
    rewrite len_app, len_cons, len_app, !len_bytes_16.
    destruct (Hi item Hin) as [[-> _] _]. reflexivity. }
  assert (E : len (payloadSubtitling x) = 8 * len (Sub_Items x))
    by (apply len_flat_map_fixed; exact Hlen).
  rewrite <- E. coded_intro.
  - blia.
  - unfold calcDescriptorSubtitlingLength, oderef. rewrite u8_small by blia.
    rewrite E. reflexivity.
  - unfold writeDescriptorSubtitling. cbn [wderef].
    apply Emits_items. intros item Hin. unfold payloadSubtitlingItem.
    eapply Emits_code3; [apply (Hi item Hin)|].
    apply Emits_byte_k. apply Emits_then; [apply Emits_16|apply Emits_16].
  - eapply Consumes_variant; [|reflexivity].
    unfold newDescriptorSubtitling, payloadSubtitling. destruct x as [items].
    cbn [Sub_Items] in *.
    apply Consumes_items.
    + intros item Hin. rewrite Hlen by exact Hin. blia.
    + intros item acc j Hin. destruct (Hi item Hin) as (Hc & Hcp & Hap).
      unfold payloadSubtitlingItem.
      apply Consumes_bytes_k; [symmetry; apply Hc|]. intros j1 _.
      apply Consumes_byte_k. intros j2 _.
      apply Consumes_bytesNoCopy_k; [reflexivity|]. intros j3 _.
      apply Consumes_eq with (inp := bytes_16 (SubI_AncillaryPageID item) ++ [])
                             (a := acc ++ [item]); [|apply app_nil_r|reflexivity].
      apply Consumes_bytesNoCopy_k; [reflexivity|]. intros j4 _.
      apply Consumes_ret_eq.
      rewrite !be16_bytes_16 by assumption. rewrite code3_slice_of by exact Hc.
      destruct item; reflexivity.
    + reflexivity.
Qed.

Lemma byte_5_3_read t m :
  0 <= t < 32 -> 0 <= m < 8 ->
  Z.shiftr (byte_5_3 t m) 3 = t /\ Z.land (byte_5_3 t m) 7 = m.
Proof.
  intros Ht Hm.
  assert (E : ((Z.shiftr (byte_5_3 t m) 3 =? t) && (Z.land (byte_5_3 t m) 7 =? m)) = true).
  { revert t m Ht Hm. change 32 with (Z.of_nat 32). change 8 with (Z.of_nat 8).
    refine (range2_forallb (fun t m => _ && _) 32 8 _). vm_compute. reflexivity. }
  rewrite andb_true_iff in E. destruct E as [E1 E2].
  apply Z.eqb_eq in E1, E2. auto.
Qed.

Lemma page_read p :
  0 <= p < 160 ->
  u8 (u8 (Z.shiftr (byte_nibbles (p / 10) (p mod 10)) 4 * 10)
      + Z.land (byte_nibbles (p / 10) (p mod 10)) 15) = p.
Proof.
  intros Hp.
  assert (H1 : 0 <= p / 10 < 16) by (Z.to_euclidean_division_equations; lia).
  assert (H2 : 0 <= p mod 10 < 16) by (Z.to_euclidean_division_equations; lia).
  destruct (nibbles_read _ _ H1 H2) as (-> & ->).
  unfold u8. rewrite (Z.mod_small (p / 10 * 10)) by lia.
  rewrite Z.mod_small by (Z.to_euclidean_division_equations; lia).
  Z.to_euclidean_division_equations; lia.
Qed.

Lemma len_payloadTeletextItem item :
  teletextItem_ok item -> len (payloadTeletextItem item) = 5.
Proof.
  intros [[Hc _] _]. unfold payloadTeletextItem. rewrite len_app, Hc. reflexivity.
Qed.

Lemma writeDescriptorTeletext_emits x :
  (forall item, In item (TT_Items x) -> teletextItem_ok item) ->
  Emits (writeDescriptorTeletext (Some x)) None (payloadTeletext x).
Proof.
  intros Hi. unfold writeDescriptorTeletext. cbn [wderef].
  apply Emits_items. intros item Hin. unfold payloadTeletextItem.
  eapply Emits_code3; [apply (Hi item Hin)|].
  apply Emits_5_3.
  apply Emits_eq with
    (o := [byte_nibbles (TI_Page item / 10) (TI_Page item mod 10)]); [|reflexivity].
  apply Emits_nibbles with (k := wret tt) (r := tt) (out := []). apply Emits_ret.
Qed.

Lemma newDescriptorTeletext_consumes x i :
  (forall item, In item (TT_Items x) -> teletextItem_ok item) ->
  Consumes (newDescriptorTeletext (offset i + len (payloadTeletext x))) i
    (payloadTeletext x) x.
Proof.
  intros Hi. unfold newDescriptorTeletext, payloadTeletext. destruct x as [items].
  cbn [TT_Items] in *.
  apply Consumes_items.
  - intros item Hin. rewrite len_payloadTeletextItem by (apply Hi; exact Hin). blia.
  - intros item acc j Hin. destruct (Hi item Hin) as (Hc & Ht & Hm & Hp).
    unfold payloadTeletextItem.
    apply Consumes_bytes_k; [symmetry; apply Hc|]. intros j1 _.
    apply Consumes_byte_k. intros j2 _.
    apply Consumes_byte_k. intros j3 _.
    apply Consumes_ret_eq.
    destruct (byte_5_3_read _ _ Ht Hm) as (-> & ->).
    rewrite page_read by exact Hp. rewrite code3_slice_of by exact Hc.
    destruct item; reflexivity.
  - reflexivity.
Qed.

Lemma Teletext_coded x :
  (forall item, In item (TT_Items x) -> teletextItem_ok item) ->
  0 < len (TT_Items x) <= 51 ->
  coded_ok (mkCoded (descriptorTeletext x) (payloadTeletext x) (descriptorTeletext x)).
Proof.
  intros Hi Hl. unfold descriptorTeletext.
  assert (E : len (payloadTeletext x) = 5 * len (TT_Items x)).
  { apply len_flat_map_fixed. intros item Hin. apply len_payloadTeletextItem, Hi, Hin. }
  rewrite <- E. coded_intro.
  - blia.
  - unfold calcDescriptorTeletextLength, oderef. rewrite u8_small by blia.
    rewrite E. reflexivity.
  - apply writeDescriptorTeletext_emits. exact Hi.
  - eapply Consumes_variant; [|reflexivity].
    apply newDescriptorTeletext_consumes. exact Hi.
Qed.

Lemma VBITeletext_coded x :
  (forall item, In item (TT_Items x) -> teletextItem_ok item) ->
  0 < len (TT_Items x) <= 51 ->
  coded_ok (mkCoded (descriptorVBITeletext x) (payloadTeletext x)
              (descriptorVBITeletext x)).
Proof.
  intros Hi Hl. unfold descriptorVBITeletext.
  assert (E : len (payloadTeletext x) = 5 * len (TT_Items x)).
  { apply len_flat_map_fixed. intros item Hin. apply len_payloadTeletextItem, Hi, Hin. }
  rewrite <- E. coded_intro.
  - blia.
  - unfold calcDescriptorTeletextLength, oderef. rewrite u8_small by blia.
    rewrite E. reflexivity.
  - apply writeDescriptorTeletext_emits. exact Hi.
  - eapply Consumes_variant; [|reflexivity].
    apply newDescriptorTeletext_consumes. exact Hi.
Qed.


(** *** VBI data *)

Lemma Consumes_loop_fold {A X} (enc : X -> bytes) (step : A -> X -> A)
  (body : A -> M A) offsetEnd (xs : list X) :
  (forall x, In x xs -> 0 < len (enc x)) ->
  (forall x acc i, In x xs -> Consumes (body acc) i (enc x) (step acc x)) ->
  forall fuel acc i,
    offsetEnd = offset i + len (flat_map enc xs) ->
    len (flat_map enc xs) <= Z.of_nat fuel ->
    Consumes (loop fuel offsetEnd body acc) i (flat_map enc xs) (fold_left step xs acc).
Proof.
  intros Hpos Hbody. induction xs as [|x xs IH]; intros fuel acc i Hend Hfuel.
  - cbn [flat_map fold_left] in *. rewrite len_nil in *.
    apply Consumes_loop_done. lia.
  - cbn [flat_map fold_left] in *. rewrite len_app in *.
    assert (Hx : 0 < len (enc x)) by (apply Hpos; left; reflexivity).
    pose proof (len_nonneg (flat_map enc xs)) as Hl.
    destruct fuel as [|fuel]; [lia|].
    apply Consumes_loop_turn; [lia|].
    apply Consumes_bind with (a := step acc x).
    + apply Hbody. left. reflexivity.
    + intros i' Hb Ho. apply IH.
      * intros y Hy. apply Hpos. right. exact Hy.
      * intros y acc' i'' Hy. apply Hbody. right. exact Hy.
      * lia.
      * lia.
Qed.

Lemma Consumes_for_offset_fold {A X} (enc : X -> bytes) (step : A -> X -> A)
  (body : A -> M A) offsetEnd (xs : list X) acc i :
  (forall x, In x xs -> 0 < len (enc x)) ->
  (forall x acc i, In x xs -> Consumes (body acc) i (enc x) (step acc x)) ->
  offsetEnd = offset i + len (flat_map enc xs) ->
  Consumes (for_offset offsetEnd body acc) i (flat_map enc xs) (fold_left step xs acc).
Proof.
  intros Hpos Hbody Hend. unfold for_offset.
  apply Consumes_loop_fold; auto.
  pose proof (len_nonneg (flat_map enc xs)). lia.
Qed.

Lemma byte_vbi_read p v :
  0 <= v < 32 ->
  bit_set (byte_vbi p v) 32 = p /\ Z.land (byte_vbi p v) 31 = v.
Proof.
  intros Hv.
  assert (E : (Bool.eqb (bit_set (byte_vbi p v) 32) p
               && (Z.land (byte_vbi p v) 31 =? v)) = true).
  { revert v Hv. change 32 with (Z.of_nat 32) at 2.
    destruct p; refine (range_forallb (fun v => _ && _) 32 _); vm_compute; reflexivity. }
  rewrite andb_true_iff in E. destruct E as [E1 E2].
  apply Bool.eqb_prop in E1. apply Z.eqb_eq in E2. auto.
Qed.

Lemma len_payloadVBIDataService s :
  vbiDataService_ok s -> len (payloadVBIDataService s) = 3.
Proof.
  unfold vbiDataService_ok, payloadVBIDataService.
  destruct (knownVBIDataServiceID (VBIS_DataServiceID s)).
  - intros (d & -> & _). reflexivity.
  - intros _. reflexivity.
Qed.

Lemma VBIData_coded x :
  (forall s, In s (VBI_Services x) -> vbiDataService_ok s) ->
  0 < len (VBI_Services x) <= 85 ->
  coded_ok (mkCoded (descriptorVBIData x) (payloadVBIData x) (descriptorVBIData x)).
Proof.
  intros Hi Hl. unfold descriptorVBIData.
  assert (E : len (payloadVBIData x) = 3 * len (VBI_Services x)).
  { apply len_flat_map_fixed. intros s Hin. apply len_payloadVBIDataService, Hi, Hin. }
  rewrite <- E. coded_intro.
  - blia.
  - unfold calcDescriptorVBIDataLength, oderef. rewrite u8_small by blia.
    rewrite E. reflexivity.
  - unfold writeDescriptorVBIData. cbn [wderef].
    apply Emits_items. intros s Hin. unfold payloadVBIDataService.
    apply Emits_byte_k. pose proof (Hi s Hin) as Hs. unfold vbiDataService_ok in Hs.
    destruct (knownVBIDataServiceID (VBIS_DataServiceID s)).
    + destruct Hs as (d & Hd & Hv). rewrite Hd. cbn [flat_map wfor app].
      change (u8 (len [d])) with 1. change (len [d]) with 1.
      apply Emits_byte_k. unfold payloadVBIDataDescriptor.
      apply Emits_vbi with (k := wret tt) (r := tt) (out := []). apply Emits_ret.
    + apply Emits_byte_k, Emits_byte.
  - eapply Consumes_variant; [|reflexivity].
    unfold newDescriptorVBIData, payloadVBIData. destruct x as [services].
    cbn [VBI_Services] in *.
    apply Consumes_items.
    + intros s Hin. rewrite len_payloadVBIDataService by (apply Hi; exact Hin). blia.
    + intros s acc j Hin. pose proof (Hi s Hin) as Hs.
      unfold vbiDataService_ok in Hs. unfold payloadVBIDataService.
      destruct s as [id descs]. cbn [VBIS_DataServiceID VBIS_Descriptors] in *.
      apply Consumes_byte_k. intros j1 _.
      destruct (knownVBIDataServiceID id) eqn:K.
      * destruct Hs as (d & -> & Hv). change (len [d]) with 1.
        apply Consumes_byte_k. intros j2 _.
        apply Consumes_offset_k. intros j3 H3.
        apply Consumes_eq with (inp := flat_map payloadVBIDataDescriptor [d] ++ [])
          (a := acc ++ [mkDescriptorVBIDataService id [d]]);
          [|reflexivity|reflexivity].
        apply Consumes_items_k with (dec := fun d => d).
        -- reflexivity.
        -- intros d' acc' j' [<-|[]]. unfold payloadVBIDataDescriptor.
           apply Consumes_byte_k. intros j4 _.
           apply Consumes_ret_eq.
           destruct (byte_vbi_read (VBID_FieldParity d) _ Hv) as (-> & ->).
           destruct d; reflexivity.
        -- rewrite H3. reflexivity.
        -- intros j4 _. apply Consumes_ret.
      * subst descs.
        apply Consumes_byte_k. intros j2 _.
        apply Consumes_offset_k. intros j3 H3.
        apply Consumes_eq with (inp := flat_map (fun b : byte => [b]) [255] ++ [])
          (a := acc ++ [mkDescriptorVBIDataService id []]);
          [|reflexivity|reflexivity].
        apply Consumes_bind
          with (a := fold_left (fun (a : list DescriptorVBIDataDescriptor) (_ : byte) => a)
                       [255] []).
        -- apply Consumes_for_offset_fold.
           ++ intros b _. reflexivity.
           ++ intros b acc' j' _. apply Consumes_byte_k. intros j4 _.
              apply Consumes_ret.
           ++ rewrite H3. reflexivity.
        -- intros j4 _ _. apply Consumes_ret.
    + reflexivity.
Qed.


(** *** AC3, enhanced AC3: flags and the bytes they announce *)

Lemma len_opt_byte c v : len (opt_byte c v) = b2z c.
Proof. destruct c; reflexivity. Qed.

Lemma Emits_when_byte_k {A} c v (k : Wr BufferSink A) r out :
  Emits k r out ->
  Emits (wbind (wwhen c (wbyte v)) (fun _ => k)) r (opt_byte c v ++ out).
Proof.
  intros Hk. destruct c; cbn [wwhen opt_byte].
  - apply Emits_byte_k. exact Hk.
  - apply Emits_then; [apply Emits_ret|exact Hk].
Qed.

Lemma Consumes_opt_byte {A} (c : bool) v (k : byte -> M A) i inp a :
  (forall i', offset i' = offset i + b2z c ->
              Consumes (k (if c then v else 0)) i' inp a) ->
  Consumes (bind (when c 0 nextByte) k) i (opt_byte c v ++ inp) a.
Proof. apply Consumes_when_byte. Qed.

Lemma flags4_read a b c d :
  bit_set (byte_4flags a b c d) 128 = a /\ bit_set (byte_4flags a b c d) 64 = b /\
  bit_set (byte_4flags a b c d) 32 = c /\ bit_set (byte_4flags a b c d) 16 = d.
Proof. destruct a, b, c, d; repeat split; vm_compute; reflexivity. Qed.

Lemma flags8_read a b c d e f g h :
  bit_set (flags8 a b c d e f g h) 128 = a /\ bit_set (flags8 a b c d e f g h) 64 = b /\
  bit_set (flags8 a b c d e f g h) 32 = c /\ bit_set (flags8 a b c d e f g h) 16 = d /\
  bit_set (flags8 a b c d e f g h) 8 = e /\ bit_set (flags8 a b c d e f g h) 4 = f /\
  bit_set (flags8 a b c d e f g h) 2 = g /\ bit_set (flags8 a b c d e f g h) 1 = h.
Proof. destruct a, b, c, d, e, f, g, h; repeat split; vm_compute; reflexivity. Qed.

Lemma len_payloadAC3 x :
  len (payloadAC3 x)
  = 1 + b2z (AC3_HasComponentType x) + b2z (AC3_HasBSID x) + b2z (AC3_HasMainID x)
    + b2z (AC3_HasASVC x) + len (AC3_AdditionalInfo x).
Proof.
  unfold payloadAC3. rewrite len_cons, !len_app, !len_opt_byte. blia.
Qed.

Lemma b2z_range c : 0 <= b2z c <= 1.
Proof. destruct c; cbn; lia. Qed.

Lemma AC3_coded x :
  ac3_ok x -> len (payloadAC3 x) <= 255 ->
  coded_ok (mkCoded (descriptorAC3 x) (payloadAC3 x) (descriptorAC3 x)).
Proof.
  intros Hok Hl. unfold descriptorAC3.
  pose proof (len_payloadAC3 x) as E.
  pose proof (len_nonneg (AC3_AdditionalInfo x)) as Hn.
  pose proof (b2z_range (AC3_HasComponentType x)).
  pose proof (b2z_range (AC3_HasBSID x)).
  pose proof (b2z_range (AC3_HasMainID x)).
  pose proof (b2z_range (AC3_HasASVC x)).
  coded_intro.
  - blia.
  - unfold calcDescriptorAC3Length, oderef. rewrite <- E. rewrite u8_small by blia.
    reflexivity.
  - unfold writeDescriptorAC3, payloadAC3. cbn [wderef].
    apply Emits_4flags.
    apply Emits_when_byte_k, Emits_when_byte_k, Emits_when_byte_k, Emits_when_byte_k.
    eapply Emits_eq; [apply Emits_slice_k, Emits_err|apply app_nil_r].
  - eapply Consumes_variant; [|reflexivity].
    rewrite E. unfold newDescriptorAC3, payloadAC3.
    apply Consumes_byte_k. intros i1 O1. cbv zeta.
    destruct (flags4_read (AC3_HasComponentType x) (AC3_HasBSID x) (AC3_HasMainID x)
                (AC3_HasASVC x)) as (-> & -> & -> & ->).
    apply Consumes_opt_byte. intros i2 O2.
    apply Consumes_opt_byte. intros i3 O3.
    apply Consumes_opt_byte. intros i4 O4.
    apply Consumes_opt_byte. intros i5 O5.
    apply Consumes_eq with (inp := AC3_AdditionalInfo x ++ []) (a := x);
      [|apply app_nil_r|reflexivity].
    apply Consumes_rest_k; [blia|]. intros i6 _.
    apply Consumes_ret_eq.
    destruct x as [info asvc bsid ct hasvc hbsid hct hmain main].
    destruct Hok as (A1 & A2 & A3 & A4). cbn in A1, A2, A3, A4.
    destruct hasvc, hbsid, hct, hmain;
      rewrite ?A1, ?A2, ?A3, ?A4 by reflexivity; reflexivity.
Qed.

Lemma len_payloadEnhancedAC3 x :
  len (payloadEnhancedAC3 x)
  = 1 + b2z (EAC3_HasComponentType x) + b2z (EAC3_HasBSID x) + b2z (EAC3_HasMainID x)
    + b2z (EAC3_HasASVC x) + b2z (EAC3_HasSubStream1 x) + b2z (EAC3_HasSubStream2 x)
    + b2z (EAC3_HasSubStream3 x) + len (EAC3_AdditionalInfo x).
Proof.
  unfold payloadEnhancedAC3. rewrite len_cons, !len_app, !len_opt_byte. blia.
Qed.

Lemma EnhancedAC3_coded x :
  enhancedAC3_ok x -> len (payloadEnhancedAC3 x) <= 255 ->
  coded_ok (mkCoded (descriptorEnhancedAC3 x) (payloadEnhancedAC3 x)
              (descriptorEnhancedAC3 x)).
Proof.
  intros Hok Hl. unfold descriptorEnhancedAC3.
  pose proof (len_payloadEnhancedAC3 x) as E.
  pose proof (len_nonneg (EAC3_AdditionalInfo x)) as Hn.
  pose proof (b2z_range (EAC3_HasComponentType x)).
  pose proof (b2z_range (EAC3_HasBSID x)).
  pose proof (b2z_range (EAC3_HasMainID x)).
  pose proof (b2z_range (EAC3_HasASVC x)).
  pose proof (b2z_range (EAC3_HasSubStream1 x)).
  pose proof (b2z_range (EAC3_HasSubStream2 x)).
  pose proof (b2z_range (EAC3_HasSubStream3 x)).
  coded_intro.
  - blia.
  - unfold calcDescriptorEnhancedAC3Length, oderef. rewrite <- E.
    rewrite u8_small by blia. reflexivity.
  - unfold writeDescriptorEnhancedAC3, payloadEnhancedAC3. cbn [wderef].
    apply Emits_8flags.
    apply Emits_when_byte_k, Emits_when_byte_k, Emits_when_byte_k, Emits_when_byte_k.
    apply Emits_when_byte_k, Emits_when_byte_k, Emits_when_byte_k.
    eapply Emits_eq; [apply Emits_slice_k, Emits_err|apply app_nil_r].
  - eapply Consumes_variant; [|reflexivity].
    rewrite E. unfold newDescriptorEnhancedAC3, payloadEnhancedAC3.
    apply Consumes_byte_k. intros i1 O1. cbv zeta.
    destruct (flags8_read (EAC3_HasComponentType x) (EAC3_HasBSID x)
                (EAC3_HasMainID x) (EAC3_HasASVC x) (EAC3_MixInfoExists x)
                (EAC3_HasSubStream1 x) (EAC3_HasSubStream2 x) (EAC3_HasSubStream3 x))
      as (-> & -> & -> & -> & -> & -> & -> & ->).
    apply Consumes_opt_byte. intros i2 O2.
    apply Consumes_opt_byte. intros i3 O3.
    apply Consumes_opt_byte. intros i4 O4.
    apply Consumes_opt_byte. intros i5 O5.
    apply Consumes_opt_byte. intros i6 O6.
    apply Consumes_opt_byte. intros i7 O7.
    apply Consumes_opt_byte. intros i8 O8.
    apply Consumes_eq with (inp := EAC3_AdditionalInfo x ++ []) (a := x);
      [|apply app_nil_r|reflexivity].
    apply Consumes_rest_k; [blia|]. intros i9 _.
    apply Consumes_ret_eq.
    destruct x as [info asvc bsid ct hasvc hbsid hct hmain hs1 hs2 hs3 main mix s1 s2 s3].
    destruct Hok as (A1 & A2 & A3 & A4 & A5 & A6 & A7).
    cbn in A1, A2, A3, A4, A5, A6, A7.
    destruct hasvc, hbsid, hct, hmain, hs1, hs2, hs3;
      rewrite ?A1, ?A2, ?A3, ?A4, ?A5, ?A6, ?A7 by reflexivity; reflexivity.
Qed.


(** *** Extended event *)

Lemma extendedEventItemsLength_from items acc :
  fold_left
    (fun acc item => acc + 1 + len (EEI_Description item) + 1 + len (EEI_Content item))
    items acc
  = acc + len (flat_map payloadExtendedEventItem items).
Proof.
  revert acc. induction items as [|item items IH]; intros acc; cbn [fold_left flat_map].
  - rewrite len_nil. lia.
  - rewrite IH, len_app. unfold payloadExtendedEventItem at 2.
    rewrite len_cons, len_app, len_cons. blia.
Qed.

Lemma extendedEventItemsLength_payload x :
  extendedEventItemsLength (EE_Items x) = len (payloadExtendedEventItems x).
Proof. unfold extendedEventItemsLength. rewrite extendedEventItemsLength_from. reflexivity. Qed.

Lemma len_payloadExtendedEventItem_in item items :
  In item items ->
  len (EEI_Description item) + len (EEI_Content item) + 2
  <= len (flat_map payloadExtendedEventItem items).
Proof.
  induction items as [|y items IH]; intros Hin; [destruct Hin|].
  cbn [flat_map]. rewrite len_app.
  pose proof (len_nonneg (flat_map payloadExtendedEventItem items)).
  pose proof (len_nonneg (payloadExtendedEventItem y)).
  destruct Hin as [->|Hin].
  - unfold payloadExtendedEventItem at 1. rewrite len_cons, len_app, len_cons. blia.
  - specialize (IH Hin). blia.
Qed.

Lemma len_payloadExtendedEvent x :
  code3 (EE_ISO639LanguageCode x) [] ->
  len (payloadExtendedEvent x)
  = 6 + len (payloadExtendedEventItems x) + len (EE_Text x).
Proof.
  intros [Hc _]. unfold payloadExtendedEvent.
  rewrite len_cons, len_app, len_cons, len_app, len_cons, Hc. blia.
Qed.

Lemma ExtendedEvent_coded x :
  code3 (EE_ISO639LanguageCode x) [] ->
  0 <= EE_Number x < 16 -> 0 <= EE_LastDescriptorNumber x < 16 ->
  len (payloadExtendedEvent x) <= 255 ->
  coded_ok (mkCoded (descriptorExtendedEvent x) (payloadExtendedEvent x)
              (descriptorExtendedEvent x)).
Proof.
  intros Hc Hnum Hlast Hl. unfold descriptorExtendedEvent.
  pose proof (len_payloadExtendedEvent x Hc) as E.
  pose proof (len_nonneg (payloadExtendedEventItems x)) as Hn.
  pose proof (len_nonneg (EE_Text x)) as Ht.
  coded_intro.
  - blia.
  - unfold calcDescriptorExtendedEventLength, oderef, omap. cbn [fst].
    rewrite extendedEventItemsLength_payload. rewrite u8_small by blia.
    f_equal. blia.
  - unfold writeDescriptorExtendedEvent, calcDescriptorExtendedEventLength, oderef.
    rewrite extendedEventItemsLength_payload. cbn [wderef].
    apply Emits_bind with (o1 := [])
      (a := (u8 (1 + 3 + 1 + len (payloadExtendedEventItems x) + 1 + len (EE_Text x)),
             u8 (len (payloadExtendedEventItems x)))); [apply Emits_calc|].
    cbn [snd]. rewrite !u8_small by blia. unfold payloadExtendedEvent.
    apply Emits_nibbles. eapply Emits_code3; [exact Hc|].
    apply Emits_byte_k.
    apply Emits_then.
    + apply Emits_for. intros item Hin.
      pose proof (len_payloadExtendedEventItem_in item _ Hin) as Hi.
      fold (payloadExtendedEventItems x) in Hi.
      pose proof (len_nonneg (EEI_Description item)).
      pose proof (len_nonneg (EEI_Content item)).
      rewrite !u8_small by blia. unfold payloadExtendedEventItem.
      apply Emits_byte_k, Emits_slice_k, Emits_byte_k.
      eapply Emits_eq; [apply Emits_slice|reflexivity].
    + apply Emits_byte_k.
      eapply Emits_eq; [apply Emits_slice_k, Emits_err|apply app_nil_r].
  - eapply Consumes_variant; [|reflexivity].
    unfold newDescriptorExtendedEvent, payloadExtendedEvent.
    apply Consumes_byte_k. intros i1 _.
    apply Consumes_bytes_k; [symmetry; apply Hc|]. intros i2 _.
    apply Consumes_byte_k. intros i3 _.
    apply Consumes_offset_k. intros i4 O4.
    unfold payloadExtendedEventItems.
    apply Consumes_items_k with (dec := fun item => item).
    + intros item _. unfold payloadExtendedEventItem.
      rewrite len_cons, len_app, len_cons.
      pose proof (len_nonneg (EEI_Description item)).
      pose proof (len_nonneg (EEI_Content item)). blia.
    + intros item acc j _.
      apply Consumes_eq with (inp := payloadExtendedEventItem item ++ [])
                             (a := acc ++ [item]); [|apply app_nil_r|reflexivity].
      apply Consumes_bind with (a := item).
      * apply Consumes_wrap. unfold newDescriptorExtendedEventItem, payloadExtendedEventItem.
        apply Consumes_byte_k. intros j1 _.
        apply Consumes_bytes_k; [reflexivity|]. intros j2 _.
        apply Consumes_byte_k. intros j3 _.
        apply Consumes_eq with (inp := EEI_Content item ++ []) (a := item);
          [|apply app_nil_r|reflexivity].
        apply Consumes_bytes_k; [reflexivity|]. intros j4 _.
        apply Consumes_ret_eq. destruct item; reflexivity.
      * intros j1 _ _. apply Consumes_ret.
    + rewrite O4. reflexivity.
    + intros i5 _. rewrite map_id.
      apply Consumes_byte_k. intros i6 _.
      apply Consumes_eq with (inp := EE_Text x ++ []) (a := x);
        [|apply app_nil_r|reflexivity].
      apply Consumes_bytes_k; [reflexivity|]. intros i7 _.
      apply Consumes_ret_eq. rewrite code3_slice_of by exact Hc.
      destruct (nibbles_read _ _ Hnum Hlast) as (-> & ->).
      destruct x; reflexivity.
Qed.


(** *** Extension: supplementary audio, or bytes under another tag *)

Lemma supplementary_read m v h :
  0 <= v < 32 ->
  bit_set (byte_supplementary m v h) 128 = m /\
  Z.land (Z.shiftr (byte_supplementary m v h) 2) 31 = v /\
  bit_set (byte_supplementary m v h) 1 = h.
Proof.
  intros Hv.
  assert (E : (Bool.eqb (bit_set (byte_supplementary m v h) 128) m
               && (Z.land (Z.shiftr (byte_supplementary m v h) 2) 31 =? v)
               && Bool.eqb (bit_set (byte_supplementary m v h) 1) h) = true).
  { revert v Hv. change 32 with (Z.of_nat 32).
    destruct m, h; refine (range_forallb (fun v => _ && _ && _) 32 _);
      vm_compute; reflexivity. }
  rewrite !andb_true_iff in E. destruct E as [[E1 E2] E3].
  apply Bool.eqb_prop in E1, E3. apply Z.eqb_eq in E2. auto.
Qed.

Lemma len_payloadExtensionSupplementaryAudio x :
  supplementaryAudio_ok x ->
  len (payloadExtensionSupplementaryAudio x)
  = 1 + (if SA_HasLanguageCode x then 3 else 0) + len (SA_PrivateData x).
Proof.
  intros [_ Hc]. unfold payloadExtensionSupplementaryAudio.
  rewrite len_cons, len_app. destruct (SA_HasLanguageCode x).
  - destruct Hc as [-> _]. blia.
  - rewrite len_nil. blia.
Qed.

Lemma ExtensionSupplementaryAudio_coded x :
  supplementaryAudio_ok x ->
  len (payloadExtensionSupplementaryAudio x) <= 254 ->
  coded_ok
    (mkCoded (descriptorExtension (extensionSupplementaryAudio x))
       (payloadExtension (extensionSupplementaryAudio x))
       (descriptorExtension (extensionSupplementaryAudio x))).
Proof.
  intros Hok Hl. unfold descriptorExtension, extensionSupplementaryAudio.
  pose proof (len_payloadExtensionSupplementaryAudio x Hok) as E.
  pose proof (len_nonneg (SA_PrivateData x)) as Hn.
  pose proof (len_nonneg (payloadExtensionSupplementaryAudio x)) as Hp.
  assert (E' : len (payloadExtension (mkDescriptorExtension (Some x)
                      DescriptorTagExtensionSupplementaryAudio None))
               = 1 + len (payloadExtensionSupplementaryAudio x))
    by (unfold payloadExtension; rewrite len_cons; reflexivity).
  destruct Hok as [Hv Hc]. coded_intro.
  - blia.
  - unfold calcDescriptorExtensionLength, calcDescriptorExtensionSupplementaryAudioLength,
      oderef. cbn [Ext_Tag Ext_SupplementaryAudio].
    change (DescriptorTagExtensionSupplementaryAudio
            =? DescriptorTagExtensionSupplementaryAudio) with true. cbv iota.
    rewrite <- E. rewrite u8_small by blia. rewrite E'. reflexivity.
  - unfold writeDescriptorExtension. cbn [wderef Ext_Tag Ext_SupplementaryAudio].
    change (DescriptorTagExtensionSupplementaryAudio
            =? DescriptorTagExtensionSupplementaryAudio) with true. cbv iota.
    unfold payloadExtension. cbn [Ext_Tag Ext_SupplementaryAudio].
    apply Emits_byte_k.
    apply Emits_eq with (o := payloadExtensionSupplementaryAudio x ++ []);
      [|apply app_nil_r].
    apply Emits_bind with (a := @None error); [|apply Emits_err].
    unfold writeDescriptorExtensionSupplementaryAudio, payloadExtensionSupplementaryAudio.
    cbn [wderef]. apply Emits_supplementary.
    destruct (SA_HasLanguageCode x); cbn [wwhen].
    + eapply Emits_code3; [exact Hc|].
      eapply Emits_eq; [apply Emits_slice_k, Emits_err|apply app_nil_r].
    + apply Emits_then with (o1 := []); [apply Emits_ret|].
      eapply Emits_eq; [apply Emits_slice_k, Emits_err|apply app_nil_r].
  - eapply Consumes_variant; [|reflexivity].
    rewrite E', E. unfold newDescriptorExtension, payloadExtension.
    cbn [Ext_Tag Ext_SupplementaryAudio].
    apply Consumes_byte_k. intros i1 O1.
    change (DescriptorTagExtensionSupplementaryAudio
            =? DescriptorTagExtensionSupplementaryAudio) with true. cbv iota.
    apply Consumes_eq with (inp := payloadExtensionSupplementaryAudio x ++ [])
      (a := mkDescriptorExtension (Some x) DescriptorTagExtensionSupplementaryAudio None);
      [|apply app_nil_r|reflexivity].
    apply Consumes_bind with (a := x); [|intros i2 _ _; apply Consumes_ret].
    apply Consumes_wrap.
    unfold newDescriptorExtensionSupplementaryAudio, payloadExtensionSupplementaryAudio.
    apply Consumes_byte_k. intros i2 O2. cbv zeta.
    destruct (supplementary_read (SA_MixType x) _ (SA_HasLanguageCode x) Hv)
      as (-> & -> & ->).
    destruct x as [class has lang mix private].
    cbn [SA_HasLanguageCode SA_LanguageCode SA_PrivateData SA_MixType
         SA_EditorialClassification] in *.
    destruct has; cbn [when].
    + apply Consumes_bytes_k; [symmetry; apply Hc|]. intros i3 O3.
      apply Consumes_eq with (inp := private ++ [])
        (a := mkDescriptorExtensionSupplementaryAudio class true lang mix private);
        [|apply app_nil_r|reflexivity].
      apply Consumes_rest_k; [destruct Hc as [Hc _]; blia|]. intros i4 _.
      apply Consumes_ret_eq. rewrite code3_slice_of by exact Hc. reflexivity.
    + apply Consumes_bind with (a := @nil byte); [apply Consumes_ret|]. intros i3 _ O3.
      rewrite len_nil in O3.
      apply Consumes_eq with (inp := private ++ [])
        (a := mkDescriptorExtensionSupplementaryAudio class false lang mix private);
        [|apply app_nil_r|reflexivity].
      apply Consumes_rest_k; [blia|]. intros i4 _.
      apply Consumes_ret_eq. rewrite Hc. reflexivity.
Qed.

Lemma ExtensionUnknown_coded tag u :
  tag <> DescriptorTagExtensionSupplementaryAudio -> len u <= 254 ->
  coded_ok (mkCoded (descriptorExtension (extensionUnknown tag u))
              (payloadExtension (extensionUnknown tag u))
              (descriptorExtension (extensionUnknown tag u))).
Proof.
  intros Ht Hl. pose proof (len_nonneg u) as Hn.
  assert (E : len (payloadExtension (extensionUnknown tag u)) = 1 + len u)
    by (unfold payloadExtension; rewrite len_cons; reflexivity).
  unfold descriptorExtension, extensionUnknown in *.
  assert (T : (tag =? DescriptorTagExtensionSupplementaryAudio) = false)
    by (apply Z.eqb_neq; exact Ht).
  coded_intro.
  - blia.
  - unfold calcDescriptorExtensionLength. cbn [Ext_Tag Ext_Unknown]. rewrite T.
    rewrite u8_small by blia. rewrite E. reflexivity.
  - unfold writeDescriptorExtension, payloadExtension.
    cbn [wderef Ext_Tag Ext_Unknown Ext_SupplementaryAudio]. rewrite T.
    apply Emits_byte_k.
    eapply Emits_eq; [apply Emits_slice_k, Emits_err|apply app_nil_r].
  - eapply Consumes_variant; [|reflexivity].
    rewrite E. unfold newDescriptorExtension, payloadExtension.
    cbn [Ext_Tag Ext_Unknown Ext_SupplementaryAudio].
    apply Consumes_byte_k. intros i1 O1. rewrite T.
    apply Consumes_eq with (inp := u ++ []) (a := mkDescriptorExtension None tag (Some u));
      [|apply app_nil_r|reflexivity].
    apply Consumes_until_k; [blia|]. intros i2 _.
    apply Consumes_ret.
Qed.

End DescriptorKinds.

(** ** Round trips of descriptors through the writer and the parser *)

Section DescriptorRoundTrips.

Lemma Reads_start (wire : bytes) : Reads (NewBytesIterator wire) (wire ++ []).
Proof.
  unfold Reads, NewBytesIterator. cbn [offset bs Z.to_nat skipn].
  rewrite app_nil_r. split; [|reflexivity]. pose proof (len_nonneg wire). lia.
Qed.

Lemma coded_round_trip xs :
  (forall x, In x xs -> coded_ok x) ->
  len (flat_map coded_entry xs) < 4096 ->
  WrittenAndParsedBack (map coded_written xs)
    (descriptorsWire (flat_map coded_entry xs)) (map coded_parsed xs).
Proof.
  intros Hok Hlt. unfold WrittenAndParsedBack, descriptorsWire.
  set (wire := bytes_4_12 (len (flat_map coded_entry xs)) ++ flat_map coded_entry xs).
  destruct (writeDescriptorsWithLength_coded xs Hok Hlt [] 0) as [c' Hw].
  fold wire in Hw. cbn [app] in Hw.
  exists (mkWriter wire 0 0 c' None). split; [|split].
  - unfold fresh_writer, newLightweightBitsWriter. rewrite Hw. f_equal. f_equal. f_equal.
    unfold wire. rewrite len_app. change (len (bytes_4_12 _)) with 2. lia.
  - reflexivity.
  - destruct (parseDescriptors_coded xs (NewBytesIterator wire) Hok Hlt [] (Reads_start wire))
      as (i' & Hp & Hb & Ho).
    rewrite Hp. f_equal. destruct i' as [b o]. cbn [bs offset NewBytesIterator] in *.
    subst. f_equal.
Qed.

Lemma coded_round_trip_single x :
  coded_ok x ->
  WrittenAndParsedBack [coded_written x] (descriptorsWire (coded_entry x))
    [coded_parsed x].
Proof.
  intros Hok.
  assert (H : forall y, In y [x] -> coded_ok y) by (intros y [<-|[]]; exact Hok).
  assert (L : len (flat_map coded_entry [x]) < 4096).
  { cbn [flat_map]. rewrite app_nil_r, len_coded_entry. destruct Hok as [Hl _]. lia. }
  pose proof (coded_round_trip [x] H L) as R.
  cbn [map flat_map] in R. rewrite app_nil_r in R. exact R.
Qed.


(** X1. A list of descriptors whose payloads the writer and the parser
    agree on, of fewer than 4096 bytes once written, goes through
    [writeDescriptorsWithLength] and comes back from [parseDescriptors]:
    the writer reports the bytes written, the bytes are the 12-bit length
    followed by the entries (tag, length, payload), and the parser returns
    one descriptor per entry and stops at the end. *)
Theorem descriptors_round_trip (xs : list coded) :
  Forall coded_ok xs ->
  len (flat_map coded_entry xs) < 4096 ->
  WrittenAndParsedBack (map coded_written xs)
    (descriptorsWire (flat_map coded_entry xs)) (map coded_parsed xs).
Proof.
  intros Hok Hlt. apply coded_round_trip; [|exact Hlt].
  apply Forall_forall. exact Hok.
Qed.

Lemma descriptors_round_trip_witness :
  WrittenAndParsedBack
    [descriptorStreamIdentifier (mkDescriptorStreamIdentifier 7);
     descriptorNetworkName (mkDescriptorNetworkName [78; 101; 116]);
     descriptorMaximumBitrate (mkDescriptorMaximumBitrate 5000)]
    [240; 13; 82; 1; 7; 64; 3; 78; 101; 116; 14; 3; 192; 0; 100]
    [descriptorStreamIdentifier (mkDescriptorStreamIdentifier 7);
     descriptorNetworkName (mkDescriptorNetworkName [78; 101; 116]);
     descriptorMaximumBitrate (mkDescriptorMaximumBitrate 5000)].
Proof.
  apply (descriptors_round_trip
           [mkCoded (descriptorStreamIdentifier (mkDescriptorStreamIdentifier 7)) [7]
              (descriptorStreamIdentifier (mkDescriptorStreamIdentifier 7));
            mkCoded (descriptorNetworkName (mkDescriptorNetworkName [78; 101; 116]))
              [78; 101; 116]
              (descriptorNetworkName (mkDescriptorNetworkName [78; 101; 116]));
            mkCoded (descriptorMaximumBitrate (mkDescriptorMaximumBitrate 5000))
              (bytes_2_22 100)
              (descriptorMaximumBitrate (mkDescriptorMaximumBitrate 5000))]).
  - apply Forall_cons; [|apply Forall_cons; [|apply Forall_cons; [|apply Forall_nil]]].
    + apply (StreamIdentifier_coded (mkDescriptorStreamIdentifier 7)).
    + apply (NetworkName_coded (mkDescriptorNetworkName [78; 101; 116])).
      vm_compute. split; [reflexivity|discriminate].
    + apply (MaximumBitrate_coded (mkDescriptorMaximumBitrate 5000)).
      vm_compute. split; [discriminate|reflexivity].
  - vm_compute. reflexivity.
Defined.

(** X2. Stream identifier and data stream alignment descriptors: the one
    byte of the payload is the component tag, or the alignment type, and
    both come back as written. *)
Theorem one_byte_descriptors_round_trip :
  (forall x,
     WrittenAndParsedBack [descriptorStreamIdentifier x]
       (descriptorsWire (entry DescriptorTagStreamIdentifier [SI_ComponentTag x]))
       [descriptorStreamIdentifier x]) /\
  (forall x,
     WrittenAndParsedBack [descriptorDataStreamAlignment x]
       (descriptorsWire (entry DescriptorTagDataStreamAlignment [DSA_Type x]))
       [descriptorDataStreamAlignment x]).
Proof.
  split; intros x.
  - exact (coded_round_trip_single _ (StreamIdentifier_coded x)).
  - exact (coded_round_trip_single _ (DataStreamAlignment_coded x)).
Qed.


(** X3. Descriptors whose payload is a run of bytes kept as it is: the
    network name, the bytes of a user defined tag (128 to 254), and the
    content kept for a tag that the switch does not name.  From 1 to 255
    bytes come back as written. *)
Theorem opaque_descriptors_round_trip :
  (forall x,
     0 < len (NN_Name x) <= 255 ->
     WrittenAndParsedBack [descriptorNetworkName x]
       (descriptorsWire (entry DescriptorTagNetworkName (NN_Name x)))
       [descriptorNetworkName x]) /\
  (forall tag b,
     isUserDefinedTag tag = true -> 0 < len b <= 255 ->
     WrittenAndParsedBack [descriptorUserDefined tag b]
       (descriptorsWire (entry tag b)) [descriptorUserDefined tag b]) /\
  (forall x,
     isUserDefinedTag (Unk_Tag x) = false -> ~ In (Unk_Tag x) descriptorTags ->
     0 < len (Unk_Content x) <= 255 ->
     WrittenAndParsedBack [descriptorUnknown x]
       (descriptorsWire (entry (Unk_Tag x) (Unk_Content x))) [descriptorUnknown x]).
Proof.
  split; [|split].
  - intros x Hl. exact (coded_round_trip_single _ (NetworkName_coded x Hl)).
  - intros tag b Ht Hl. exact (coded_round_trip_single _ (UserDefined_coded tag b Ht Hl)).
  - intros x Ht Hn Hl. exact (coded_round_trip_single _ (Unknown_coded x Ht Hn Hl)).
Qed.

Lemma opaque_descriptors_round_trip_witness :
  WrittenAndParsedBack [descriptorNetworkName (mkDescriptorNetworkName [78; 101; 116])]
    [240; 5; 64; 3; 78; 101; 116]
    [descriptorNetworkName (mkDescriptorNetworkName [78; 101; 116])] /\
  WrittenAndParsedBack [descriptorUserDefined 200 [1; 2]] [240; 4; 200; 2; 1; 2]
    [descriptorUserDefined 200 [1; 2]] /\
  WrittenAndParsedBack [descriptorUnknown (mkDescriptorUnknown [9] 3)] [240; 3; 3; 1; 9]
    [descriptorUnknown (mkDescriptorUnknown [9] 3)].
Proof.
  split; [|split].
  - apply (proj1 opaque_descriptors_round_trip (mkDescriptorNetworkName [78; 101; 116])).
    vm_compute. split; [reflexivity|discriminate].
  - apply (proj1 (proj2 opaque_descriptors_round_trip) 200 [1; 2]).
    + reflexivity.
    + vm_compute. split; [reflexivity|discriminate].
  - apply (proj2 (proj2 opaque_descriptors_round_trip) (mkDescriptorUnknown [9] 3)).
    + reflexivity.
    + vm_compute. intros H.
      repeat (destruct H as [H|H]; [discriminate H|]). exact H.
    + vm_compute. split; [reflexivity|discriminate].
Defined.

(** X4. Private data indicator and private data specifier: a value below
    2^32 is written on four bytes, most significant first, and comes
    back. *)
Theorem privateData_round_trip :
  (forall x,
     0 <= PDI_Indicator x < 4294967296 ->
     WrittenAndParsedBack [descriptorPrivateDataIndicator x]
       (descriptorsWire
          (entry DescriptorTagPrivateDataIndicator (bytes_32 (PDI_Indicator x))))
       [descriptorPrivateDataIndicator x]) /\
  (forall x,
     0 <= PDS_Specifier x < 4294967296 ->
     WrittenAndParsedBack [descriptorPrivateDataSpecifier x]
       (descriptorsWire
          (entry DescriptorTagPrivateDataSpecifier (bytes_32 (PDS_Specifier x))))
       [descriptorPrivateDataSpecifier x]).
Proof.
  split; intros x Hv.
  - exact (coded_round_trip_single _ (PrivateDataIndicator_coded x Hv)).
  - exact (coded_round_trip_single _ (PrivateDataSpecifier_coded x Hv)).
Qed.

Lemma privateData_round_trip_witness :
  WrittenAndParsedBack
    [descriptorPrivateDataIndicator (mkDescriptorPrivateDataIndicator 305419896)]
    [240; 6; 15; 4; 18; 52; 86; 120]
    [descriptorPrivateDataIndicator (mkDescriptorPrivateDataIndicator 305419896)] /\
  WrittenAndParsedBack
    [descriptorPrivateDataSpecifier (mkDescriptorPrivateDataSpecifier 40)]
    [240; 6; 95; 4; 0; 0; 0; 40]
    [descriptorPrivateDataSpecifier (mkDescriptorPrivateDataSpecifier 40)].
Proof.
  split.
  - apply (proj1 privateData_round_trip (mkDescriptorPrivateDataIndicator 305419896)).
    vm_compute. split; [discriminate|reflexivity].
  - apply (proj2 privateData_round_trip (mkDescriptorPrivateDataSpecifier 40)).
    vm_compute. split; [discriminate|reflexivity].
Defined.

(** X5. Registration: the format identifier on four bytes, then up to 251
    bytes of additional identification info; both come back. *)
Theorem registration_round_trip x :
  0 <= Reg_FormatIdentifier x < 4294967296 ->
  len (Reg_AdditionalIdentificationInfo x) <= 251 ->
  WrittenAndParsedBack [descriptorRegistration x]
    (descriptorsWire
       (entry DescriptorTagRegistration
          (bytes_32 (Reg_FormatIdentifier x) ++ Reg_AdditionalIdentificationInfo x)))
    [descriptorRegistration x].
Proof.
  intros Hv Hl. exact (coded_round_trip_single _ (Registration_coded x Hv Hl)).
Qed.

Lemma registration_round_trip_witness :
  WrittenAndParsedBack [descriptorRegistration (mkDescriptorRegistration [1; 2] 1129661780)]
    [240; 8; 5; 6; 67; 85; 69; 84; 1; 2]
    [descriptorRegistration (mkDescriptorRegistration [1; 2] 1129661780)].
Proof.
  apply (registration_round_trip (mkDescriptorRegistration [1; 2] 1129661780)).
  - vm_compute. split; [discriminate|reflexivity].
  - vm_compute. discriminate.
Defined.

(** X6. Maximum bitrate: the writer divides by 50 and the parser
    multiplies by 50, so a bitrate below 50 * 2^22 comes back rounded down
    to a multiple of 50 (and unchanged when it is one). *)
Theorem maximumBitrate_round_trip x :
  0 <= MB_Bitrate x < 50 * 4194304 ->
  WrittenAndParsedBack [descriptorMaximumBitrate x]
    (descriptorsWire (entry DescriptorTagMaximumBitrate (bytes_2_22 (MB_Bitrate x / 50))))
    [descriptorMaximumBitrate (mkDescriptorMaximumBitrate (MB_Bitrate x / 50 * 50))].
Proof.
  intros Hv. exact (coded_round_trip_single _ (MaximumBitrate_coded x Hv)).
Qed.

Lemma maximumBitrate_round_trip_witness :
  WrittenAndParsedBack [descriptorMaximumBitrate (mkDescriptorMaximumBitrate 5049)]
    [240; 5; 14; 3; 192; 0; 100]
    [descriptorMaximumBitrate (mkDescriptorMaximumBitrate 5000)].
Proof.
  apply (maximumBitrate_round_trip (mkDescriptorMaximumBitrate 5049)).
  vm_compute. split; [discriminate|reflexivity].
Defined.

(** X7. Service: type, provider and name, each of the two behind its
    length byte; a descriptor whose provider and name take at most 252
    bytes together comes back. *)
Theorem service_round_trip x :
  len (Svc_Name x) + len (Svc_Provider x) <= 252 ->
  WrittenAndParsedBack [descriptorService x]
    (descriptorsWire (entry DescriptorTagService (payloadService x)))
    [descriptorService x].
Proof.
  intros Hl. exact (coded_round_trip_single _ (Service_coded x Hl)).
Qed.

Lemma service_round_trip_witness :
  WrittenAndParsedBack [descriptorService (mkDescriptorService [78; 49] [80] 1)]
    [240; 8; 72; 6; 1; 1; 80; 2; 78; 49]
    [descriptorService (mkDescriptorService [78; 49] [80] 1)].
Proof.
  apply (service_round_trip (mkDescriptorService [78; 49] [80] 1)).
  vm_compute. discriminate.
Defined.

(** X8. Short event: a three-letter language, then event name and text
    behind their length bytes; at most 250 bytes of name and text come
    back. *)
Theorem shortEvent_round_trip x :
  code3 (SE_Language x) [] ->
  len (SE_EventName x) + len (SE_Text x) <= 250 ->
  WrittenAndParsedBack [descriptorShortEvent x]
    (descriptorsWire (entry DescriptorTagShortEvent (payloadShortEvent x)))
    [descriptorShortEvent x].
Proof.
  intros Hc Hl. exact (coded_round_trip_single _ (ShortEvent_coded x Hc Hl)).
Qed.

Lemma shortEvent_round_trip_witness :
  WrittenAndParsedBack
    [descriptorShortEvent (mkDescriptorShortEvent [69] (slice_of [102; 114; 97]) [84; 88])]
    [240; 10; 77; 8; 102; 114; 97; 1; 69; 2; 84; 88]
    [descriptorShortEvent (mkDescriptorShortEvent [69] (slice_of [102; 114; 97]) [84; 88])].
Proof.
  apply (shortEvent_round_trip
           (mkDescriptorShortEvent [69] (slice_of [102; 114; 97]) [84; 88])).
  - split; reflexivity.
  - vm_compute. discriminate.
Defined.

(** X9. AVC video: profile, three constraint flags with five compatible
    flags, level, then the still-present and 24-hour flags above six
    reserved bits; the four bytes come back. *)
Theorem avcVideo_round_trip x :
  0 <= AVC_CompatibleFlags x < 32 ->
  WrittenAndParsedBack [descriptorAVCVideo x]
    (descriptorsWire (entry DescriptorTagAVCVideo (payloadAVCVideo x)))
    [descriptorAVCVideo x].
Proof.
  intros Hv. exact (coded_round_trip_single _ (AVCVideo_coded x Hv)).
Qed.

Lemma avcVideo_round_trip_witness :
  WrittenAndParsedBack
    [descriptorAVCVideo (mkDescriptorAVCVideo true false 5 true false true 40 100)]
    [240; 6; 40; 4; 100; 165; 40; 127]
    [descriptorAVCVideo (mkDescriptorAVCVideo true false 5 true false true 40 100)].
Proof.
  apply (avcVideo_round_trip (mkDescriptorAVCVideo true false 5 true false true 40 100)).
  vm_compute. split; [discriminate|reflexivity].
Defined.

(** X10. Component: two nibbles (stream content ext, stream content),
    component type and tag, a three-letter language and up to 249 bytes of
    text come back. *)
Theorem component_round_trip x :
  code3 (Comp_ISO639LanguageCode x) [] ->
  0 <= Comp_StreamContentExt x < 16 -> 0 <= Comp_StreamContent x < 16 ->
  len (Comp_Text x) <= 249 ->
  WrittenAndParsedBack [descriptorComponent x]
    (descriptorsWire (entry DescriptorTagComponent (payloadComponent x)))
    [descriptorComponent x].
Proof.
  intros Hc He Hs Hl. exact (coded_round_trip_single _ (Component_coded x Hc He Hs Hl)).
Qed.

Lemma component_round_trip_witness :
  WrittenAndParsedBack
    [descriptorComponent (mkDescriptorComponent 2 3 (slice_of [101; 110; 103]) 1 15 [84])]
    [240; 9; 80; 7; 241; 3; 2; 101; 110; 103; 84]
    [descriptorComponent (mkDescriptorComponent 2 3 (slice_of [101; 110; 103]) 1 15 [84])].
Proof.
  apply (component_round_trip
           (mkDescriptorComponent 2 3 (slice_of [101; 110; 103]) 1 15 [84])).
  - split; reflexivity.
  - vm_compute. split; [discriminate|reflexivity].
  - vm_compute. split; [discriminate|reflexivity].
  - vm_compute. discriminate.
Defined.

(** X11. ISO 639 language and audio type: a language of three bytes that
    shares its array with the type byte, as the parser builds it, comes
    back. *)
Theorem iso639_round_trip x :
  code3 (ISO639_Language x) [ISO639_Type x] ->
  WrittenAndParsedBack [descriptorISO639LanguageAndAudioType x]
    (descriptorsWire
       (entry DescriptorTagISO639LanguageAndAudioType
          (payloadISO639LanguageAndAudioType x)))
    [descriptorISO639LanguageAndAudioType x].
Proof.
  intros Hc. exact (coded_round_trip_single _ (ISO639LanguageAndAudioType_coded x Hc)).
Qed.

Lemma iso639_round_trip_witness :
  WrittenAndParsedBack
    [descriptorISO639LanguageAndAudioType
       (mkDescriptorISO639LanguageAndAudioType (mkSlice [102; 114; 97] [1]) 1)]
    [240; 6; 10; 4; 102; 114; 97; 1]
    [descriptorISO639LanguageAndAudioType
       (mkDescriptorISO639LanguageAndAudioType (mkSlice [102; 114; 97] [1]) 1)].
Proof.
  apply (iso639_round_trip
           (mkDescriptorISO639LanguageAndAudioType (mkSlice [102; 114; 97] [1]) 1)).
  split; reflexivity.
Defined.


(** X12. Content: two bytes per item, the two nibbles and the user byte;
    from 1 to 127 items come back in order. *)
Theorem content_round_trip x :
  (forall item, In item (Content_Items x) ->
     0 <= CI_ContentNibbleLevel1 item < 16 /\ 0 <= CI_ContentNibbleLevel2 item < 16) ->
  0 < len (Content_Items x) <= 127 ->
  WrittenAndParsedBack [descriptorContent x]
    (descriptorsWire (entry DescriptorTagContent (payloadContent x)))
    [descriptorContent x].
Proof.
  intros Hi Hl. exact (coded_round_trip_single _ (Content_coded x Hi Hl)).
Qed.

Lemma content_round_trip_witness :
  WrittenAndParsedBack
    [descriptorContent
       (mkDescriptorContent [mkDescriptorContentItem 1 2 3; mkDescriptorContentItem 15 0 9])]
    [240; 6; 84; 4; 18; 3; 240; 9]
    [descriptorContent
       (mkDescriptorContent [mkDescriptorContentItem 1 2 3; mkDescriptorContentItem 15 0 9])].
Proof.
  apply (content_round_trip
           (mkDescriptorContent
              [mkDescriptorContentItem 1 2 3; mkDescriptorContentItem 15 0 9])).
  - intros item [<-|[<-|[]]]; vm_compute; repeat split; discriminate.
  - vm_compute. split; [reflexivity|discriminate].
Defined.

(** X13. Parental rating: four bytes per item, a country code of three
    bytes that shares its array with the rating byte; from 1 to 63 items
    come back in order. *)
Theorem parentalRating_round_trip x :
  (forall item, In item (PR_Items x) -> code3 (PRI_CountryCode item) [PRI_Rating item]) ->
  0 < len (PR_Items x) <= 63 ->
  WrittenAndParsedBack [descriptorParentalRating x]
    (descriptorsWire (entry DescriptorTagParentalRating (payloadParentalRating x)))
    [descriptorParentalRating x].
Proof.
  intros Hi Hl. exact (coded_round_trip_single _ (ParentalRating_coded x Hi Hl)).
Qed.

Lemma parentalRating_round_trip_witness :
  WrittenAndParsedBack
    [descriptorParentalRating
       (mkDescriptorParentalRating
          [mkDescriptorParentalRatingItem (mkSlice [70; 82; 65] [4]) 4])]
    [240; 6; 85; 4; 70; 82; 65; 4]
    [descriptorParentalRating
       (mkDescriptorParentalRating
          [mkDescriptorParentalRatingItem (mkSlice [70; 82; 65] [4]) 4])].
Proof.
  apply (parentalRating_round_trip
           (mkDescriptorParentalRating
              [mkDescriptorParentalRatingItem (mkSlice [70; 82; 65] [4]) 4])).
  - intros item [<-|[]]. split; reflexivity.
  - vm_compute. split; [reflexivity|discriminate].
Defined.

(** X14. Subtitling: eight bytes per item, language, type, composition
    page id and ancillary page id, each id on 16 bits; from 1 to 31 items
    come back in order. *)
Theorem subtitling_round_trip x :
  (forall item, In item (Sub_Items x) ->
     code3 (SubI_Language item) [] /\
     0 <= SubI_CompositionPageID item < 65536 /\
     0 <= SubI_AncillaryPageID item < 65536) ->
  0 < len (Sub_Items x) <= 31 ->
  WrittenAndParsedBack [descriptorSubtitling x]
    (descriptorsWire (entry DescriptorTagSubtitling (payloadSubtitling x)))
    [descriptorSubtitling x].
Proof.
  intros Hi Hl. exact (coded_round_trip_single _ (Subtitling_coded x Hi Hl)).
Qed.

Lemma subtitling_round_trip_witness :
  WrittenAndParsedBack
    [descriptorSubtitling
       (mkDescriptorSubtitling
          [mkDescriptorSubtitlingItem 258 772 (slice_of [102; 114; 97]) 16])]
    [240; 10; 89; 8; 102; 114; 97; 16; 3; 4; 1; 2]
    [descriptorSubtitling
       (mkDescriptorSubtitling
          [mkDescriptorSubtitlingItem 258 772 (slice_of [102; 114; 97]) 16])].
Proof.
  apply (subtitling_round_trip
           (mkDescriptorSubtitling
              [mkDescriptorSubtitlingItem 258 772 (slice_of [102; 114; 97]) 16])).
  - intros item [<-|[]]. split; [split; reflexivity|].
    vm_compute. repeat split; discriminate.
  - vm_compute. split; [reflexivity|discriminate].
Defined.

(** X15. Teletext and VBI teletext: five bytes per item, language, type on
    five bits and magazine on three, and the page as two decimal digits on
    a nibble each.  From 1 to 51 items with a page below 160 come back in
    order, under either tag. *)
Theorem teletext_round_trip x :
  (forall item, In item (TT_Items x) -> teletextItem_ok item) ->
  0 < len (TT_Items x) <= 51 ->
  WrittenAndParsedBack [descriptorTeletext x]
    (descriptorsWire (entry DescriptorTagTeletext (payloadTeletext x)))
    [descriptorTeletext x] /\
  WrittenAndParsedBack [descriptorVBITeletext x]
    (descriptorsWire (entry DescriptorTagVBITeletext (payloadTeletext x)))
    [descriptorVBITeletext x].
Proof.
  intros Hi Hl. split.
  - exact (coded_round_trip_single _ (Teletext_coded x Hi Hl)).
  - exact (coded_round_trip_single _ (VBITeletext_coded x Hi Hl)).
Qed.

Lemma teletext_round_trip_witness :
  WrittenAndParsedBack
    [descriptorTeletext
       (mkDescriptorTeletext [mkDescriptorTeletextItem (slice_of [102; 114; 97]) 1 88 2])]
    [240; 7; 86; 5; 102; 114; 97; 17; 136]
    [descriptorTeletext
       (mkDescriptorTeletext [mkDescriptorTeletextItem (slice_of [102; 114; 97]) 1 88 2])] /\
  WrittenAndParsedBack
    [descriptorVBITeletext
       (mkDescriptorTeletext [mkDescriptorTeletextItem (slice_of [102; 114; 97]) 1 88 2])]
    [240; 7; 70; 5; 102; 114; 97; 17; 136]
    [descriptorVBITeletext
       (mkDescriptorTeletext [mkDescriptorTeletextItem (slice_of [102; 114; 97]) 1 88 2])].
Proof.
  apply (teletext_round_trip
           (mkDescriptorTeletext
              [mkDescriptorTeletextItem (slice_of [102; 114; 97]) 1 88 2])).
  - intros item [<-|[]]. split; [split; reflexivity|].
    vm_compute. repeat split; discriminate.
  - vm_compute. split; [reflexivity|discriminate].
Defined.

(** X16. VBI data: three bytes per service.  A service of a known id with
    one line (field parity and a line offset below 32), or a service of
    another id with no line, comes back; from 1 to 85 such services come
    back in order. *)
Theorem vbiData_round_trip x :
  (forall s, In s (VBI_Services x) -> vbiDataService_ok s) ->
  0 < len (VBI_Services x) <= 85 ->
  WrittenAndParsedBack [descriptorVBIData x]
    (descriptorsWire (entry DescriptorTagVBIData (payloadVBIData x)))
    [descriptorVBIData x].
Proof.
  intros Hi Hl. exact (coded_round_trip_single _ (VBIData_coded x Hi Hl)).
Qed.

Lemma vbiData_round_trip_witness :
  WrittenAndParsedBack
    [descriptorVBIData
       (mkDescriptorVBIData
          [mkDescriptorVBIDataService 1 [mkDescriptorVBIDataDescriptor true 7];
           mkDescriptorVBIDataService 3 []])]
    [240; 8; 69; 6; 1; 1; 231; 3; 1; 255]
    [descriptorVBIData
       (mkDescriptorVBIData
          [mkDescriptorVBIDataService 1 [mkDescriptorVBIDataDescriptor true 7];
           mkDescriptorVBIDataService 3 []])].
Proof.
  apply (vbiData_round_trip
           (mkDescriptorVBIData
              [mkDescriptorVBIDataService 1 [mkDescriptorVBIDataDescriptor true 7];
               mkDescriptorVBIDataService 3 []])).
  - intros s [<-|[<-|[]]].
    + exists (mkDescriptorVBIDataDescriptor true 7). split; [reflexivity|].
      vm_compute. split; [discriminate|reflexivity].
    + reflexivity.
  - vm_compute. split; [reflexivity|discriminate].
Defined.

(** X17. AC3: a byte of four flags, one byte for each flag that is set,
    then the additional info.  A descriptor whose unflagged fields are
    zero, of at most 255 bytes, comes back. *)
Theorem ac3_round_trip x :
  ac3_ok x -> len (payloadAC3 x) <= 255 ->
  WrittenAndParsedBack [descriptorAC3 x]
    (descriptorsWire (entry DescriptorTagAC3 (payloadAC3 x))) [descriptorAC3 x].
Proof.
  intros Hok Hl. exact (coded_round_trip_single _ (AC3_coded x Hok Hl)).
Qed.

Lemma ac3_round_trip_witness :
  WrittenAndParsedBack
    [descriptorAC3 (mkDescriptorAC3 [9] 0 8 0 false true false true 5)]
    [240; 6; 106; 4; 111; 8; 5; 9]
    [descriptorAC3 (mkDescriptorAC3 [9] 0 8 0 false true false true 5)].
Proof.
  apply (ac3_round_trip (mkDescriptorAC3 [9] 0 8 0 false true false true 5)).
  - vm_compute. repeat split; intros H; first [reflexivity | discriminate H].
  - vm_compute. discriminate.
Defined.

(** X18. Enhanced AC3: a byte of eight flags, one byte for each of the
    seven flags that announce a field, then the additional info.  A
    descriptor whose unflagged fields are zero, of at most 255 bytes,
    comes back. *)
Theorem enhancedAC3_round_trip x :
  enhancedAC3_ok x -> len (payloadEnhancedAC3 x) <= 255 ->
  WrittenAndParsedBack [descriptorEnhancedAC3 x]
    (descriptorsWire (entry DescriptorTagEnhancedAC3 (payloadEnhancedAC3 x)))
    [descriptorEnhancedAC3 x].
Proof.
  intros Hok Hl. exact (coded_round_trip_single _ (EnhancedAC3_coded x Hok Hl)).
Qed.

Lemma enhancedAC3_round_trip_witness :
  WrittenAndParsedBack
    [descriptorEnhancedAC3
       (mkDescriptorEnhancedAC3 [9] 0 8 0 false true false false
          false true false 0 true 0 6 0)]
    [240; 6; 122; 4; 74; 8; 6; 9]
    [descriptorEnhancedAC3
       (mkDescriptorEnhancedAC3 [9] 0 8 0 false true false false
          false true false 0 true 0 6 0)].
Proof.
  apply (enhancedAC3_round_trip
           (mkDescriptorEnhancedAC3 [9] 0 8 0 false true false false
              false true false 0 true 0 6 0)).
  - vm_compute. repeat split; intros H; first [reflexivity | discriminate H].
  - vm_compute. discriminate.
Defined.

(** X19. Extended event: two nibbles, a language, the items behind the
    length of all of them, the text behind its length; each item is a
    description and a content behind their lengths.  A descriptor of at
    most 255 bytes comes back, and the length byte in front of the items
    is the number of bytes they take. *)
Theorem extendedEvent_round_trip x :
  code3 (EE_ISO639LanguageCode x) [] ->
  0 <= EE_Number x < 16 -> 0 <= EE_LastDescriptorNumber x < 16 ->
  len (payloadExtendedEvent x) <= 255 ->
  WrittenAndParsedBack [descriptorExtendedEvent x]
    (descriptorsWire (entry DescriptorTagExtendedEvent (payloadExtendedEvent x)))
    [descriptorExtendedEvent x].
Proof.
  intros Hc Hn Hd Hl.
  exact (coded_round_trip_single _ (ExtendedEvent_coded x Hc Hn Hd Hl)).
Qed.

Lemma extendedEvent_round_trip_witness :
  WrittenAndParsedBack
    [descriptorExtendedEvent
       (mkDescriptorExtendedEvent (slice_of [102; 114; 97])
          [mkDescriptorExtendedEventItem [67] [68; 69]] 3 1 [84])]
    [240; 14; 78; 12; 19; 102; 114; 97; 5; 2; 68; 69; 1; 67; 1; 84]
    [descriptorExtendedEvent
       (mkDescriptorExtendedEvent (slice_of [102; 114; 97])
          [mkDescriptorExtendedEventItem [67] [68; 69]] 3 1 [84])].
Proof.
  apply (extendedEvent_round_trip
           (mkDescriptorExtendedEvent (slice_of [102; 114; 97])
              [mkDescriptorExtendedEventItem [67] [68; 69]] 3 1 [84])).
  - split; reflexivity.
  - vm_compute. split; [discriminate|reflexivity].
  - vm_compute. split; [discriminate|reflexivity].
  - vm_compute. discriminate.
Defined.

(** X20. Extension: under the supplementary audio tag, a byte with mix
    type, editorial classification and the language flag, the language
    when flagged, and private data; under any other tag, the bytes that
    follow the tag.  Both come back, up to 254 bytes behind the tag. *)
Theorem extension_round_trip :
  (forall x,
     supplementaryAudio_ok x -> len (payloadExtensionSupplementaryAudio x) <= 254 ->
     WrittenAndParsedBack [descriptorExtension (extensionSupplementaryAudio x)]
       (descriptorsWire
          (entry DescriptorTagExtension (payloadExtension (extensionSupplementaryAudio x))))
       [descriptorExtension (extensionSupplementaryAudio x)]) /\
  (forall tag u,
     tag <> DescriptorTagExtensionSupplementaryAudio -> len u <= 254 ->
     WrittenAndParsedBack [descriptorExtension (extensionUnknown tag u)]
       (descriptorsWire
          (entry DescriptorTagExtension (payloadExtension (extensionUnknown tag u))))
       [descriptorExtension (extensionUnknown tag u)]).
Proof.
  split.
  - intros x Hok Hl.
    exact (coded_round_trip_single _ (ExtensionSupplementaryAudio_coded x Hok Hl)).
  - intros tag u Ht Hl.
    exact (coded_round_trip_single _ (ExtensionUnknown_coded tag u Ht Hl)).
Qed.

Lemma extension_round_trip_witness :
  WrittenAndParsedBack
    [descriptorExtension
       (extensionSupplementaryAudio
          (mkDescriptorExtensionSupplementaryAudio 3 true (slice_of [102; 114; 97])
             true [9]))]
    [240; 8; 127; 6; 6; 143; 102; 114; 97; 9]
    [descriptorExtension
       (extensionSupplementaryAudio
          (mkDescriptorExtensionSupplementaryAudio 3 true (slice_of [102; 114; 97])
             true [9]))] /\
  WrittenAndParsedBack [descriptorExtension (extensionUnknown 4 [1; 2])]
    [240; 5; 127; 3; 4; 1; 2]
    [descriptorExtension (extensionUnknown 4 [1; 2])].
Proof.
  split.
  - apply (proj1 extension_round_trip
             (mkDescriptorExtensionSupplementaryAudio 3 true (slice_of [102; 114; 97])
                true [9])).
    + split; [vm_compute; split; [discriminate|reflexivity]|split; reflexivity].
    + vm_compute. discriminate.
  - apply (proj2 extension_round_trip 4 [1; 2]).
    + discriminate.
    + vm_compute. discriminate.
Defined.

End DescriptorRoundTrips.

(** ** Packets: header, clock reference, adaptation field, packet *)

Section PacketFields.

Lemma Emits_header h :
  Emits (writePacketHeader h) (mpegTsPacketHeaderSize, None) (headerBytes h).
Proof.
  intros s c. exists (nth 2 (headerBytes h) 0).
  change (s ++ headerBytes h)
    with (s ++ [nth 0 (headerBytes h) 0] ++ [nth 1 (headerBytes h) 0]
            ++ [nth 2 (headerBytes h) 0]).
  rewrite !app_assoc. reflexivity.
Qed.

Lemma header_byte0_read a b c hi :
  0 <= hi < 32 ->
  bit_set (Z.lor (flags3 a b c) hi) 128 = a /\ bit_set (Z.lor (flags3 a b c) hi) 64 = b /\
  bit_set (Z.lor (flags3 a b c) hi) 32 = c /\ Z.land (Z.lor (flags3 a b c) hi) 31 = hi.
Proof.
  intros Hv.
  assert (E : (Bool.eqb (bit_set (Z.lor (flags3 a b c) hi) 128) a
               && Bool.eqb (bit_set (Z.lor (flags3 a b c) hi) 64) b
               && Bool.eqb (bit_set (Z.lor (flags3 a b c) hi) 32) c
               && (Z.land (Z.lor (flags3 a b c) hi) 31 =? hi)) = true).
  { revert hi Hv. change 32 with (Z.of_nat 32) at 1.
    destruct a, b, c;
      refine (range_forallb (fun v => _ && _ && _ && _) 32 _);
      vm_compute; reflexivity. }
  rewrite !andb_true_iff in E. destruct E as [[[E1 E2] E3] E4].
  apply Bool.eqb_prop in E1, E2, E3. apply Z.eqb_eq in E4. auto.
Qed.

Lemma header_byte2_read haf hp tsc cc :
  0 <= tsc < 4 -> 0 <= cc < 16 ->
  let b := put (setbit hp (setbit haf (first_bits tsc 2) 32) 16) cc 4 0 in
  Z.land b 15 = cc /\ bit_set b 32 = haf /\ bit_set b 16 = hp /\
  Z.land (Z.shiftr b 6) 3 = tsc.
Proof.
  intros Ht Hc b. subst b.
  assert (E : ((Z.land (put (setbit hp (setbit haf (first_bits tsc 2) 32) 16) cc 4 0) 15
                =? cc)
               && Bool.eqb
                    (bit_set (put (setbit hp (setbit haf (first_bits tsc 2) 32) 16) cc 4 0)
                       32) haf
               && Bool.eqb
                    (bit_set (put (setbit hp (setbit haf (first_bits tsc 2) 32) 16) cc 4 0)
                       16) hp
               && (Z.land
                     (Z.shiftr
                        (put (setbit hp (setbit haf (first_bits tsc 2) 32) 16) cc 4 0) 6)
                     3 =? tsc)) = true).
  { revert tsc cc Ht Hc. change 4 with (Z.of_nat 4) at 1.
    change 16 with (Z.of_nat 16) at 1.
    destruct haf, hp;
      refine (range2_forallb (fun tsc cc => _ && _ && _ && _) 4 16 _);
      vm_compute; reflexivity. }
  rewrite !andb_true_iff in E. destruct E as [[[E1 E2] E3] E4].
  apply Bool.eqb_prop in E2, E3. apply Z.eqb_eq in E1, E4. auto.
Qed.

Lemma Consumes_header h i :
  header_ok h -> Consumes parsePacketHeader i (headerBytes h) h.
Proof.
  intros (Hp & Ht & Hc). unfold parsePacketHeader.
  apply Consumes_eq with (inp := headerBytes h ++ []) (a := h);
    [|apply app_nil_r|reflexivity].
  apply Consumes_bind with (a := headerBytes h).
  { apply Consumes_wrap, Consumes_NextBytesNoCopy. reflexivity. }
  intros i1 _ _. apply Consumes_ret_eq.
  unfold headerBytes, idx. cbv zeta. cbn [nth].
  rewrite land_ones_small by lia. rewrite !u8_shiftr by lia.
  change (2 ^ 8) with 256. change (2 ^ 0) with 1.
  assert (Hhi : (PH_PID h / 256) mod 256 = PH_PID h / 256)
    by (apply Z.mod_small; Z.to_euclidean_division_equations; lia).
  rewrite Hhi.
  assert (R : 0 <= PH_PID h / 256 < 32) by (Z.to_euclidean_division_equations; lia).
  destruct (header_byte0_read (PH_TransportErrorIndicator h)
              (PH_PayloadUnitStartIndicator h) (PH_TransportPriority h) _ R)
    as (-> & -> & -> & ->).
  destruct (header_byte2_read (PH_HasAdaptationField h) (PH_HasPayload h) _ _ Ht Hc)
    as (-> & -> & -> & ->).
  rewrite lor_shiftl_add by (try apply Z.mod_pos_bound; lia).
  change (2 ^ 8) with 256.
  assert (P : PH_PID h / 256 * 256 + (PH_PID h / 1) mod 256 = PH_PID h)
    by (Z.to_euclidean_division_equations; lia).
  rewrite P. destruct h; reflexivity.
Qed.

Lemma Emits_pcr c :
  Emits (writePCR (Some c)) (pcrBytesSize, None) (pcrBytes c).
Proof.
  intros s w. exists (nth 5 (pcrBytes c) 0).
  change (s ++ pcrBytes c)
    with (s ++ [nth 0 (pcrBytes c) 0] ++ [nth 1 (pcrBytes c) 0]
            ++ [nth 2 (pcrBytes c) 0] ++ [nth 3 (pcrBytes c) 0]
            ++ [nth 4 (pcrBytes c) 0] ++ [nth 5 (pcrBytes c) 0]).
  rewrite !app_assoc. reflexivity.
Qed.


Lemma pcr_byte4 b e :
  0 <= b -> 0 <= e < 512 ->
  Z.lor (Z.lor (u8 (Z.shiftl b 7)) 126) (u8 (Z.shiftr e 8))
  = 128 * (b mod 2) + 126 + e / 256.
Proof.
  intros Hb He.
  assert (E1 : u8 (Z.shiftl b 7) = 128 * (b mod 2)).
  { unfold u8. rewrite Z.shiftl_mul_pow2 by lia. change (2 ^ 7) with 128.
    Z.to_euclidean_division_equations. lia. }
  assert (E2 : u8 (Z.shiftr e 8) = e / 256).
  { rewrite u8_shiftr by lia. change (2 ^ 8) with 256. apply Z.mod_small.
    Z.to_euclidean_division_equations. lia. }
  rewrite E1, E2.
  assert (P : b mod 2 = 0 \/ b mod 2 = 1) by (Z.to_euclidean_division_equations; lia).
  assert (Q : e / 256 = 0 \/ e / 256 = 1) by (Z.to_euclidean_division_equations; lia).
  destruct P as [-> | ->], Q as [-> | ->]; reflexivity.
Qed.

Lemma pcr_read c :
  clockReference_ok c ->
  let b := pcrBytes c in
  let pcr :=
    Z.lor (Z.shiftl (idx b 0) 40)
      (Z.lor (Z.shiftl (idx b 1) 32)
         (Z.lor (Z.shiftl (idx b 2) 24)
            (Z.lor (Z.shiftl (idx b 3) 16)
               (Z.lor (Z.shiftl (idx b 4) 8) (idx b 5))))) in
  Z.shiftr pcr 15 = CR_Base c /\ Z.land pcr 511 = CR_Extension c.
Proof.
  intros [Hb He]. cbv zeta. unfold pcrBytes, idx. cbv zeta. cbn [nth].
  rewrite !land_ones_small by lia.
  rewrite pcr_byte4 by lia. rewrite !u8_shiftr by lia.
  set (base := CR_Base c) in *. set (ext := CR_Extension c) in *.
  change (2 ^ 25) with 33554432. change (2 ^ 17) with 131072.
  change (2 ^ 9) with 512. change (2 ^ 1) with 2. change (2 ^ 0) with 1.
  set (b0 := (base / 33554432) mod 256). set (b1 := (base / 131072) mod 256).
  set (b2 := (base / 512) mod 256). set (b3 := (base / 2) mod 256).
  set (b4 := 128 * (base mod 2) + 126 + ext / 256). set (b5 := (ext / 1) mod 256).
  assert (R0 : 0 <= b0 < 256) by (apply Z.mod_pos_bound; lia).
  assert (R1 : 0 <= b1 < 256) by (apply Z.mod_pos_bound; lia).
  assert (R2 : 0 <= b2 < 256) by (apply Z.mod_pos_bound; lia).
  assert (R3 : 0 <= b3 < 256) by (apply Z.mod_pos_bound; lia).
  assert (R4 : 0 <= b4 < 256) by (subst b4; Z.to_euclidean_division_equations; lia).
  assert (R5 : 0 <= b5 < 256) by (apply Z.mod_pos_bound; lia).
  rewrite (lor_shiftl_add b4 b5 8) by (change (2 ^ 8) with 256; lia).
  rewrite (lor_shiftl_add b3 _ 16) by (change (2 ^ 16) with 65536; change (2 ^ 8) with 256; lia).
  rewrite (lor_shiftl_add b2 _ 24)
    by (change (2 ^ 24) with 16777216; change (2 ^ 16) with 65536;
        change (2 ^ 8) with 256; lia).
  rewrite (lor_shiftl_add b1 _ 32)
    by (change (2 ^ 32) with 4294967296; change (2 ^ 24) with 16777216;
        change (2 ^ 16) with 65536; change (2 ^ 8) with 256; lia).
  rewrite (lor_shiftl_add b0 _ 40)
    by (change (2 ^ 40) with 1099511627776; change (2 ^ 32) with 4294967296;
        change (2 ^ 24) with 16777216; change (2 ^ 16) with 65536;
        change (2 ^ 8) with 256; lia).
  change (2 ^ 40) with 1099511627776. change (2 ^ 32) with 4294967296.
  change (2 ^ 24) with 16777216. change (2 ^ 16) with 65536. change (2 ^ 8) with 256.
  assert (V : b0 * 1099511627776
              + (b1 * 4294967296 + (b2 * 16777216 + (b3 * 65536 + (b4 * 256 + b5))))
              = base * 32768 + 32256 + ext).
  { subst b0 b1 b2 b3 b4 b5. Z.to_euclidean_division_equations. lia. }
  rewrite V. split.
  - rewrite Z.shiftr_div_pow2 by lia. change (2 ^ 15) with 32768.
    Z.to_euclidean_division_equations. lia.
  - change 511 with (Z.ones 9). rewrite Z.land_ones by lia. change (2 ^ 9) with 512.
    Z.to_euclidean_division_equations. lia.
Qed.

Lemma Consumes_pcr c i :
  clockReference_ok c ->
  Consumes parsePCR i (pcrBytes c) (newClockReference (CR_Base c) (CR_Extension c)).
Proof.
  intros Hc. unfold parsePCR.
  apply Consumes_eq with (inp := pcrBytes c ++ [])
                         (a := newClockReference (CR_Base c) (CR_Extension c));
    [|apply app_nil_r|reflexivity].
  apply Consumes_bind with (a := pcrBytes c).
  { apply Consumes_wrap, Consumes_NextBytesNoCopy. reflexivity. }
  intros i1 _ _. apply Consumes_ret_eq. cbv zeta.
  destruct (pcr_read c Hc) as [-> ->]. reflexivity.
Qed.


(** *** The adaptation field *)

Lemma Emits_times n b : Emits (wtimes n (wbyte b)) tt (repeat b n).
Proof.
  induction n as [|n IH]; cbn [wtimes repeat].
  - apply Emits_ret.
  - apply Emits_byte_k. exact IH.
Qed.

Lemma len_repeat (b : byte) n : len (repeat b n) = Z.of_nat n.
Proof. unfold len. rewrite repeat_length. reflexivity. Qed.

Lemma len_pcrBytes c : len (pcrBytes c) = 6.
Proof. reflexivity. Qed.

Lemma len_optClock has cr :
  optClock_ok has cr -> len (optClock has cr) = if has then 6 else 0.
Proof.
  unfold optClock_ok, optClock. destruct has.
  - intros (c & -> & _). reflexivity.
  - intros _. reflexivity.
Qed.

Lemma Emits_optClock {A} has cr (k : Z * option error -> Wr BufferSink A) r out :
  optClock_ok has cr ->
  Emits (k ((if has then pcrBytesSize else 0), None)) r out ->
  Emits (wbind (if has then writePCR cr else wret (0, None)) k) r (optClock has cr ++ out).
Proof.
  unfold optClock_ok, optClock. destruct has.
  - intros (c & -> & _) Hk.
    apply Emits_bind with (a := (pcrBytesSize, @None error)); [apply Emits_pcr|exact Hk].
  - intros _ Hk.
    apply Emits_bind with (a := (0, @None error)) (o1 := []); [apply Emits_ret|exact Hk].
Qed.

Lemma len_adaptationFieldBody af :
  adaptationField_ok af ->
  len (adaptationFieldBody af)
  = 1 + (if AF_HasPCR af then 6 else 0) + (if AF_HasOPCR af then 6 else 0)
    + (if AF_HasSplicingCountdown af then 1 else 0)
    + (if AF_HasTransportPrivateData af then 1 + len (AF_TransportPrivateData af) else 0).
Proof.
  intros (_ & _ & _ & Hp & Ho & _). unfold adaptationFieldBody.
  rewrite len_cons, !len_app, !len_optClock, len_opt_byte by assumption.
  destruct (AF_HasPCR af), (AF_HasOPCR af), (AF_HasSplicingCountdown af),
    (AF_HasTransportPrivateData af);
    cbn [b2z]; rewrite ?len_cons; unfold len; cbn [List.length]; lia.
Qed.

Lemma calcPacketAdaptationFieldLength_ok af :
  adaptationField_ok af ->
  calcPacketAdaptationFieldLength af = Done (adaptationFieldLength af).
Proof.
  intros Hok. pose proof (len_adaptationFieldBody af Hok) as E.
  destruct Hok as (_ & Hx & _ & _ & _ & _ & Ht & Hs & Hm).
  unfold adaptationFieldLength in *.
  unfold calcPacketAdaptationFieldLength. rewrite Hx. cbv zeta.
  pose proof (len_nonneg (AF_TransportPrivateData af)) as Hd.
  assert (D : u8 (len (AF_TransportPrivateData af)) = len (AF_TransportPrivateData af)).
  { apply u8_small.
    destruct (AF_HasTransportPrivateData af); [|destruct Ht as [_ ->]; cbn; lia].
    destruct (AF_HasPCR af), (AF_HasOPCR af), (AF_HasSplicingCountdown af); blia. }
  rewrite D.
  assert (S : u8 (AF_StuffingLength af) = AF_StuffingLength af).
  { apply u8_small.
    destruct (AF_HasTransportPrivateData af), (AF_HasPCR af), (AF_HasOPCR af),
      (AF_HasSplicingCountdown af); blia. }
  rewrite S. unfold pcrBytesSize. f_equal. rewrite E. apply u8_small.
  destruct (AF_HasTransportPrivateData af), (AF_HasPCR af), (AF_HasOPCR af),
    (AF_HasSplicingCountdown af); blia.
Qed.


Lemma Emits_adaptationField af :
  adaptationField_ok af ->
  Emits (writePacketAdaptationField (Some af)) (1 + adaptationFieldLength af, None)
    (adaptationFieldBytes af).
Proof.
  intros Hok. pose proof (len_adaptationFieldBody af Hok) as E.
  pose proof (calcPacketAdaptationFieldLength_ok af Hok) as C.
  destruct Hok as (H1 & Hx & _ & Hp & Ho & Hsc & Ht & Hs & Hm).
  unfold writePacketAdaptationField, adaptationFieldBytes. cbn [wderef].
  rewrite H1, C.
  apply Emits_bind with (a := adaptationFieldLength af) (o1 := []); [apply Emits_calc|].
  apply Emits_byte_k. unfold adaptationFieldBody. rewrite <- app_comm_cons.
  apply Emits_8flags. rewrite <- !app_assoc.
  apply Emits_optClock; [exact Hp|]. cbn [snd fst].
  apply Emits_optClock; [exact Ho|]. cbn [snd fst].
  unfold writePacketAdaptationFieldTail. rewrite Hx.
  assert (K : forall o : Z,
             Emits (wbind (wtimes (Z.to_nat (AF_StuffingLength af)) (wdo (WriteByte 255)))
                      (fun _ => wbind werr (fun e => wret (o, e))))
               (o, None) (repeat 255 (Z.to_nat (AF_StuffingLength af)))).
  { intros o. eapply Emits_eq; [|apply app_nil_r].
    apply Emits_then; [apply Emits_times|].
    apply Emits_bind with (a := @None error) (o1 := []); [apply Emits_err|].
    apply Emits_ret. }
  assert (V : 2 + (if AF_HasPCR af then pcrBytesSize else 0)
              + (if AF_HasOPCR af then pcrBytesSize else 0)
              + (if AF_HasSplicingCountdown af then 1 else 0)
              + (if AF_HasTransportPrivateData af
                 then 1 + len (AF_TransportPrivateData af) else 0)
              + 0 + Z.max 0 (AF_StuffingLength af) = 1 + adaptationFieldLength af).
  { unfold adaptationFieldLength. rewrite E. unfold pcrBytesSize. lia. }
  unfold adaptationFieldLength in Hm.
  rewrite <- V.
  destruct (AF_HasSplicingCountdown af); cbn [opt_byte app].
  - rewrite (u8_small (AF_SpliceCountdown af)) by lia. apply Emits_byte_k.
    destruct (AF_HasTransportPrivateData af).
    + rewrite Ht.
      rewrite (u8_small (len (AF_TransportPrivateData af)))
        by (pose proof (len_nonneg (AF_TransportPrivateData af));
            destruct (AF_HasPCR af), (AF_HasOPCR af); blia).
      apply Emits_then with (o1 := len (AF_TransportPrivateData af)
                                   :: AF_TransportPrivateData af).
      * apply Emits_byte_k.
        destruct (Z.gtb_spec (len (AF_TransportPrivateData af)) 0) as [G|G].
        -- apply Emits_slice.
        -- assert (N : AF_TransportPrivateData af = []).
           { destruct (AF_TransportPrivateData af) as [|d0 ds]; [reflexivity|].
             rewrite len_cons in G. pose proof (len_nonneg ds). blia. }
           rewrite N. apply Emits_ret.
      * apply Emits_bind with (a := (0, @None error)) (o1 := []); [apply Emits_ret|].
        cbn [snd fst]. apply K.
    + apply Emits_then with (o1 := []); [apply Emits_ret|].
      apply Emits_bind with (a := (0, @None error)) (o1 := []); [apply Emits_ret|].
      cbn [snd fst app]. apply K.
  - apply Emits_then with (o1 := []); [apply Emits_ret|]. cbn [app].
    destruct (AF_HasTransportPrivateData af).
    + rewrite Ht.
      rewrite (u8_small (len (AF_TransportPrivateData af)))
        by (pose proof (len_nonneg (AF_TransportPrivateData af));
            destruct (AF_HasPCR af), (AF_HasOPCR af); blia).
      apply Emits_then with (o1 := len (AF_TransportPrivateData af)
                                   :: AF_TransportPrivateData af).
      * apply Emits_byte_k.
        destruct (Z.gtb_spec (len (AF_TransportPrivateData af)) 0) as [G|G].
        -- apply Emits_slice.
        -- assert (N : AF_TransportPrivateData af = []).
           { destruct (AF_TransportPrivateData af) as [|d0 ds]; [reflexivity|].
             rewrite len_cons in G. pose proof (len_nonneg ds). blia. }
           rewrite N. apply Emits_ret.
      * apply Emits_bind with (a := (0, @None error)) (o1 := []); [apply Emits_ret|].
        cbn [snd fst]. apply K.
    + apply Emits_then with (o1 := []); [apply Emits_ret|].
      apply Emits_bind with (a := (0, @None error)) (o1 := []); [apply Emits_ret|].
      cbn [snd fst app]. apply K.
Qed.


Lemma Consumes_optClock {A} has cr s (k : option ClockReference -> M A) i inp a :
  optClock_ok has cr ->
  (forall i', offset i' = offset i + (if has then 6 else 0) ->
              Consumes (k (reparsedClock cr)) i' inp a) ->
  Consumes (bind (when has None (some (wrap s parsePCR))) k) i (optClock has cr ++ inp) a.
Proof.
  unfold optClock_ok, optClock. destruct has; cbn [when].
  - intros (c & -> & Hc) Hk.
    apply Consumes_bind with (a := Some (newClockReference (CR_Base c) (CR_Extension c))).
    + unfold some.
      apply Consumes_eq with (inp := pcrBytes c ++ [])
        (a := Some (newClockReference (CR_Base c) (CR_Extension c)));
        [|apply app_nil_r|reflexivity].
      apply Consumes_bind with (a := newClockReference (CR_Base c) (CR_Extension c)).
      * apply Consumes_wrap, Consumes_pcr, Hc.
      * intros i' _ _. apply Consumes_ret.
    + intros i' _ O. apply Hk. rewrite O, len_pcrBytes. reflexivity.
  - intros -> Hk.
    apply Consumes_bind with (a := @None ClockReference); [apply Consumes_ret|].
    intros i' _ O. apply Hk. rewrite O, len_nil. reflexivity.
Qed.

Ltac af_fields :=
  unfold set_AF_StuffingLength, reparsedAdaptationField;
  cbn [fst snd AF_AdaptationExtensionField AF_OPCR AF_PCR AF_TransportPrivateData
       AF_TransportPrivateDataLength AF_Length AF_StuffingLength AF_SpliceCountdown
       AF_IsOneByteStuffing AF_RandomAccessIndicator AF_DiscontinuityIndicator
       AF_ElementaryStreamPriorityIndicator AF_HasAdaptationExtensionField
       AF_HasOPCR AF_HasPCR AF_HasTransportPrivateData AF_HasSplicingCountdown].

Lemma Consumes_adaptationField af i :
  adaptationField_ok af ->
  Consumes parsePacketAdaptationField i
    (adaptationFieldLength af :: adaptationFieldBody af)
    (reparsedAdaptationField af).
Proof.
  intros Hok. pose proof (len_adaptationFieldBody af Hok) as E.
  destruct Hok as (H1 & Hx & Hn & Hp & Ho & Hsc & Ht & Hs & Hm).
  pose proof (len_nonneg (AF_TransportPrivateData af)) as Hd.
  assert (G : (adaptationFieldLength af >? 0) = true).
  { apply Z.gtb_lt. unfold adaptationFieldLength. rewrite E.
    destruct (AF_HasPCR af), (AF_HasOPCR af), (AF_HasSplicingCountdown af),
      (AF_HasTransportPrivateData af); blia. }
  unfold parsePacketAdaptationField.
  apply Consumes_byte_k. intros i1 O1. cbv zeta.
  apply Consumes_offset_k. intros i2 O2. rewrite G.
  apply Consumes_eq with (inp := adaptationFieldBody af ++ [])
                         (a := reparsedAdaptationField af);
    [|apply app_nil_r|reflexivity].
  apply Consumes_bind with
    (a := set_AF_StuffingLength 0 (reparsedAdaptationField af)).
  - unfold adaptationFieldBody.
    apply Consumes_byte_k. intros i3 O3. cbv zeta.
    destruct (flags8_read (AF_DiscontinuityIndicator af) (AF_RandomAccessIndicator af)
                (AF_ElementaryStreamPriorityIndicator af) (AF_HasPCR af) (AF_HasOPCR af)
                (AF_HasSplicingCountdown af) (AF_HasTransportPrivateData af)
                (AF_HasAdaptationExtensionField af))
      as (-> & -> & -> & -> & -> & -> & -> & ->).
    apply Consumes_optClock; [exact Hp|]. intros i4 O4.
    apply Consumes_optClock; [exact Ho|]. intros i5 O5.
    apply Consumes_opt_byte. intros i6 O6.
    rewrite Hx. cbn [when].
    destruct (AF_HasTransportPrivateData af) eqn:T; cbn [when].
    + apply Consumes_eq with
        (inp := (len (AF_TransportPrivateData af) :: AF_TransportPrivateData af) ++ [])
        (a := set_AF_StuffingLength 0 (reparsedAdaptationField af));
        [|apply app_nil_r|reflexivity].
      apply Consumes_bind with
        (a := (len (AF_TransportPrivateData af), AF_TransportPrivateData af)).
      * apply Consumes_byte_k. intros i7 O7.
        apply Consumes_eq with (inp := AF_TransportPrivateData af ++ [])
          (a := (len (AF_TransportPrivateData af), AF_TransportPrivateData af));
          [|apply app_nil_r|reflexivity].
        apply Consumes_bind with (a := AF_TransportPrivateData af).
        -- destruct (Z.gtb_spec (len (AF_TransportPrivateData af)) 0) as [P|P];
             cbn [when].
           ++ apply Consumes_nextBytes. reflexivity.
           ++ assert (N : AF_TransportPrivateData af = []).
              { destruct (AF_TransportPrivateData af) as [|d0 ds]; [reflexivity|].
                rewrite len_cons in P. pose proof (len_nonneg ds). blia. }
              rewrite N. apply Consumes_ret.
        -- intros i8 _ _. apply Consumes_ret.
      * intros i7 _ _.
        apply Consumes_bind with (a := @None PacketAdaptationExtensionField) (inp1 := []);
          [apply Consumes_ret|].
        intros i8 _ _. apply Consumes_ret_eq. af_fields.
        rewrite T, Hn, H1, Hx, Ht.
        destruct (AF_HasSplicingCountdown af); [|rewrite Hsc]; reflexivity.
    + apply Consumes_bind with (a := (0, @nil byte)) (inp1 := []); [apply Consumes_ret|].
      intros i7 _ _.
      apply Consumes_bind with (a := @None PacketAdaptationExtensionField) (inp1 := []);
        [apply Consumes_ret|].
      intros i8 _ _. apply Consumes_ret_eq. af_fields.
      destruct Ht as [Ht1 Ht2]. rewrite T, Hn, H1, Hx, Ht1, Ht2.
      destruct (AF_HasSplicingCountdown af); [|rewrite Hsc]; reflexivity.
  - intros i3 _ O3. apply Consumes_offset_k. intros i4 O4.
    apply Consumes_ret_eq.
    assert (S : AF_Length (set_AF_StuffingLength 0 (reparsedAdaptationField af))
                - (offset i3 - offset i1) = AF_StuffingLength af).
    { af_fields. unfold adaptationFieldLength. rewrite O3, O2. lia. }
    rewrite S. af_fields. reflexivity.
Qed.


Lemma len_adaptationFieldBytes af :
  adaptationField_ok af -> len (adaptationFieldBytes af) = 1 + adaptationFieldLength af.
Proof.
  intros (H1 & _ & _ & _ & _ & _ & _ & Hs & _).
  unfold adaptationFieldBytes, adaptationFieldLength.
  rewrite H1, len_cons, len_app, len_repeat. lia.
Qed.

Lemma Emits_adaptationField_any af :
  AF_IsOneByteStuffing af = true \/ adaptationField_ok af ->
  Emits (writePacketAdaptationField (Some af)) (len (adaptationFieldBytes af), None)
    (adaptationFieldBytes af).
Proof.
  intros [H|H].
  - unfold writePacketAdaptationField, adaptationFieldBytes. cbn [wderef]. rewrite H.
    apply Emits_byte_k with (out := []). apply Emits_ret.
  - rewrite len_adaptationFieldBytes by exact H. apply Emits_adaptationField. exact H.
Qed.

Lemma len_headerBytes h : len (headerBytes h) = 3.
Proof. reflexivity. Qed.

Lemma Emits_packet p :
  packet_ok p -> Emits (writePacket p MpegTsPacketSize) (MpegTsPacketSize, None) (packetBytes p).
Proof.
  intros (Hh & Haf & Hpl & Hlen).
  unfold writePacket, packetBytes.
  assert (L : len (packetContent p)
              = 1 + 3 + len (packetAdaptationFieldBytes p) + len (P_Payload p)).
  { unfold packetContent. rewrite len_cons, !len_app, len_headerBytes. lia. }
  unfold packetPadding. rewrite L in *. unfold packetContent.
  pose proof (len_nonneg (P_Payload p)) as Hp0.
  pose proof (len_nonneg (packetAdaptationFieldBytes p)) as Ha0.
  rewrite <- app_comm_cons, <- !app_assoc.
  apply Emits_byte_k.
  apply Emits_bind with (a := (mpegTsPacketHeaderSize, @None error)); [apply Emits_header|].
  cbn [snd fst].
  apply Emits_bind with (a := (len (packetAdaptationFieldBytes p), @None error)).
  { unfold packetAdaptationFieldBytes. destruct (PH_HasAdaptationField (P_Header p)).
    - destruct (Haf eq_refl) as (af & -> & Hok). apply Emits_adaptationField_any, Hok.
    - apply Emits_ret. }
  cbn [snd fst]. unfold mpegTsPacketHeaderSize.
  assert (G : Z.ltb (MpegTsPacketSize - (1 + 3 + len (packetAdaptationFieldBytes p)))
                (len (P_Payload p)) = false) by (apply Z.ltb_ge; lia).
  rewrite G.
  assert (K : forall n o,
             Z.max o MpegTsPacketSize = MpegTsPacketSize ->
             Emits (wbind (wtimes n (wdo (WriteByte 255)))
                      (fun _ => wbind werr (fun e => wret (Z.max o MpegTsPacketSize, e))))
               (MpegTsPacketSize, None) (repeat 255 n)).
  { intros n o Ho. rewrite Ho. eapply Emits_eq; [|apply app_nil_r].
    apply Emits_then; [apply Emits_times|].
    apply Emits_bind with (a := @None error) (o1 := []); [apply Emits_err|].
    apply Emits_ret. }
  destruct (PH_HasPayload (P_Header p)).
  - apply Emits_slice_k.
    apply K. lia.
  - rewrite (Hpl eq_refl) in *.
    apply Emits_then with (o1 := []); [apply Emits_ret|].
    replace (1 + 3 + len (packetAdaptationFieldBytes p) + len (@nil byte))
      with (1 + 3 + len (packetAdaptationFieldBytes p)) by (rewrite len_nil; lia).
    apply K. lia.
Qed.


(** *** Running a parser on a window *)

Lemma bind_run {A B} (m : M A) (k : A -> M B) i a i' :
  m i = (Ok a, i') -> bind m k i = k a i'.
Proof. intros H. unfold bind. rewrite H. reflexivity. Qed.

Lemma wrap_run {A} s (m : M A) i a i' :
  m i = (Ok a, i') -> wrap s m i = (Ok a, i').
Proof. intros H. unfold wrap. rewrite H. reflexivity. Qed.

Lemma Reads_at (pre l : bytes) : Reads (mkIter (pre ++ l) (len pre)) l.
Proof.
  unfold Reads. cbn [offset bs]. split.
  - rewrite len_app. pose proof (len_nonneg pre). pose proof (len_nonneg l). lia.
  - unfold len. rewrite Nat2Z.id, skipn_app, skipn_all, Nat.sub_diag. reflexivity.
Qed.

Lemma Consumes_at {A} (m : M A) wire o pre inp rest a :
  Consumes m (mkIter wire o) inp a ->
  wire = pre ++ inp ++ rest -> o = len pre ->
  m (mkIter wire o) = (Ok a, mkIter wire (o + len inp)).
Proof.
  intros H -> ->.
  destruct (H rest (Reads_at pre (inp ++ rest))) as (i' & E & Hb & Ho).
  rewrite E. destruct i' as [b' o']. cbn [bs offset] in *. subst. reflexivity.
Qed.

Lemma Dump_at wire o pre rest :
  wire = pre ++ rest -> o = len pre -> fst (Dump (mkIter wire o)) = Ok rest.
Proof.
  intros -> ->. unfold Dump, HasBytesLeft. cbn [bs offset].
  pose proof (len_nonneg pre) as Hp. pose proof (len_nonneg rest) as Hr.
  rewrite len_app.
  destruct (Z.ltb_spec (len pre) (len pre + len rest)).
  - destruct (Z.ltb_spec (len pre) 0); [lia|]. cbn [fst]. f_equal.
    unfold len. rewrite Nat2Z.id, skipn_app, skipn_all, Nat.sub_diag. reflexivity.
  - cbn [fst]. f_equal. destruct rest as [|r0 rest]; [reflexivity|].
    rewrite len_cons in *. pose proof (len_nonneg rest). lia.
Qed.

Lemma len_packetBytes p :
  len (packetContent p) <= MpegTsPacketSize -> len (packetBytes p) = MpegTsPacketSize.
Proof.
  intros H. unfold packetBytes, packetPadding. rewrite len_app, len_repeat. lia.
Qed.

Lemma Consumes_parsedAdaptationField af :
  AF_IsOneByteStuffing af = true \/ adaptationField_ok af ->
  exists consumed stuffing,
    adaptationFieldBytes af = consumed ++ stuffing /\
    (forall i, Consumes parsePacketAdaptationField i consumed (parsedAdaptationField af)) /\
    1 + AF_Length (parsedAdaptationField af) = len (adaptationFieldBytes af).
Proof.
  intros [H|H]; unfold parsedAdaptationField, adaptationFieldBytes.
  - rewrite H. exists [0], []. split; [reflexivity|]. split; [|reflexivity].
    intros i. unfold parsePacketAdaptationField.
    apply Consumes_byte_k. intros i1 O1. cbv zeta.
    apply Consumes_offset_k. intros i2 O2.
    change (0 >? 0) with false. cbv iota.
    apply Consumes_bind with (a := set_AF_Length 0 zeroAdaptationField) (inp1 := []);
      [apply Consumes_ret|].
    intros i3 _ O3. apply Consumes_offset_k. intros i4 O4.
    apply Consumes_ret_eq. change (len (@nil byte)) with 0 in O3.
    replace (AF_Length (set_AF_Length 0 zeroAdaptationField)
             - (offset i3 - offset i1)) with 0
      by (cbn [AF_Length set_AF_Length]; lia).
    reflexivity.
  - pose proof (len_adaptationFieldBytes af H) as L.
    unfold adaptationFieldBytes in L.
    destruct H as (H1 & Hrest). rewrite H1 in *.
    exists (adaptationFieldLength af :: adaptationFieldBody af),
      (repeat 255 (Z.to_nat (AF_StuffingLength af))).
    split; [reflexivity|]. split.
    + intros i. apply Consumes_adaptationField. split; assumption.
    + rewrite L. reflexivity.
Qed.


Lemma parsePacket_packetBytes p :
  packet_ok p ->
  fst (parsePacket None (NewBytesIterator (packetBytes p))) = Ok (parsedPacket p).
Proof.
  intros (Hh & Haf & Hpl & Hlen).
  pose proof (len_packetBytes p Hlen) as L188.
  set (wire := packetBytes p) in *.
  assert (W : wire = [syncByte] ++ headerBytes (P_Header p)
                     ++ packetAdaptationFieldBytes p ++ P_Payload p ++ packetPadding p).
  { unfold wire, packetBytes, packetContent. cbn [app].
    rewrite <- !app_assoc. reflexivity. }
  unfold parsePacket, NewBytesIterator.
  assert (N : NextByte (mkIter wire 0) = (Ok syncByte, mkIter wire 1)).
  { rewrite NextByte_at by (cbn [offset bs]; rewrite L188; unfold MpegTsPacketSize; lia).
    cbn [offset bs]. rewrite W. reflexivity. }
  rewrite (bind_run _ _ _ _ _ (wrap_run _ _ _ _ _ N)).
  change (negb (syncByte =? syncByte)) with false. cbv iota.
  change (bind GetLen ?k (mkIter wire 1)) with (k (len wire) (mkIter wire 1)).
  cbv beta. rewrite L188.
  change (bind (Seek (MpegTsPacketSize - MpegTsPacketSize + 1)) ?k (mkIter wire 1))
    with (k tt (mkIter wire 1)).
  cbv beta.
  change (bind GetOffset ?k (mkIter wire 1)) with (k 1 (mkIter wire 1)).
  cbv beta.
  assert (H : wrap "astits: parsing packet header failed" parsePacketHeader
                (mkIter wire 1) = (Ok (P_Header p), mkIter wire (1 + 3))).
  { apply wrap_run.
    apply (Consumes_at parsePacketHeader wire 1 [syncByte] (headerBytes (P_Header p))
             (packetAdaptationFieldBytes p ++ P_Payload p ++ packetPadding p)).
    - apply Consumes_header. exact Hh.
    - exact W.
    - reflexivity. }
  rewrite (bind_run _ _ _ _ _ H). clear H.
  destruct (PH_HasAdaptationField (P_Header p)) eqn:HAF; cbn [when].
  - destruct (Haf eq_refl) as (af & Eaf & Hok).
    destruct (Consumes_parsedAdaptationField af Hok) as (consumed & stuffing & Eb & Hc & Hl).
    assert (B : packetAdaptationFieldBytes p = consumed ++ stuffing)
      by (unfold packetAdaptationFieldBytes; rewrite HAF, Eaf; exact Eb).
    assert (A : some (wrap "astits: parsing packet adaptation field failed"
                        parsePacketAdaptationField) (mkIter wire (1 + 3))
                = (Ok (Some (parsedAdaptationField af)),
                   mkIter wire (1 + 3 + len consumed))).
    { unfold some. erewrite bind_run; [reflexivity|]. apply wrap_run.
      apply (Consumes_at parsePacketAdaptationField wire (1 + 3)
               ([syncByte] ++ headerBytes (P_Header p)) consumed
               (stuffing ++ P_Payload p ++ packetPadding p)).
      - apply Hc.
      - rewrite W, B, <- !app_assoc. reflexivity.
      - reflexivity. }
    rewrite (bind_run _ _ _ _ _ A). clear A. cbv zeta iota.
    unfold parsedPacket. rewrite HAF, Eaf.
    destruct (PH_HasPayload (P_Header p)) eqn:HP.
    + unfold payloadOffset. rewrite HAF. cbn [deref].
      change (bind (ret ?x) ?k ?i) with (k x i). cbv beta.
      change (bind (Seek ?n) ?k ?i) with (k tt (mkIter (bs i) n)). cbv beta.
      cbn [bs].
      assert (D : fst (Dump (mkIter wire (1 + 3 + (1 + AF_Length (parsedAdaptationField af)))))
                  = Ok (P_Payload p ++ packetPadding p)).
      { apply (Dump_at wire _ ([syncByte] ++ headerBytes (P_Header p)
                                 ++ packetAdaptationFieldBytes p)).
        - rewrite W, <- !app_assoc. reflexivity.
        - rewrite !len_app, len_headerBytes. unfold packetAdaptationFieldBytes.
          rewrite HAF, Eaf, <- Hl. change (len [syncByte]) with 1. lia. }
      unfold bind.
      destruct (Dump (mkIter wire (1 + 3 + (1 + AF_Length (parsedAdaptationField af)))))
        as [r i']. cbn [fst] in D. subst r. reflexivity.
    + reflexivity.
  - change (bind (ret ?x) ?k ?i) with (k x i). cbv beta zeta iota.
    unfold parsedPacket. rewrite HAF.
    destruct (PH_HasPayload (P_Header p)) eqn:HP.
    + unfold payloadOffset. rewrite HAF.
      change (bind (ret ?x) ?k ?i) with (k x i). cbv beta.
      change (bind (Seek ?n) ?k ?i) with (k tt (mkIter (bs i) n)). cbv beta.
      cbn [bs].
      assert (D : fst (Dump (mkIter wire (1 + 3))) = Ok (P_Payload p ++ packetPadding p)).
      { apply (Dump_at wire _ ([syncByte] ++ headerBytes (P_Header p))).
        - rewrite W. unfold packetAdaptationFieldBytes. rewrite HAF.
          rewrite <- !app_assoc. reflexivity.
        - reflexivity. }
      unfold bind.
      destruct (Dump (mkIter wire (1 + 3))) as [r i']. cbn [fst] in D. subst r.
      reflexivity.
    + reflexivity.
Qed.


Lemma Emits_fresh {A} (m : Wr BufferSink A) a out :
  Emits m a out ->
  exists w', m fresh_writer = Done (a, w') /\ w_w w' = out.
Proof.
  intros H. destruct (H [] 0) as [c' E].
  exists (mkWriter out 0 0 c' None). split; [exact E|reflexivity].
Qed.

Lemma Consumes_whole {A} (m : M A) inp a :
  Consumes m (NewBytesIterator inp) inp a ->
  m (NewBytesIterator inp) = (Ok a, mkIter inp (len inp)).
Proof.
  intros H.
  exact (Consumes_at m inp 0 [] inp [] a H (eq_sym (app_nil_r inp)) eq_refl).
Qed.

Lemma newStuffingAdaptationField_ok n :
  2 <= n <= 256 -> adaptationField_ok (newStuffingAdaptationField n).
Proof.
  intros Hn. unfold newStuffingAdaptationField.
  destruct (Z.eqb_spec n 1); [lia|].
  unfold adaptationField_ok, adaptationFieldLength, adaptationFieldBody, optClock_ok.
  unfold zeroAdaptationField. af_fields. cbn [optClock opt_byte app].
  change (len [flags8 false false false false false false false false]) with 1.
  repeat split; try reflexivity; lia.
Qed.

Lemma adaptationFieldBytes_stuffing n :
  1 <= n -> adaptationFieldBytes (newStuffingAdaptationField n) = stuffingBytes n.
Proof.
  intros Hn. unfold newStuffingAdaptationField, stuffingBytes.
  destruct (Z.eqb_spec n 1); [reflexivity|].
  unfold adaptationFieldBytes, adaptationFieldLength, adaptationFieldBody.
  unfold zeroAdaptationField. af_fields. cbn [optClock opt_byte app].
  change (len [flags8 false false false false false false false false]) with 1.
  change (flags8 false false false false false false false false) with 0.
  f_equal. lia.
Qed.

(** X21. [writePacketHeader] and [parsePacketHeader]: a header with a PID
    below 2^13, a scrambling control below 4 and a continuity counter below
    16 is written on three bytes, and parsing those bytes gives the header
    back. *)
Theorem packetHeader_round_trip h :
  header_ok h ->
  exists w',
    writePacketHeader h fresh_writer = Done ((3, None), w') /\
    w_w w' = headerBytes h /\
    parsePacketHeader (NewBytesIterator (headerBytes h)) = (Ok h, mkIter (headerBytes h) 3).
Proof.
  intros Hok. destruct (Emits_fresh _ _ _ (Emits_header h)) as (w' & E & Hw).
  exists w'. split; [exact E|]. split; [exact Hw|].
  exact (Consumes_whole _ _ _ (Consumes_header h _ Hok)).
Qed.

Lemma packetHeader_round_trip_witness :
  exists w',
    writePacketHeader (mkPacketHeader 5 true true false 4660 false true 2) fresh_writer
    = Done ((3, None), w') /\
    w_w w' = [50; 52; 181] /\
    parsePacketHeader (NewBytesIterator [50; 52; 181])
    = (Ok (mkPacketHeader 5 true true false 4660 false true 2), mkIter [50; 52; 181] 3).
Proof.
  apply (packetHeader_round_trip (mkPacketHeader 5 true true false 4660 false true 2)).
  vm_compute. repeat split; discriminate.
Defined.

(** X22. [writePCR] and [parsePCR]: a base below 2^33 and an extension
    below 2^9 are written on six bytes around six reserved bits, and
    [parsePCR] hands that base and that extension to
    [newClockReference]. *)
Theorem pcr_round_trip c :
  clockReference_ok c ->
  exists w',
    writePCR (Some c) fresh_writer = Done ((6, None), w') /\
    w_w w' = pcrBytes c /\
    parsePCR (NewBytesIterator (pcrBytes c))
    = (Ok (newClockReference (CR_Base c) (CR_Extension c)), mkIter (pcrBytes c) 6).
Proof.
  intros Hok. destruct (Emits_fresh _ _ _ (Emits_pcr c)) as (w' & E & Hw).
  exists w'. split; [exact E|]. split; [exact Hw|].
  exact (Consumes_whole _ _ _ (Consumes_pcr c _ Hok)).
Qed.

Lemma pcr_round_trip_witness :
  exists w',
    writePCR (Some (mkClockReference 5726623061 300)) fresh_writer = Done ((6, None), w') /\
    w_w w' = [170; 170; 170; 170; 255; 44] /\
    parsePCR (NewBytesIterator [170; 170; 170; 170; 255; 44])
    = (Ok (newClockReference 5726623061 300), mkIter [170; 170; 170; 170; 255; 44] 6).
Proof.
  apply (pcr_round_trip (mkClockReference 5726623061 300)).
  vm_compute. repeat split; discriminate.
Defined.







(** X25. [newStuffingAdaptationField]: the adaptation field it builds for
    [n >= 1] bytes is written as exactly [n] bytes: a zero byte for
    [n = 1], otherwise the length [n - 1], a byte of flags all clear and
    [n - 2] bytes 0xFF.  In a packet whose payload takes the other
    [184 - n] bytes, nothing is padded behind the payload, and [parsePacket]
    returns the payload as written. *)
Theorem stuffed_packet_round_trip h payload n :
  header_ok h -> PH_HasAdaptationField h = true -> PH_HasPayload h = true ->
  1 <= n -> n + len payload = 184 ->
  exists w' w'',
    writePacketAdaptationField (Some (newStuffingAdaptationField n)) fresh_writer
    = Done ((n, None), w') /\
    w_w w' = stuffingBytes n /\ len (stuffingBytes n) = n /\
    writePacket (mkPacket (Some (newStuffingAdaptationField n)) h payload)
      MpegTsPacketSize fresh_writer = Done ((MpegTsPacketSize, None), w'') /\
    w_w w'' = syncByte :: headerBytes h ++ stuffingBytes n ++ payload /\
    fst (parsePacket None (NewBytesIterator (w_w w'')))
    = Ok (mkPacket (Some (parsedAdaptationField (newStuffingAdaptationField n))) h payload).
Proof.
  intros Hh Haf Hp Hn Hl.
  pose proof (len_nonneg payload) as Hp0.
  assert (Hs : AF_IsOneByteStuffing (newStuffingAdaptationField n) = true \/
               adaptationField_ok (newStuffingAdaptationField n)).
  { destruct (Z.eq_dec n 1) as [->|Hne]; [left; reflexivity|].
    right. apply newStuffingAdaptationField_ok. lia. }
  assert (Ls : len (stuffingBytes n) = n).
  { unfold stuffingBytes. destruct (Z.eqb_spec n 1) as [->|Hne]; [reflexivity|].
    rewrite !len_cons, len_repeat. lia. }
  set (p := mkPacket (Some (newStuffingAdaptationField n)) h payload).
  assert (Ec : packetContent p = syncByte :: headerBytes h ++ stuffingBytes n ++ payload).
  { unfold packetContent, packetAdaptationFieldBytes, p.
    cbn [P_Header P_AdaptationField P_Payload]. rewrite Haf.
    rewrite adaptationFieldBytes_stuffing by exact Hn. reflexivity. }
  assert (Lc : len (packetContent p) = MpegTsPacketSize).
  { rewrite Ec, len_cons, !len_app, len_headerBytes, Ls. unfold MpegTsPacketSize. lia. }
  assert (Ep : packetPadding p = []).
  { unfold packetPadding. rewrite Lc, Z.sub_diag. reflexivity. }
  assert (Hok : packet_ok p).
  { unfold packet_ok, p. cbn [P_Header P_AdaptationField P_Payload]. fold p.
    split; [exact Hh|]. split; [|split].
    - intros _. exists (newStuffingAdaptationField n). split; [reflexivity|exact Hs].
    - rewrite Hp. intros H. discriminate H.
    - rewrite Lc. lia. }
  destruct (Emits_fresh _ _ _ (Emits_adaptationField_any _ Hs)) as (w' & E' & Hw').
  destruct (Emits_fresh _ _ _ (Emits_packet p Hok)) as (w'' & E'' & Hw'').
  rewrite adaptationFieldBytes_stuffing in E', Hw' by exact Hn. rewrite Ls in E'.
  exists w', w''. split; [exact E'|]. split; [exact Hw'|]. split; [exact Ls|].
  split; [exact E''|].
  assert (Eb : packetBytes p = syncByte :: headerBytes h ++ stuffingBytes n ++ payload).
  { unfold packetBytes. rewrite Ep, app_nil_r. exact Ec. }
  split; [rewrite Hw''; exact Eb|].
  rewrite Hw''. rewrite (parsePacket_packetBytes p Hok).
  unfold parsedPacket, p. cbn [P_Header P_AdaptationField P_Payload]. fold p.
  rewrite Haf, Hp, Ep, app_nil_r. reflexivity.
Qed.

Lemma stuffed_packet_round_trip_witness :
  exists w' w'',
    writePacketAdaptationField (Some (newStuffingAdaptationField 4)) fresh_writer
    = Done ((4, None), w') /\
    w_w w' = [3; 0; 255; 255] /\ len (stuffingBytes 4) = 4 /\
    writePacket (mkPacket (Some (newStuffingAdaptationField 4)) sample_stuffed_header
                   (repeat 7 180)) 188 fresh_writer
    = Done ((188, None), w'') /\
    w_w w'' = [71; 50; 52; 181; 3; 0; 255; 255] ++ repeat 7 180 /\
    fst (parsePacket None (NewBytesIterator (w_w w'')))
    = Ok (mkPacket (Some (parsedAdaptationField (newStuffingAdaptationField 4)))
            sample_stuffed_header (repeat 7 180)).
Proof.
  apply (stuffed_packet_round_trip sample_stuffed_header (repeat 7 180) 4).
  - vm_compute. repeat split; discriminate.
  - reflexivity.
  - reflexivity.
  - lia.
  - reflexivity.
Defined.

End PacketFields.

(** ** The bit writer and the CRC register *)

Section WriterAccounts.

Lemma WriteBits_nothing {Sink} {SW : IoWriter Sink} v n (w : lightweightBitsWriter Sink) :
  n <= 0 -> WriteBits v n w = Done w.
Proof.
  intros Hn. unfold WriteBits.
  destruct (Z.ltb_spec 64 n); [lia|].
  cbn [WriteBits_loop].
  destruct (Z.gtb_spec n 0); [lia|]. reflexivity.
Qed.

Lemma call_adv c w :
  healthy w -> call_in_range c ->
  exists w', call c w = Done w' /\ healthy w' /\ bitpos w' = bitpos w + callBits c /\
             extends w w'.
Proof.
  intros H Hr. destruct c as [bit|v n|b|v|v|inp]; cbn [call callBits].
  - exists (WriteBit bit w). split; [reflexivity|]. apply WriteBit_adv. exact H.
  - cbn [call_in_range] in Hr. destruct (Z.le_gt_cases n 0) as [Hn|Hn].
    + exists w. rewrite WriteBits_nothing by exact Hn.
      split; [reflexivity|]. split; [exact H|]. split; [lia|apply extends_refl].
    + rewrite Z.max_r by lia. apply WriteBits_adv; [exact H|lia].
  - exists (WriteByte b w). split; [reflexivity|]. apply WriteByte_adv. exact H.
  - apply WriteBits_adv; [exact H|lia].
  - apply WriteBits_adv; [exact H|lia].
  - exists (WriteSlice inp w). split; [reflexivity|]. apply WriteSlice_adv. exact H.
Qed.

(** X26. Bit accounting of the writer over a buffer: after any sequence of
    calls (with [WriteBits] widths up to 64) on a writer that has met no
    error, no call has panicked, there is still no error, the buffer has
    only grown, fewer than eight bits wait in the cache, and eight times the
    buffer length plus the cached bits has grown by the bits of the calls:
    1 for [WriteBit], [n] for [WriteBits] with a positive [n] and nothing
    otherwise, 8 per byte, 16 and 32 for the fixed widths. *)
Theorem calls_bit_accounting cs (w : lightweightBitsWriter BufferSink) :
  healthy w -> Forall call_in_range cs ->
  exists w',
    calls cs w = Done w' /\
    w_err w' = None /\ 0 <= w_cacheLen w' < 8 /\
    8 * len (w_w w') + w_cacheLen w' = 8 * len (w_w w) + w_cacheLen w + callsBits cs /\
    exists out, w_w w' = w_w w ++ out.
Proof.
  intros H Hr. revert w H.
  induction Hr as [|c cs Hc Hcs IH]; intros w H; cbn [calls callsBits fold_right].
  - exists w. split; [reflexivity|]. destruct H as [He Hl].
    split; [exact He|]. split; [exact Hl|]. split; [lia|].
    exists []. symmetry. apply app_nil_r.
  - destruct (call_adv c w H Hc) as (w1 & E1 & H1 & B1 & X1).
    rewrite E1. destruct (IH w1 H1) as (w' & E' & He & Hl & B' & out' & X').
    exists w'. split; [exact E'|]. split; [exact He|]. split; [exact Hl|].
    unfold bitpos in B1. fold (callsBits cs). split; [lia|].
    destruct X1 as [out1 X1]. exists (out1 ++ out'). rewrite X', X1, app_assoc.
    reflexivity.
Qed.

Lemma calls_bit_accounting_witness :
  exists w',
    calls sample_account_calls fresh_writer = Done w' /\
    w_err w' = None /\ 0 <= w_cacheLen w' < 8 /\
    8 * len (w_w w') + w_cacheLen w' = 8 * 0 + 0 + 56 /\
    exists out, w_w w' = [] ++ out.
Proof.
  apply (calls_bit_accounting sample_account_calls fresh_writer).
  - split; [reflexivity|]. vm_compute. split; [discriminate|reflexivity].
  - unfold sample_account_calls.
    repeat (apply Forall_cons; [cbn [call_in_range]; try exact I; lia|]).
    apply Forall_nil.
Defined.

(** X27. [WriteBits] panics exactly when asked for more than 64 bits: over
    any sink and from any state of the writer, also after an error, a width
    above 64 ends in the panic of the negative shift count, and any other
    width, negative ones included, returns. *)
Theorem WriteBits_panics_above_64 {Sink} {SW : IoWriter Sink} v n
  (w : lightweightBitsWriter Sink) :
  (64 < n -> WriteBits v n w = Abort NegativeShift) /\
  (n <= 64 -> exists w', WriteBits v n w = Done w').
Proof.
  split.
  - intros Hn. unfold WriteBits. destruct (Z.ltb_spec 64 n); [reflexivity|lia].
  - intros Hn. apply WriteBits_total. exact Hn.
Qed.

Lemma WriteBits_panics_above_64_witness :
  WriteBits 1 65 latched_writer = Abort NegativeShift /\
  exists w', WriteBits 1 64 latched_writer = Done w'.
Proof.
  split.
  - apply (proj1 (WriteBits_panics_above_64 1 65 latched_writer)). lia.
  - apply (proj2 (WriteBits_panics_above_64 1 64 latched_writer)). lia.
Defined.

Lemma WriteBytes_aligned inp (w : lightweightBitsWriter BufferSink) :
  w_err w = None -> w_cacheLen w = 0 ->
  let w' := fold_left (fun w b => WriteByte b w) inp w in
  w_w w' = w_w w ++ inp /\ w_cache w' = w_cache w /\ w_cacheLen w' = 0 /\
  w_err w' = None.
Proof.
  revert w. induction inp as [|b inp IH]; intros w He Hc; cbn [fold_left].
  - rewrite app_nil_r. auto.
  - assert (E : WriteByte b w = mkWriter (w_w w ++ [b]) (w_cache w) 0 b None).
    { unfold WriteByte. rewrite Hc. cbn [Z.eqb].
      rewrite flushBsCache_buffer by exact He. reflexivity. }
    rewrite E.
    destruct (IH (mkWriter (w_w w ++ [b]) (w_cache w) 0 b None) eq_refl eq_refl)
      as (A1 & A2 & A3 & A4).
    cbn [w_w w_cache] in A1, A2. rewrite A1, <- app_assoc. auto.
Qed.

(** X28. [WriteSlice] and byte-at-a-time writing agree over a buffer: on a
    writer that has met no error, [WriteSlice] leaves the same buffer, the
    same cache and cached bit count and the same error state as one
    [WriteByte] per byte, whether it took the fast path (nothing cached:
    the slice goes to the sink in one write) or the slow one. *)
Theorem WriteSlice_as_bytes inp (w : lightweightBitsWriter BufferSink) :
  w_err w = None ->
  let w1 := WriteSlice inp w in
  let w2 := fold_left (fun w b => WriteByte b w) inp w in
  w_w w1 = w_w w2 /\ w_cache w1 = w_cache w2 /\ w_cacheLen w1 = w_cacheLen w2 /\
  w_err w1 = w_err w2.
Proof.
  intros He. cbv zeta. unfold WriteSlice.
  destruct inp as [|b inp]; [cbn [fold_left]; auto|].
  destruct (Z.eqb_spec (w_cacheLen w) 0) as [Hc|Hc]; cbn [negb]; [|auto].
  rewrite He.
  destruct (WriteBytes_aligned (b :: inp) w He Hc) as (A1 & A2 & A3 & A4).
  rewrite A1, A2, A3, A4. cbn [io_Write BufferSink_IoWriter w_w w_cache w_cacheLen w_err].
  auto.
Qed.

Lemma WriteSlice_as_bytes_witness :
  w_w (WriteSlice [1; 2; 3] fresh_writer)
  = w_w (fold_left (fun w b => WriteByte b w) [1; 2; 3] fresh_writer) /\
  w_cache (WriteSlice [1; 2; 3] fresh_writer)
  = w_cache (fold_left (fun w b => WriteByte b w) [1; 2; 3] fresh_writer) /\
  w_cacheLen (WriteSlice [1; 2; 3] fresh_writer)
  = w_cacheLen (fold_left (fun w b => WriteByte b w) [1; 2; 3] fresh_writer) /\
  w_err (WriteSlice [1; 2; 3] fresh_writer)
  = w_err (fold_left (fun w b => WriteByte b w) [1; 2; 3] fresh_writer).
Proof.
  apply (WriteSlice_as_bytes [1; 2; 3] fresh_writer). reflexivity.
Defined.

End WriterAccounts.

Section CRC32Properties.

Variable tableCRC32 : list Z.


Lemma updateCRC32_app crc32 a b :
  updateCRC32 tableCRC32 crc32 (a ++ b)
  = updateCRC32 tableCRC32 (updateCRC32 tableCRC32 crc32 a) b.
Proof. unfold updateCRC32. apply fold_left_app. Qed.

End CRC32Properties.



(** X30. [crc32Writer]: each [Write] hands the bytes to the bit writer with
    [WriteSlice], returns the number of bytes and the error of the bit
    writer, and feeds the register whatever that error is.  After any
    sequence of chunks, over any sink, [Sum32] is [computeCRC32] of their
    concatenation and the bit writer is where [WriteSlice] of each chunk in
    turn leaves it. *)
Theorem crc32Writer_sums_what_was_written (tableCRC32 : list Z) {Sink}
  {SW : IoWriter Sink} (ps : list bytes) (w : lightweightBitsWriter Sink) :
  let c := crc32Writer_Writes tableCRC32 ps (newCRC32Writer w) in
  Sum32 c = computeCRC32 tableCRC32 (List.concat ps) /\
  cw_w c = fold_left (fun w p => WriteSlice p w) ps w /\
  forall p c0,
    fst (crc32Writer_Write tableCRC32 p c0) = (len p, Err_ (WriteSlice p (cw_w c0))) /\
    Sum32 (snd (crc32Writer_Write tableCRC32 p c0))
    = updateCRC32 tableCRC32 (Sum32 c0) p.
Proof.
  cbv zeta. split; [|split].
  - unfold computeCRC32, newCRC32Writer, crc32Writer_Writes.
    generalize crc32Polynomial as crc. revert w.
    induction ps as [|p ps IH]; intros w crc; cbn [fold_left List.concat].
    + reflexivity.
    + unfold crc32Writer_Write at 2. cbn [snd cw_w cw_current].
      rewrite IH, updateCRC32_app. reflexivity.
  - unfold newCRC32Writer, crc32Writer_Writes.
    generalize crc32Polynomial as crc. revert w.
    induction ps as [|p ps IH]; intros w crc; cbn [fold_left].
    + reflexivity.
    + unfold crc32Writer_Write at 2. cbn [snd cw_w cw_current]. apply IH.
  - intros p c0. split; reflexivity.
Qed.
